(** * EasyDeL: sharding, decode cache, attention dispatch and weight conversion

    A shallow embedding of the parts of EasyDeL that its specification
    makes claims about:

    - [flax_modelling_utils.py]: [get_names_from_partition_spec],
      [names_in_mesh], [with_sharding_constraint], [get_flash_attention],
      [smart_flash_attention], [create_mesh];
    - [falcon/modelling_falcon_flax.py] and
      [mistral/modelling_mistral_flax.py]: [add_jax_args], the key/value
      cache update, the entry of the pretrained model's [__call__] and
      [built_bloom_alibi];
    - [transform/easydel_transform.py]: [match_keywords],
      [huggingface_to_easydel];

    and of the code around them: [repeat_kv_bnsh], [rotate_half],
    [get_ranks_and_size] and [JaxBaseClassModel] of
    [flax_modelling_utils.py]; [update_inputs_for_generation] and the
    sliding-window mask of the models; [read_ckpt], [save_ckpt] and
    [float_tensor_to_dtype] of [easydel_transform.py].

    Python exceptions are values of [result]; Python objects and dicts are
    finite maps, or association lists where the order of the items matters;
    floating-point numbers are those of [SpecFloat]; tensors are kept as
    symbolic as the code allows. *)

From Stdlib Require Import ZArith Lia List String Ascii Bool.
From Stdlib Require SpecFloat.
From stdpp Require Import base option list gmap strings fin_maps sets.
Import ListNotations.

Local Open Scope string_scope.
Local Open Scope list_scope.
Local Open Scope Z_scope.

(** ** Exceptions *)

Inductive PyError : Type :=
| ValueError (msg : string)
| AssertionError (msg : string)
| TypeError (msg : string)
| IndexError (msg : string)
| KeyError (msg : string).

Inductive result (T : Type) : Type :=
| Ok (v : T)
| Raise (e : PyError).
Arguments Ok {T} v.
Arguments Raise {T} e.

#[global] Instance result_ret : MRet result := fun _ v => Ok v.
#[global] Instance result_bind : MBind result :=
  fun _ _ f m => match m with Ok v => f v | Raise e => Raise e end.

Definition raises {T} (r : result T) : Prop := exists e, r = Raise e.

(** ** Machine integers: [jnp.int32] arithmetic wraps around *)

Definition int32 (z : Z) : Z := (z + 2 ^ 31) mod 2 ^ 32 - 2 ^ 31.

(** ** The incremental decode cache *)

Module Cache.
Section WithSlice.

(** [A] is the sub-tensor of a key or value at one sequence position
    (all batch entries, heads and channels of that position), so that a
    tensor of shape [[batch, length, heads, depth]] is the list of its
    [length] slices along the sequence axis.  [zero] is the slice
    [jnp.zeros] produces. *)
Context {A : Type} (zero : A).

(** [jax.lax.dynamic_update_slice operand update start] along the sequence
    axis (the start index of every other axis is [0] in both callers and
    the update spans them).  JAX rejects an update larger than the
    operand; a negative start index counts from the end; the start is then
    clamped so that the update lies inside the operand. *)
Definition clamp (lo hi x : Z) : Z := Z.max lo (Z.min hi x).

Definition dynamic_update_slice (operand update : list A) (start : Z)
  : result (list A) :=
  if (length operand <? length update)%nat then
    Raise (TypeError "dynamic_update_slice update shape must be smaller than operand shape")
  else
    let d := Z.of_nat (length operand) in
    let n := Z.of_nat (length update) in
    let start := if start <? 0 then start + d else start in
    let i := Z.to_nat (clamp 0 (d - n) start) in
    Ok (take i operand ++ update ++ drop (i + length update) operand).

(** The ["cache"] variable collection of one attention layer. *)
Record CacheVars : Type := mkCache {
  cached_key : option (list A);
  cached_value : option (list A);
  cache_index : option Z
}.

Definition no_cache : CacheVars := mkCache None None None.

(** Attention masks, indexed by query row and key position. *)
Definition Mask : Type := nat -> nat -> bool.

(** [self.has_variable(col, name)] and [self.variable(col, name, init)]:
    the stored value when the variable exists, the initial value
    otherwise. *)
Definition has_variable {T} (v : option T) : bool :=
  match v with Some _ => true | None => false end.

Definition variable {T} (v : option T) (init : T) : T :=
  match v with Some x => x | None => init end.

Definition zeros (n : nat) : list A := replicate n zero.

(** [FlaxFalconAttention._concatenate_to_cache]; [query_len] is
    [query.shape[1]]. *)
Definition _concatenate_to_cache (c : CacheVars) (key value : list A)
    (query_len : nat) (attention_mask : Mask)
  : result (CacheVars * (list A * list A * Mask)) :=
  let is_initialized := has_variable (cached_key c) in
  let cached_key_v := variable (cached_key c) (zeros (length key)) in
  let cached_value_v := variable (cached_value c) (zeros (length value)) in
  let cache_index_v := variable (cache_index c) 0 in
  if is_initialized then
    let max_length := length cached_key_v in
    let cur_index := cache_index_v in
    key ← dynamic_update_slice cached_key_v key cur_index;
    value ← dynamic_update_slice cached_value_v value cur_index;
    let num_updated_cache_vectors := Z.of_nat query_len in
    let new_index := int32 (cache_index_v + num_updated_cache_vectors) in
    let pad_mask : Mask := fun _ j =>
      bool_decide (j < max_length)%nat
      && (Z.of_nat j <? int32 (cur_index + num_updated_cache_vectors)) in
    let attention_mask : Mask := fun q j => pad_mask q j && attention_mask q j in
    Ok (mkCache (Some key) (Some value) (Some new_index),
        (key, value, attention_mask))
  else
    Ok (mkCache (Some cached_key_v) (Some cached_value_v) (Some cache_index_v),
        (key, value, attention_mask)).

(** [FlaxMistralAttention.concatenate_to_cache_]: the variables are named
    [key], [value] and [index]; the value buffer is allocated with the
    key's shape; the padding mask reads the index after its update. *)
Definition concatenate_to_cache_ (c : CacheVars) (key value : list A)
    (query_len : nat) (attention_mask : Mask)
  : result (CacheVars * (list A * list A * Mask)) :=
  let is_cache_available := has_variable (cached_key c) in
  let key_cache := variable (cached_key c) (zeros (length key)) in
  let value_cache := variable (cached_value c) (zeros (length key)) in
  let index_cache := variable (cache_index c) 0 in
  if is_cache_available then
    let ml := length key_cache in
    key ← dynamic_update_slice key_cache key index_cache;
    value ← dynamic_update_slice value_cache value index_cache;
    let num_updated_cache_vector := Z.of_nat query_len in
    let index_cache' := int32 (index_cache + num_updated_cache_vector) in
    let pad_mask : Mask := fun _ j =>
      bool_decide (j < ml)%nat && (Z.of_nat j <? index_cache') in
    let attention_mask : Mask := fun q j => pad_mask q j && attention_mask q j in
    Ok (mkCache (Some key) (Some value) (Some index_cache'),
        (key, value, attention_mask))
  else
    Ok (mkCache (Some key_cache) (Some value_cache) (Some index_cache),
        (key, value, attention_mask)).

(** A cache update function, as the two above. *)
Definition updater : Type :=
  CacheVars -> list A -> list A -> nat -> Mask ->
  result (CacheVars * (list A * list A * Mask)).

(** [init_cache]: one pass over a dummy input of [max_length] positions
    with no cache present allocates the buffers. *)
Definition init_cache (upd : updater) (key0 value0 : list A) (m : Mask)
  : result CacheVars :=
  r ← upd no_cache key0 value0 (length key0) m; Ok (fst r).

(** Decode steps of step length [1]: each step brings the key and value
    slice of one new position. *)
Fixpoint decode (upd : updater) (c : CacheVars) (steps : list (A * A))
    (m : Mask) : result CacheVars :=
  match steps with
  | [] => Ok c
  | (k, v) :: rest =>
      r ← upd c [k] [v] 1%nat m; decode upd (fst r) rest m
  end.

(** The two cache update functions of the source. *)
Definition updater_of (falcon : bool) : updater :=
  if falcon then _concatenate_to_cache else concatenate_to_cache_.

(** A cache whose three variables exist. *)
Definition active (kb vb : list A) (idx : Z) : CacheVars :=
  mkCache (Some kb) (Some vb) (Some idx).

(** The variables a call leaves behind, when it returns. *)
Definition state_after {X} (r : result (CacheVars * X)) : option CacheVars :=
  match r with Ok (c, _) => Some c | Raise _ => None end.

(** One call of a cache update function on an active cache with room for
    the new slices writes them at the cursor and moves the cursor by their
    number. *)
Definition writes_at_cursor (upd : updater) : Prop :=
  forall (kb vb key value : list A) (idx : nat) (m : Mask),
    length vb = length kb ->
    length value = length key ->
    (idx + length key <= length kb)%nat ->
    Z.of_nat (length kb) < 2 ^ 31 ->
    state_after (upd (active kb vb (Z.of_nat idx)) key value (length key) m)
    = Some (active (take idx kb ++ key ++ drop (idx + length key) kb)
                   (take idx vb ++ value ++ drop (idx + length key) vb)
                   (Z.of_nat (idx + length key))).

(** The first pass, on no cache, allocates zero buffers of the length of the
    key it is given and a zero cursor. *)
Definition allocates (upd : updater) : Prop :=
  forall (key0 value0 : list A) (m : Mask),
    length value0 = length key0 ->
    init_cache upd key0 value0 m
    = Ok (active (zeros (length key0)) (zeros (length key0)) 0).

(** The cache of [max_length] positions after the slices [pre_k], [pre_v]
    have been stored from position [0] on. *)
Definition filled (max_length : nat) (pre_k pre_v : list A) : CacheVars :=
  active (pre_k ++ zeros (max_length - length pre_k))
         (pre_v ++ zeros (max_length - length pre_k))
         (Z.of_nat (length pre_k)).

End WithSlice.
End Cache.

(** ** Partition specs and the sharding constraint *)

Module Sharding.

(** The values a partition spec is built from: [None], an axis name, a
    sequence (a [PartitionSpec] or a tuple of names) or a dict of specs. *)
#[local] Unset Elimination Schemes.
Inductive pspec : Type :=
| PNone
| PName (s : string)
| PSeq (items : list pspec)
| PDict (d : list (string * pspec)).
#[local] Set Elimination Schemes.

(** Iterating a Python [str] yields its characters as strings. *)
Fixpoint chars (s : string) : list string :=
  match s with
  | EmptyString => []
  | String c s' => String c EmptyString :: chars s'
  end.

(** The loop of [get_names_from_partition_spec] over the items of a
    collection, with the set [names] as its state; [rec] is the function
    itself, called on an item that is neither [None] nor a string. *)
Section Loop.
Variable rec : pspec -> result (list string).

Definition add_item (item : pspec) (names : gset string)
  : result (gset string) :=
  match item with
  | PNone => Ok names
  | PName s => Ok ({[ s ]} ∪ names)
  | _ => l ← rec item; Ok (list_to_set l ∪ names)
  end.

Fixpoint loop (items : list pspec) (names : gset string)
  : result (gset string) :=
  match items with
  | [] => Ok names
  | item :: rest => names ← add_item item names; loop rest names
  end.

Fixpoint loop_values (d : list (string * pspec)) (names : gset string)
  : result (gset string) :=
  match d with
  | [] => Ok names
  | (_, item) :: rest => names ← add_item item names; loop_values rest names
  end.

End Loop.

(** [get_names_from_partition_spec]; it returns [list(names)].  A dict is
    replaced by its values; iterating [None] is a [TypeError]. *)
Fixpoint get_names_from_partition_spec (partition_specs : pspec)
  : result (list string) :=
  match partition_specs with
  | PNone => Raise (TypeError "'NoneType' object is not iterable")
  | PName s => Ok (elements (list_to_set (chars s) : gset string))
  | PSeq items =>
      names ← loop get_names_from_partition_spec items ∅;
      Ok (elements names)
  | PDict d =>
      names ← loop_values get_names_from_partition_spec d ∅;
      Ok (elements names)
  end.

(** The specification's reading of the collected names: the axis-name
    strings that occur in a spec, at any depth. *)
Inductive referenced (s : string) : pspec -> Prop :=
| ref_name : referenced s (PName s)
| ref_seq items item :
    item ∈ items -> referenced s item -> referenced s (PSeq items)
| ref_dict d key item :
    (key, item) ∈ d -> referenced s item -> referenced s (PDict d).

(** A partition spec proper is a collection: a [PartitionSpec] (a tuple) or
    a dict of specs. *)
Definition is_collection (p : pspec) : Prop :=
  match p with
  | PSeq _ | PDict _ => True
  | _ => False
  end.

(** What a call must return on an item that is a collection: the names that
    occur in it. *)
Definition collects (rec : pspec -> result (list string)) (item : pspec)
  : Prop :=
  is_collection item ->
  exists l, rec item = Ok l /\ forall s, s ∈ l <-> referenced s item.

(** The ambient state the functions read: the axis names of the physical
    mesh of [pxla.thread_resources.env] and the platform of the default
    backend. *)
Record Env : Type := mkEnv {
  physical_mesh_axis_names : list string;
  platform : string
}.

(** [names_in_mesh], applied to the collected names. *)
Definition names_in_mesh (env : Env) (names : list string) : bool :=
  bool_decide ((list_to_set names : gset string)
               ⊆ list_to_set (physical_mesh_axis_names env)).

(** Tensors are symbolic: an input array with its shape and element type, or
    the application of one of the library operations the code calls.  The
    numerical kernels are external; what is modelled is which one is called
    and on what. *)
Inductive DType : Type := float32 | float16 | bfloat16 | float64 | int32_t.

Inductive Kernel : Type :=
| ring_flash_attention_gpu      (* fjformer.attention.ring_flash_attention_gpu *)
| tpu_flash_attention           (* fjformer.attention.tpu_flash_attention *)
| jax_flash_attn_tpu_flash_attention.
                                (* fjformer.attention.jax_flash_attn_tpu.flash_attention *)

(** [jax.sharding.Mesh]: the axis names and the shape of the device array. *)
Record Mesh : Type := mkMesh {
  axis_names : list string;
  devices_shape : list Z
}.

(** The keyword arguments bound by [partial] around the GPU kernel. *)
Record BlockwiseKwargs : Type := mkBlockwise {
  bw_deterministic : bool;
  bw_dropout_rng : option Z;
  bw_attn_pdrop : string;
  bw_causal : bool;
  bw_query_chunk_size : Z;
  bw_key_chunk_size : Z;
  bw_dtype : DType;
  bw_policy : string;
  bw_precision : string;
  bw_prevent_cse : bool
}.

Record BlockSizes : Type := mkBlockSizes {
  bs_block_b : Z;
  bs_block_k : Z;
  bs_block_q : Z;
  bs_block_k_major : Z
}.

Inductive Tensor : Type :=
| Arr (id : string) (shape : list Z) (dtype : DType)
| Wsc (x : Tensor) (partition_specs : pspec)
    (* jax.experimental.pjit.with_sharding_constraint *)
| Transpose (x : Tensor) (axes : list nat)
| AsType (x : Tensor) (dtype : DType)
| ShardMap (fn : Kernel) (axis_name : string) (float32_logits : bool)
    (blockwise_kwargs : BlockwiseKwargs) (mesh : Mesh)
    (in_specs : list pspec) (out_specs : pspec) (check_rep : bool)
    (q k v bias : Tensor)
    (* shard_map(partial(fn, ...), mesh, in_specs, out_specs)(q, k, v, bias) *)
| LocalCall (fn : Kernel) (q k v bias : Tensor) (causal : bool)
    (sm_scale : string) (block_sizes : BlockSizes) (debug : bool).
    (* fn(q, k, v, bias, None, causal, sm_scale, block_sizes, debug) *)

(** [x.shape]; an attention output has the shape of its query operand. *)
Fixpoint shape (x : Tensor) : list Z :=
  match x with
  | Arr _ sh _ => sh
  | Wsc x _ => shape x
  | Transpose x axes => map (fun a => nth a (shape x) 0) axes
  | AsType x _ => shape x
  | ShardMap _ _ _ _ _ _ _ _ q _ _ _ => shape q
  | LocalCall _ q _ _ _ _ _ _ _ => shape q
  end.

(** [with_sharding_constraint]. *)
Definition with_sharding_constraint (env : Env) (x : Tensor)
    (partition_specs : pspec) : result Tensor :=
  axis_names ← get_names_from_partition_spec partition_specs;
  let x := if names_in_mesh env axis_names then Wsc x partition_specs else x in
  Ok x.

(** Every axis name that occurs in the spec is an axis of the active mesh. *)
Definition declared (env : Env) (spec : pspec) : Prop :=
  forall s, referenced s spec -> s ∈ physical_mesh_axis_names env.

(** The number of constructors of a tensor expression. *)
Fixpoint size (x : Tensor) : nat :=
  match x with
  | Arr _ _ _ => 1
  | Wsc x _ => S (size x)
  | Transpose x _ => S (size x)
  | AsType x _ => S (size x)
  | ShardMap _ _ _ _ _ _ _ _ q k v bias =>
      S (size q + size k + size v + size bias)
  | LocalCall _ q k v bias _ _ _ _ =>
      S (size q + size k + size v + size bias)
  end.

End Sharding.

(** ** The attention dispatcher *)

Module Attention.
Import Sharding.

(** [get_flash_attention]: the kernel, whether the logits are upcast to
    float32, and whether the kernel runs under [shard_map]. *)
Definition get_flash_attention (env : Env) : result (Kernel * bool * bool) :=
  let platform := platform env in
  if String.eqb platform "gpu" then
    Ok (ring_flash_attention_gpu, false, true)
  else if String.eqb platform "tpu" then
    Ok (tpu_flash_attention, true, false)
  else
    Raise (ValueError ("Unsupported platform " +:+ platform)).

Definition assertion_mkv_err : string :=
  "Q,K,V and bias shapes must be like [batch_size, num_attention_heads, seq_len, head_dims]".

(** [x.shape[0]]. *)
Definition shape0 (x : Tensor) : result Z :=
  match shape x with
  | d :: _ => Ok d
  | [] => Raise (IndexError "tuple index out of range")
  end.

(** [assert cond, msg]. *)
Definition assert (cond : bool) (msg : string) : result unit :=
  if cond then Ok tt else Raise (AssertionError msg).

Definition shape_eqb (s1 s2 : list Z) : bool := bool_decide (s1 = s2).

Record AttnArgs : Type := mkAttnArgs {
  q : Tensor; k : Tensor; v : Tensor; bias : Tensor;
  q_ps : pspec; k_ps : pspec; v_ps : pspec; b_ps : pspec; a_ps : pspec;
  block_k : Z; block_q : Z; block_b : Z;
  q_seq_len : Z; kv_seq_len : Z;
  num_attention_heads : Z; head_dims : Z;
  causal : bool;
  attn_pdrop : string;
  mesh : option Mesh;
  dtype : DType;
  precision : string;
  dropout_rng : option Z;
  force_float32_tpu : bool;
  deterministic : bool
}.

(** The call under [shard_map] on the GPU path, and the local call on the
    TPU path, as [smart_flash_attention] builds them. *)
Definition sharded_call (a : AttnArgs) (mesh : Mesh) : Tensor :=
  ShardMap ring_flash_attention_gpu "mp" false
    (mkBlockwise (deterministic a) (dropout_rng a) (attn_pdrop a)
       (causal a) (block_q a) (block_k a) (dtype a)
       "nothing_saveable" (precision a) false)
    mesh [q_ps a; k_ps a; v_ps a; b_ps a] (a_ps a) false
    (Transpose (q a) [0; 2; 1; 3]%nat) (Transpose (k a) [0; 2; 1; 3]%nat)
    (Transpose (v a) [0; 2; 1; 3]%nat) (bias a).

Definition local_call (a : AttnArgs) : Tensor :=
  LocalCall jax_flash_attn_tpu_flash_attention
    (AsType (q a) float32) (AsType (k a) float32) (AsType (v a) float32)
    (bias a) false "1.0"
    (mkBlockSizes (block_b a) (block_k a) (block_q a) (block_k a)) false.

(** The shapes the assertions of [smart_flash_attention] accept. *)
Definition well_shaped (a : AttnArgs) : Prop :=
  exists batch_size,
    shape (q a) = [batch_size; num_attention_heads a; q_seq_len a; head_dims a]
    /\ shape (k a) = [batch_size; num_attention_heads a; kv_seq_len a; head_dims a]
    /\ shape (v a) = [batch_size; num_attention_heads a; kv_seq_len a; head_dims a]
    /\ shape (bias a) = [batch_size; num_attention_heads a; q_seq_len a; kv_seq_len a].

(** [smart_flash_attention]. *)
Definition smart_flash_attention (env : Env) (a : AttnArgs) : result Tensor :=
  batch_size ← shape0 (q a);
  k0 ← shape0 (k a);
  _ ← (if Z.eqb batch_size k0 then
         v0 ← shape0 (v a);
         assert (Z.eqb k0 v0) "Batch Size for q,k,v wont match"
       else assert false "Batch Size for q,k,v wont match");
  _ ← assert (shape_eqb (shape (q a))
               [batch_size; num_attention_heads a; q_seq_len a; head_dims a])
             assertion_mkv_err;
  _ ← assert (shape_eqb (shape (k a))
               [batch_size; num_attention_heads a; kv_seq_len a; head_dims a])
             assertion_mkv_err;
  _ ← assert (shape_eqb (shape (v a))
               [batch_size; num_attention_heads a; kv_seq_len a; head_dims a])
             assertion_mkv_err;
  _ ← assert (shape_eqb (shape (bias a))
               [batch_size; num_attention_heads a; q_seq_len a; kv_seq_len a])
             assertion_mkv_err;
  '(flash_attn_fn, f32_upcast, do_shard_map) ← get_flash_attention env;
  attn_output ←
    (if do_shard_map : bool then
       let tr x := Transpose x [0; 2; 1; 3]%nat in
       let '(q', k', v') := (tr (q a), tr (k a), tr (v a)) in
       match mesh a with
       | None =>
           Raise (AssertionError
                    "For Using Shard Map on GPUs you have to pass Mesh")
       | Some mesh =>
           let attn_output :=
             ShardMap flash_attn_fn "mp" f32_upcast
               (mkBlockwise (deterministic a) (dropout_rng a) (attn_pdrop a)
                  (causal a) (block_q a) (block_k a) (dtype a)
                  "nothing_saveable" (precision a) false)
               mesh [q_ps a; k_ps a; v_ps a; b_ps a] (a_ps a) false
               q' k' v' (bias a) in
           with_sharding_constraint env attn_output (a_ps a)
       end
     else
       let up x := if force_float32_tpu a || f32_upcast
                   then AsType x float32 else x in
       let '(q', k', v') := (up (q a), up (k a), up (v a)) in
       Ok (LocalCall jax_flash_attn_tpu_flash_attention q' k' v' (bias a)
             false "1.0"
             (mkBlockSizes (block_b a) (block_k a) (block_q a) (block_k a))
             false));
  Ok (AsType attn_output (dtype a)).

End Attention.

(** ** The device mesh builder *)

Module MeshBuilder.
Import Sharding.

Definition prod (l : list Z) : Z := foldr Z.mul 1 l.

(** The shape [jnp.reshape] gives an array of [size] elements for the
    requested [newshape]: a single [-1] entry is inferred from the others,
    and the element count must be preserved. *)
Definition reshape_shape (size : Z) (newshape : list Z) : result (list Z) :=
  if existsb (fun d => d <? -1) newshape then
    Raise (TypeError "shapes must have non-negative dimensions")
  else
    match filter (fun d => d = -1) newshape with
    | [] =>
        if prod newshape =? size then Ok newshape
        else Raise (TypeError "cannot reshape array")
    | [_] =>
        let known := prod (filter (fun d => d <> -1) newshape) in
        if (known =? 0) || negb (size mod known =? 0) then
          Raise (TypeError "cannot reshape array")
        else
          Ok (map (fun d => if d =? -1 then size / known else d) newshape)
    | _ => Raise (ValueError "can only specify one unknown dimension")
    end.

(** What [create_mesh] asks of the JAX runtime: the number of devices of a
    backend ([None] for the default one, [jax.devices()]), and
    [jax.experimental.mesh_utils.create_device_mesh], which lays the devices
    out on a shape and returns the device array (here: its shape). *)
Record Runtime : Type := mkRuntime {
  devices : option string -> result nat;
  create_device_mesh : list Z -> result (list Z)
}.

(** [jax.sharding.Mesh(devices, axis_names)]. *)
Definition new_Mesh (devices_shape : list Z) (axis_names : list string)
  : result Mesh :=
  if (length axis_names =? length devices_shape)%nat then
    Ok (mkMesh axis_names devices_shape)
  else
    Raise (ValueError "Mesh requires the ndim of its first argument (`devices`) to equal the length of its second argument (`axis_names`)").

(** [mesh.shape]: the dict from axis name to axis size. *)
Definition mesh_shape (m : Mesh) : gmap string Z :=
  foldl (fun d '(name, size) => <[name := size]> d) ∅
        (zip (axis_names m) (devices_shape m)).

(** [create_mesh]. *)
Definition create_mesh (rt : Runtime) (axis_dims : list Z)
    (axis_names : list string) (backend : string) : result Mesh :=
  n ← devices rt (if String.eqb backend "" then None else Some backend);
  (* array_devices = ones((n, 1)) *)
  resh ← reshape_shape (Z.of_nat n * 1) axis_dims;
  devs ← create_device_mesh rt resh;
  new_Mesh devs axis_names.

End MeshBuilder.

(** ** Configuration objects *)

Module Config.
Import Sharding.

(** Attribute values. *)
#[local] Unset Elimination Schemes.
Inductive value : Type :=
| VNone
| VBool (b : bool)
| VInt (z : Z)
| VFloat (literal : string)
| VStr (s : string)
| VTuple (items : list value)
| VSpec (p : pspec).
#[local] Set Elimination Schemes.

(** A configuration object is its attribute dictionary.  Attribute lookup
    also finds the names its class defines (class attributes, properties and
    methods), given as the set [cls]. *)
Abbreviation object := (gmap string value).

Definition hasattr (cls : gset string) (self : object) (name : string)
  : bool :=
  bool_decide (is_Some (self !! name) \/ name ∈ cls).

Definition setattr (self : object) (name : string) (v : value) : object :=
  <[name := v]> self.

(** [for key_state, value_state in basics.items():
       if not hasattr(self, key_state): setattr(self, key_state, value_state)] *)
Definition fill_missing (cls : gset string) (basics : list (string * value))
    (self : object) : object :=
  foldl (fun self '(key_state, value_state) =>
           if hasattr cls self key_state then self
           else setattr self key_state value_state)
        self basics.

Definition optional (f : Z -> value) (o : option Z) : value :=
  match o with Some z => f z | None => VNone end.

Definition optional_str (o : option string) : value :=
  match o with Some s => VStr s | None => VNone end.

(** [PartitionSpec(("dp", "fsdp"), "mp", "tp", None)] and the other
    defaults. *)
Definition default_ps : pspec :=
  PSeq [PSeq [PName "dp"; PName "fsdp"]; PName "mp"; PName "tp"; PNone].

Definition default_axis_dims : list Z := [1; -1; 1; 1].
Definition default_axis_names : list string := ["dp"; "fsdp"; "tp"; "mp"].

(** The sharding arguments, shared by the two signatures. *)
Record ShardingArgs : Type := mkShardingArgs {
  axis_dims : list Z;
  axis_names : list string;
  q_ps : pspec;
  k_ps : pspec;
  v_ps : pspec;
  b_ps : pspec;
  a_ps : pspec;
  backend : option string
}.

(** The attribute assignments of the sharding arguments, in the order both
    methods make them. *)
Definition sharding_values (s : ShardingArgs) : list (string * value) :=
  [ ("axis_names", VTuple (VStr <$> axis_names s));
    ("axis_dims", VTuple (VInt <$> axis_dims s));
    ("q_ps", VSpec (q_ps s));
    ("k_ps", VSpec (k_ps s));
    ("v_ps", VSpec (v_ps s));
    ("b_ps", VSpec (b_ps s));
    ("a_ps", VSpec (a_ps s));
    ("backend", optional_str (backend s)) ].

(** A sequence of assignments [self.name = v]. *)
Definition assign (l : list (string * value)) (self : object) : object :=
  foldl (fun self '(name, v) => setattr self name v) self l.

(** [self.axis_names = axis_names; ...; self.backend = backend]. *)
Definition assign_sharding (s : ShardingArgs) (self : object) : object :=
  let self := setattr self "axis_names" (VTuple (VStr <$> axis_names s)) in
  let self := setattr self "axis_dims" (VTuple (VInt <$> axis_dims s)) in
  let self := setattr self "q_ps" (VSpec (q_ps s)) in
  let self := setattr self "k_ps" (VSpec (k_ps s)) in
  let self := setattr self "v_ps" (VSpec (v_ps s)) in
  let self := setattr self "b_ps" (VSpec (b_ps s)) in
  let self := setattr self "a_ps" (VSpec (a_ps s)) in
  setattr self "backend" (optional_str (backend s)).

Module Falcon.

Record Args : Type := mkArgs {
  vocab_size : Z;
  hidden_size : Z;
  num_hidden_layers : Z;
  num_attention_heads : Z;
  layer_norm_epsilon : string;
  initializer_range : string;
  use_cache : bool;
  hidden_dropout : string;
  attention_dropout : string;
  num_kv_heads : option Z;
  alibi : bool;
  new_decoder_architecture : bool;
  multi_query : bool;
  parallel_attn : bool;
  bias : bool;
  max_position_embeddings : Z;
  rope_theta : string;
  rope_scaling : value;
  bos_token_id : Z;
  eos_token_id : Z;
  use_pjit_attention_force : bool;
  gradient_checkpointing : string;
  bits : option Z;
  sharding : ShardingArgs;
  kwargs : list (string * value)
}.

(** The defaults of the signature. *)
Definition defaults : Args := {|
  vocab_size := 65024;
  hidden_size := 4544;
  num_hidden_layers := 32;
  num_attention_heads := 71;
  layer_norm_epsilon := "1e-5";
  initializer_range := "0.02";
  use_cache := true;
  hidden_dropout := "0.0";
  attention_dropout := "0.0";
  num_kv_heads := None;
  alibi := false;
  new_decoder_architecture := false;
  multi_query := true;
  parallel_attn := true;
  bias := false;
  max_position_embeddings := 2048;
  rope_theta := "10000.0";
  rope_scaling := VNone;
  bos_token_id := 11;
  eos_token_id := 11;
  use_pjit_attention_force := false;
  gradient_checkpointing := "";
  bits := None;
  sharding := {|
    axis_dims := default_axis_dims;
    axis_names := default_axis_names;
    q_ps := default_ps;
    k_ps := default_ps;
    v_ps := default_ps;
    b_ps := PSeq [PName "dp"; PNone; PSeq [PName "dp"; PName "fsdp"]; PNone];
    a_ps := default_ps;
    backend := None |};
  kwargs := []
|}.

(** The dict [basics], in the order it is written. *)
Definition basics (a : Args) : list (string * value) :=
  [ ("bits", optional VInt (bits a));
    ("vocab_size", VInt (vocab_size a));
    ("hidden_size", VInt (hidden_size a));
    ("num_hidden_layers", VInt (num_hidden_layers a));
    ("num_attention_heads", VInt (num_attention_heads a));
    ("layer_norm_epsilon", VFloat (layer_norm_epsilon a));
    ("rope_theta", VFloat (rope_theta a));
    ("initializer_range", VFloat (initializer_range a));
    ("use_cache", VBool (use_cache a));
    ("bos_token_id", VInt (bos_token_id a));
    ("num_kv_heads", optional VInt (num_kv_heads a));
    ("eos_token_id", VInt (eos_token_id a));
    ("max_position_embeddings", VInt (max_position_embeddings a));
    ("hidden_dropout", VFloat (hidden_dropout a));
    ("attention_dropout", VFloat (attention_dropout a));
    ("multi_query", VBool (multi_query a));
    ("alibi", VBool (alibi a));
    ("bias", VBool (bias a));
    ("parallel_attn", VBool (parallel_attn a));
    ("rope_scaling", rope_scaling a);
    ("use_pjit_attention_force", VBool (use_pjit_attention_force a));
    ("gradient_checkpointing", VStr (gradient_checkpointing a));
    ("new_decoder_architecture", VBool (new_decoder_architecture a)) ]
  ++ kwargs a.

(** The attributes the method assigns whatever the object holds. *)
Definition assigned (a : Args) : list (string * value) :=
  sharding_values (sharding a) ++ [("from_pt", VBool false)].

(** [FalconConfig.add_jax_args]. *)
Definition add_jax_args (cls : gset string) (a : Args) (self : object)
  : object :=
  let self := assign_sharding (sharding a) self in
  let self := fill_missing cls (basics a) self in
  setattr self "from_pt" (VBool false).

End Falcon.

Module Mistral.

Record Args : Type := mkArgs {
  gradient_checkpointing : string;
  use_pjit_attention_force : bool;
  use_flash_attention : bool;
  use_sacn_mlp : bool;
  flash_attn_query_chunk_size : Z;
  flash_attn_key_chunk_size : Z;
  scan_mlp_chunk_size : Z;
  number_rep_kv : Z;
  attn_pdrop : string;
  c_max_position_embeddings : Z;
  freq_max_position_embeddings : option Z;
  bits : option Z;
  sharding : ShardingArgs
}.

Definition defaults : Args := {|
  gradient_checkpointing := "nothing_saveable";
  use_pjit_attention_force := false;
  use_flash_attention := false;
  use_sacn_mlp := false;
  flash_attn_query_chunk_size := 1024;
  flash_attn_key_chunk_size := 1024;
  scan_mlp_chunk_size := 1024;
  number_rep_kv := 1;
  attn_pdrop := "0.0";
  c_max_position_embeddings := 4096;
  freq_max_position_embeddings := None;
  bits := None;
  sharding := {|
    axis_dims := default_axis_dims;
    axis_names := default_axis_names;
    q_ps := default_ps;
    k_ps := default_ps;
    v_ps := default_ps;
    b_ps := PSeq [PSeq [PName "dp"; PName "fsdp"]; PNone; PName "tp"; PNone];
    a_ps := default_ps;
    backend := None |}
|}.

(** The attribute assignments of the method, in order. *)
Definition assignments (a : Args) : list (string * value) :=
  [ ("use_flash_attention", VBool (use_flash_attention a));
    ("number_rep_kv", VInt (number_rep_kv a));
    ("gradient_checkpointing", VStr (gradient_checkpointing a));
    ("use_pjit_attention_force", VBool (use_pjit_attention_force a));
    ("use_sacn_mlp", VBool (use_sacn_mlp a));
    ("flash_attn_query_chunk_size", VInt (flash_attn_query_chunk_size a));
    ("flash_attn_key_chunk_size", VInt (flash_attn_key_chunk_size a));
    ("scan_mlp_chunk_size", VInt (scan_mlp_chunk_size a));
    ("attn_pdrop", VFloat (attn_pdrop a));
    ("c_max_position_embeddings", VInt (c_max_position_embeddings a));
    ("freq_max_position_embeddings",
     optional VInt (freq_max_position_embeddings a));
    ("bits", optional VInt (bits a)) ]
  ++ sharding_values (sharding a).

(** [MistralConfig.add_jax_args]; its [**kwargs] are not used. *)
Definition add_jax_args (a : Args) (self : object) : object :=
  let self := setattr self "use_flash_attention" (VBool (use_flash_attention a)) in
  let self := setattr self "number_rep_kv" (VInt (number_rep_kv a)) in
  let self := setattr self "gradient_checkpointing" (VStr (gradient_checkpointing a)) in
  let self := setattr self "use_pjit_attention_force" (VBool (use_pjit_attention_force a)) in
  let self := setattr self "use_sacn_mlp" (VBool (use_sacn_mlp a)) in
  let self := setattr self "flash_attn_query_chunk_size" (VInt (flash_attn_query_chunk_size a)) in
  let self := setattr self "flash_attn_key_chunk_size" (VInt (flash_attn_key_chunk_size a)) in
  let self := setattr self "scan_mlp_chunk_size" (VInt (scan_mlp_chunk_size a)) in
  let self := setattr self "attn_pdrop" (VFloat (attn_pdrop a)) in
  let self := setattr self "c_max_position_embeddings" (VInt (c_max_position_embeddings a)) in
  let self := setattr self "freq_max_position_embeddings"
                (optional VInt (freq_max_position_embeddings a)) in
  let self := setattr self "bits" (optional VInt (bits a)) in
  assign_sharding (sharding a) self.

End Mistral.

End Config.

(** ** The entry of a pretrained model *)

Module Pretrained.

(** A two-dimensional integer array with its shape. *)
Record Array2 : Type := mkArray2 {
  arr_shape : nat * nat;
  arr_rows : list (list Z)
}.

Definition arange (n : nat) : list Z := Z.of_nat <$> seq 0 n.

(** [jnp.broadcast_to(jnp.arange(n)[None, :], (batch, n))]. *)
Definition broadcast_arange (batch n : nat) : Array2 :=
  mkArray2 (batch, n) (replicate batch (arange n)).

(** [jnp.ones((batch, n))]. *)
Definition ones (batch n : nat) : Array2 :=
  mkArray2 (batch, n) (replicate batch (replicate n 1)).

(** The specification's reading of the default position ids: an array of
    [batch] rows of [n] columns with position [j] in column [j] of every
    row. *)
Definition arange_rows (a : Array2) (batch n : nat) : Prop :=
  arr_shape a = (batch, n)
  /\ length (arr_rows a) = batch
  /\ forall b row, arr_rows a !! b = Some row ->
       length row = n
       /\ forall j, (j < n)%nat -> row !! j = Some (Z.of_nat j).

Section WithModule.

(** [Params]: a parameter tree; [Layer]: the cache variables of one
    layer; [Out]: what the module returns. *)
Context {Params Layer Out : Type}.

(** A variable collection, such as [past_key_values]: a dict, true when it
    is not empty. *)
Definition Collection : Type := list (string * Layer).

Definition truthy (c : option Collection) : bool :=
  match c with
  | Some (_ :: _) => true
  | _ => false
  end.

(** The variables a call is given in [params] or reads from [self.params]:
    a plain dict or a [FrozenDict], with the parameter trees it holds. *)
Record Variables : Type := mkVariables {
  is_frozen : bool;
  var_items : list (string * Params)
}.

(** [bool(params)]: a dict is true when it is not empty. *)
Definition nonempty (v : Variables) : bool :=
  match var_items v with
  | [] => false
  | _ :: _ => true
  end.

(** The first argument of [module.apply]: the fresh dict
    [{'params': ...}], or the dict of variables itself; either with the
    item ["cache"] once it has been assigned. *)
Inductive Inputs : Type :=
| ParamsField (params : Variables) (cache : option Collection)
| Given (variables : Variables) (cache : option Collection).

(** The arguments [self.module.apply] receives. *)
Record ApplyArgs : Type := mkApplyArgs {
  ap_inputs : Inputs;
  ap_input_ids : Array2;
  ap_attention_mask : Array2;
  ap_position_ids : Array2;
  ap_flags : list (option bool);
  ap_dropout_rng : option Z;
  ap_mutable : bool
}.

(** The model behind the wrapper: the property [self.params] (a
    [ValueError] on a model created with [_do_init=False]), [module.apply],
    the unpacking of its result into outputs and mutated variables, and the
    two ways the cache is put back into the outputs. *)
Record Module : Type := mkModule {
  self_params : result Variables;
  config_flags : list (option bool);
  apply : ApplyArgs -> result Out;
  unpack : Out -> result (Out * list (string * Collection));
  set_past_key_values : Out -> Collection -> Out;
  insert_past_key_values : Out -> Collection -> Out
}.

Definition lookup_cache (vars : list (string * Collection))
  : result Collection :=
  match List.find (fun kv => String.eqb (fst kv) "cache") vars with
  | Some (_, c) => Ok c
  | None => Raise (KeyError "cache")
  end.

(** [params or self.params]. *)
Definition params_or_self (m : Module) (params : option Variables)
  : result Variables :=
  match params with
  | Some p => if nonempty p then Ok p else self_params m
  | None => self_params m
  end.

(** [{'params': params or self.params} if add_params_field
     else params or self.params]. *)
Definition make_inputs (m : Module) (params : option Variables)
    (add_params_field : bool) : result Inputs :=
  p ← params_or_self m params;
  Ok (if add_params_field then ParamsField p None else Given p None).

(** [inputs["cache"] = past_key_values]; item assignment on a
    [FrozenDict] is a [ValueError]. *)
Definition set_cache (inputs : Inputs) (past_key_values : Collection)
  : result Inputs :=
  match inputs with
  | ParamsField p _ => Ok (ParamsField p (Some past_key_values))
  | Given v _ =>
      if is_frozen v then Raise (ValueError "FrozenDict is immutable.")
      else Ok (Given v (Some past_key_values))
  end.

(** [if past_key_values: inputs["cache"] = past_key_values;
     mutable = ["cache"] else: mutable = False]. *)
Definition with_cache (inputs : Inputs) (past_key_values : option Collection)
  : result (Inputs * bool) :=
  if truthy past_key_values then
    inputs ← set_cache inputs (default [] past_key_values);
    Ok (inputs, true)
  else Ok (inputs, false).

(** The common end of both [__call__]s. *)
Definition return_outputs (m : Module) (past_key_values : option Collection)
    (return_dict : bool) (outputs : Out) : result Out :=
  match past_key_values with
  | Some _ =>
      '(outputs, past_key_values) ← unpack m outputs;
      cache ← lookup_cache past_key_values;
      if return_dict then Ok (set_past_key_values m outputs cache)
      else Ok (insert_past_key_values m outputs cache)
  | None => Ok outputs
  end.

Definition position_ids_error : PyError :=
  ValueError "Make sure to provide `position_ids` when passing `past_key_values`.".

(** [FlaxFalconPretrainedModel.__call__]: the inputs are built, and the
    cache assigned into them, before [position_ids] is looked at. *)
Definition falcon__call__ (m : Module) (input_ids : Array2)
    (attention_mask position_ids : option Array2)
    (past_key_values : option Collection)
    (output_attentions deterministic : bool) (use_cache : option bool)
    (return_dict : bool) (params : option Variables) (add_params_field : bool)
  : result Out :=
  inputs ← make_inputs m params add_params_field;
  '(inputs, mutable) ← with_cache inputs past_key_values;
  let '(batch, sequence_length) := arr_shape input_ids in
  position_ids ←
    match position_ids with
    | None =>
        match past_key_values with
        | Some _ => Raise position_ids_error
        | None => Ok (broadcast_arange batch sequence_length)
        end
    | Some p => Ok p
    end;
  let attention_mask := default (ones batch sequence_length) attention_mask in
  outputs ← apply m (mkApplyArgs inputs input_ids
                       attention_mask position_ids
                       [Some output_attentions; Some deterministic; use_cache;
                        Some return_dict]
                       None mutable);
  return_outputs m past_key_values return_dict outputs.

(** [FlaxMistralPretrainedModel.__call__]; the flags left at [None] are
    read from the configuration, and [position_ids] is looked at before the
    inputs are built. *)
Definition mistral__call__ (m : Module) (input_ids : Array2)
    (attention_mask position_ids : option Array2) (params : option Variables)
    (past_key_values : option Collection) (dropout_rng : option Z)
    (train : bool)
    (output_attentions output_hidden_states return_dict : option bool)
    (add_params_field : bool) : result Out :=
  let flag i o := match o with
                  | Some b => Some b
                  | None => mjoin (config_flags m !! i)
                  end in
  let output_attentions := flag 0%nat output_attentions in
  let output_hidden_states := flag 1%nat output_hidden_states in
  let return_dict := flag 2%nat return_dict in
  let '(batch_size, sequence_length) := arr_shape input_ids in
  position_ids ←
    match position_ids with
    | None =>
        match past_key_values with
        | Some _ => Raise position_ids_error
        | None => Ok (broadcast_arange batch_size sequence_length)
        end
    | Some p => Ok p
    end;
  let attention_mask :=
    default (ones batch_size sequence_length) attention_mask in
  inputs ← make_inputs m params add_params_field;
  '(inputs, mutable) ← with_cache inputs past_key_values;
  outputs ← apply m (mkApplyArgs inputs input_ids
                       attention_mask position_ids
                       [Some (negb train); None; Some false; output_attentions;
                        output_hidden_states; return_dict]
                       dropout_rng mutable);
  return_outputs m past_key_values (default false return_dict) outputs.

End WithModule.
End Pretrained.

(** ** The checkpoint transform *)

Module Transform.
Import Sharding.

(** Python string operations. *)

(** [sub in s]. *)
Fixpoint contains (sub s : string) : bool :=
  String.prefix sub s
  || match s with
     | EmptyString => false
     | String _ s' => contains sub s'
     end.

(** [s[:-n]] for [n > 0]. *)
Definition drop_last (n : nat) (s : string) : string :=
  String.substring 0 (String.length s - n) s.

(** [s.endswith(suffix)]. *)
Definition endswith (s suffix : string) : bool :=
  (String.length suffix <=? String.length s)%nat
  && String.eqb
       (String.substring (String.length s - String.length suffix)
          (String.length suffix) s)
       suffix.

(** [s.split('.')]. *)
Fixpoint split_dots (s : string) : list string :=
  match s with
  | EmptyString => [EmptyString]
  | String c s' =>
      if Ascii.eqb c "."%char then EmptyString :: split_dots s'
      else match split_dots s' with
           | seg :: segs => String c seg :: segs
           | [] => [String c EmptyString]
           end
  end.

(** [match_keywords]. *)
Definition match_keywords (string_ : string) (ts ns : list string) : bool :=
  forallb (fun t => contains t string_) ts
  && forallb (fun n => negb (contains n string_)) ns.

(** Python dicts keep their items in insertion order: [d[k] = v] replaces
    the value of a key that is present, in place, and appends a new key. *)
Section Dicts.
Context {K V : Type} `{EqDecision K}.

Fixpoint dict_get (d : list (K * V)) (k : K) : option V :=
  match d with
  | [] => None
  | (k', v) :: d => if decide (k' = k) then Some v else dict_get d k
  end.

Fixpoint dict_set (d : list (K * V)) (k : K) (v : V) : list (K * V) :=
  match d with
  | [] => [(k, v)]
  | (k', v') :: d =>
      if decide (k' = k) then (k', v) :: d else (k', v') :: dict_set d k v
  end.

End Dicts.

(** A nested dictionary with arrays at its leaves, as
    [flax.traverse_util.unflatten_dict] builds it. *)
#[local] Unset Elimination Schemes.
Inductive tree (N : Type) : Type :=
| Leaf (array : N)
| Dict (items : list (string * tree N)).
#[local] Set Elimination Schemes.
Arguments Leaf {N} array.
Arguments Dict {N} items.

(** One round of the loop of [unflatten_dict]: walk down [path[:-1]] from
    [cursor], creating the dicts that are missing, and assign [value] under
    [path[-1]].  Walking into an array, or assigning into one, indexes a
    numpy array with a string, an [IndexError]. *)
Fixpoint set_path {N} (cursor : list (string * tree N)) (path : list string)
    (value : N) : result (list (string * tree N)) :=
  match path with
  | [] => Raise (IndexError "tuple index out of range")
  | key :: rest =>
      match rest with
      | [] => Ok (dict_set cursor key (Leaf value))
      | _ :: _ =>
          match dict_get cursor key with
          | None =>
              sub ← set_path [] rest value;
              Ok (dict_set cursor key (Dict sub))
          | Some (Dict sub) =>
              sub ← set_path sub rest value;
              Ok (dict_set cursor key (Dict sub))
          | Some (Leaf _) =>
              Raise (IndexError "only integers, slices, ellipsis, numpy.newaxis and integer or boolean arrays are valid indices")
          end
      end
  end.

(** [flax.traverse_util.unflatten_dict(xs)]. *)
Definition unflatten_dict {N} (xs : list (list string * N))
  : result (list (string * tree N)) :=
  foldl (fun result '(path, value) =>
           result ← result; set_path result path value)
        (Ok []) xs.

(** [d[k0][k1]...] for the keys of a path. *)
Fixpoint lookup_path {N} (d : list (string * tree N)) (path : list string)
  : option (tree N) :=
  match path with
  | [] => None
  | key :: rest =>
      match rest with
      | [] => dict_get d key
      | _ :: _ =>
          match dict_get d key with
          | Some (Dict sub) => lookup_path sub rest
          | _ => None
          end
      end
  end.

(** No path of the list is a proper prefix of another one. *)
Definition prefix_free (paths : list (list string)) : Prop :=
  Forall (fun p => Forall (fun q => p `prefix_of` q -> p = q) paths) paths.

(** What the transform needs of the source framework's tensors: the number
    of dimensions ([len(tensor.shape)]), [tensor.transpose(0, 1)], and the
    conversion [tensor.detach().cpu().numpy().astype(dtype)] to an array of
    the target framework. *)
Class TensorOps (T N : Type) : Type := {
  ndim : T -> nat;
  transpose01 : T -> T;
  to_numpy : DType -> T -> N
}.

Section WithTensors.
Context {T N : Type} `{TensorOps T N}.

Definition _l : nat := String.length ".weight".

(** The body of the loop up to the dict update: the key and the tensor that
    are stored for one item of [state_dict]. *)
Definition convert_item (embedding_layer_name : string) (dtype : DType)
    (item : string * T) : list string * N :=
  let '(key, tensor) := item in
  let '(key, tensor) :=
    if contains embedding_layer_name key then
      (drop_last _l key +:+ ".embedding", tensor)
    else if match_keywords key ["kernel"] ["none"] then
      let tensor := if (ndim tensor =? 2)%nat then transpose01 tensor
                    else tensor in
      let key := if endswith key ".weight" then drop_last _l key +:+ ".kernel"
                 else key in
      (key, tensor)
    else (key, tensor) in
  let key_tuple := split_dots key in
  (key_tuple, to_numpy dtype tensor).

(** The rule [match_keywords(key, ['kernel'], ['none'])]. *)
Definition kernel_rule (key : string) : bool :=
  match_keywords key ["kernel"] ["none"].

Definition transpose_if_2d (t : T) : T :=
  if (ndim t =? 2)%nat then transpose01 t else t.

(** The conversion rules, as a relation between a source item and the key
    and tensor stored for it: an embedding path [p.weight] becomes
    [p.embedding]; a path under the kernel rule has its tensor transposed
    when it is two-dimensional, and becomes [p.kernel] when it is
    [p.weight]; any other path is kept. *)
Inductive converts (embedding_layer_name : string)
  : string * T -> string * T -> Prop :=
| conv_embedding p t :
    contains embedding_layer_name (p +:+ ".weight") = true ->
    converts embedding_layer_name (p +:+ ".weight", t) (p +:+ ".embedding", t)
| conv_kernel_weight p t :
    contains embedding_layer_name (p +:+ ".weight") = false ->
    kernel_rule (p +:+ ".weight") = true ->
    converts embedding_layer_name
      (p +:+ ".weight", t) (p +:+ ".kernel", transpose_if_2d t)
| conv_kernel_other key t :
    contains embedding_layer_name key = false ->
    kernel_rule key = true ->
    endswith key ".weight" = false ->
    converts embedding_layer_name (key, t) (key, transpose_if_2d t)
| conv_other key t :
    contains embedding_layer_name key = false ->
    kernel_rule key = false ->
    converts embedding_layer_name (key, t) (key, t).

(** The dictionary [flax_dict] the loop fills, keyed by path tuples.
    [state_dict] lists the items of the source dict in iteration order. *)
Definition flax_dict (state_dict : list (string * T))
    (embedding_layer_name : string) (dtype : DType)
  : list (list string * N) :=
  foldl (fun flax_dict item =>
           let '(key_names, tensor) :=
             convert_item embedding_layer_name dtype item in
           dict_set flax_dict key_names tensor)
        [] state_dict.

(** [huggingface_to_easydel]: the nested dictionary
    [flax.traverse_util.unflatten_dict(flax_dict)]. *)
Definition huggingface_to_easydel (state_dict : list (string * T))
    (embedding_layer_name : string) (dtype : DType)
  : result (list (string * tree N)) :=
  unflatten_dict (flax_dict state_dict embedding_layer_name dtype).

End WithTensors.

(** A concrete instance for examples: vectors and matrices of integers,
    converted to arrays tagged with their element type. *)
Inductive tensor : Type :=
| Vec (v : list Z)
| Mat (rows : list (list Z)).

Fixpoint transpose_rows (rows : list (list Z)) : list (list Z) :=
  match rows with
  | [] => []
  | [r] => (fun x => [x]) <$> r
  | r :: rest => zip_with cons r (transpose_rows rest)
  end.

#[global] Instance tensor_ops : TensorOps tensor (DType * tensor) := {|
  ndim t := match t with Vec _ => 1%nat | Mat _ => 2%nat end;
  transpose01 t := match t with Vec v => Vec v | Mat r => Mat (transpose_rows r) end;
  to_numpy dtype t := (dtype, t)
|}.

End Transform.

(** ** Inputs of a generation session *)

Module Generation.
Import Pretrained.

Section WithCache.
Context {PKV : Type}.

(** The keyword arguments of a generation step. *)
Record Kwargs : Type := mkKwargs {
  past_key_values : PKV;
  attention_mask : Array2;
  position_ids : Array2
}.

(** [a[:, -1:] + 1]. *)
Definition last_column_plus_one (a : Array2) : Array2 :=
  mkArray2 ((arr_shape a).1, Nat.min 1 (arr_shape a).2)
    ((fun row => (fun x => int32 (x + 1))
                   <$> drop (length row - 1) row) <$> arr_rows a).

(** [update_inputs_for_generation]; [model_outputs_past_key_values] is
    [model_outputs.past_key_values]. *)
Definition update_inputs_for_generation (model_outputs_past_key_values : PKV)
    (model_kwargs : Kwargs) : Kwargs :=
  mkKwargs model_outputs_past_key_values
           (attention_mask model_kwargs)
           (last_column_plus_one (position_ids model_kwargs)).

End WithCache.
End Generation.

(** ** Key/value heads and rotary helpers *)

Module Heads.
Section WithHead.

(** [H] is the [[sequence, head_dim]] block of one head, so that a tensor of
    shape [[batch, heads, sequence, head_dim]] is a list of lists of
    blocks. *)
Context {H : Type}.

(** [repeat_kv_bnsh]: [x[:, :, newaxis]] repeated [n_rep] times along the
    new axis and reshaped to [[bs, n_kv_heads * n_rep, s, head_dim]].
    [jnp.repeat] rejects a negative count. *)
Definition repeat_kv_bnsh (x : list (list H)) (n_rep : Z)
  : result (list (list H)) :=
  if n_rep =? 1 then Ok x
  else if n_rep <? 0 then
    Raise (ValueError "repeats may not contain negative values")
  else
    Ok ((fun heads => heads ≫= replicate (Z.to_nat n_rep)) <$> x).

End WithHead.
End Heads.

Module Rotary.
Section WithScalar.

(** A vector along the last axis, with the negation of its elements. *)
Context {A : Type} (neg : A -> A).

(** [rotate_half] of [flax_modelling_utils.py]. *)
Definition rotate_half (x : list A) : list A :=
  let x1 := take (length x / 2) x in
  let x2 := drop (length x / 2) x in
  (neg <$> x2) ++ x1.

(** [_rotate_half] of [modelling_falcon_flax.py]. *)
Definition _rotate_half (x : list A) : list A :=
  (neg <$> drop (length x / 2) x) ++ take (length x / 2) x.

End WithScalar.
End Rotary.

(** ** Process ranks *)

Module Ranks.
Import Sharding MeshBuilder.

(** The entries of the dict [get_ranks_and_size] returns, beside the mesh
    itself. *)
Record Ranks : Type := mkRanks {
  mp_node_size : Z;
  dp_node_size : Z;
  dp_node_rank : Z;
  mp_node_rank : Z
}.

(** [mesh.shape[name]]. *)
Definition shape_of (mesh : Mesh) (name : string) : result Z :=
  match mesh_shape mesh !! name with
  | Some size => Ok size
  | None => Raise (KeyError name)
  end.

(** [get_ranks_and_size]; [jax.local_device_count()] and
    [jax.process_count()] are positive, [jax.process_index()] is a natural
    number. *)
Definition get_ranks_and_size (mesh : Mesh) (local_device_count : positive)
    (process_count : positive) (process_index : N) : result (Mesh * Ranks) :=
  tp ← shape_of mesh "tp";
  mp ← shape_of mesh "mp";
  let mp_size := tp * mp in
  let mp_node_size := Z.max 1 (mp_size / Z.pos local_device_count) in
  let dp_node_size := Z.pos process_count / mp_node_size in
  let dp_node_rank := Z.of_N process_index / mp_node_size in
  let mp_node_rank := Z.of_N process_index mod mp_node_size in
  Ok (mesh, mkRanks mp_node_size dp_node_size dp_node_rank mp_node_rank).

End Ranks.

(** ** The base class of the configurations *)

Module BaseClass.
Import Sharding MeshBuilder Config.

(** Reading an attribute that may be missing. *)
Inductive Attr (T : Type) : Type :=
| Found (v : T)
| AttributeError (name : string).
Arguments Found {T} v.
Arguments AttributeError {T} name.

Definition getattr (self : object) (name : string) : Attr value :=
  match self !! name with
  | Some v => Found v
  | None => AttributeError name
  end.

(** [JaxBaseClassModel.__init__]. *)
Definition __init__ (s : ShardingArgs) (self : object) : object :=
  let self := setattr self "q_ps" (VSpec (q_ps s)) in
  let self := setattr self "k_ps" (VSpec (k_ps s)) in
  let self := setattr self "v_ps" (VSpec (v_ps s)) in
  let self := setattr self "b_ps" (VSpec (b_ps s)) in
  let self := setattr self "a_ps" (VSpec (a_ps s)) in
  let self := setattr self "axis_dims" (VTuple (VInt <$> axis_dims s)) in
  let self := setattr self "axis_names" (VTuple (VStr <$> axis_names s)) in
  setattr self "backend"
    (match backend s with Some b => VStr b | None => VStr "" end).

(** [JaxBaseClassModel.add_pss]. *)
Definition add_pss (s : ShardingArgs) (self : object) : object :=
  let self := setattr self "axis_dims" (VTuple (VInt <$> axis_dims s)) in
  let self := setattr self "axis_names" (VTuple (VStr <$> axis_names s)) in
  let self := setattr self "q_ps" (VSpec (q_ps s)) in
  let self := setattr self "k_ps" (VSpec (k_ps s)) in
  let self := setattr self "v_ps" (VSpec (v_ps s)) in
  let self := setattr self "b_ps" (VSpec (b_ps s)) in
  let self := setattr self "a_ps" (VSpec (a_ps s)) in
  setattr self "backend" (optional_str (backend s)).

(** The integers and the strings of a tuple attribute; values of another
    kind are rejected further down, by [jnp.reshape] and [Mesh]. *)
Definition as_ints (v : value) : result (list Z) :=
  match v with
  | VTuple items =>
      match mapM (fun i => match i with VInt z => Some z | _ => None end) items with
      | Some l => Ok l
      | None => Raise (TypeError "axis_dims must be integers")
      end
  | _ => Raise (TypeError "axis_dims must be a sequence")
  end.

Definition as_strs (v : value) : result (list string) :=
  match v with
  | VTuple items =>
      match mapM (fun i => match i with VStr s => Some s | _ => None end) items with
      | Some l => Ok l
      | None => Raise (TypeError "axis_names must be strings")
      end
  | _ => Raise (TypeError "axis_names must be a sequence")
  end.

(** [JaxBaseClassModel.jax_mesh]; the attribute lookup of [backend] is
    guarded by [hasattr] ([backend] is not a name of the class, so an object
    has it when its dictionary does), the other two are not. *)
Definition jax_mesh (rt : Runtime) (self : object) : Attr (result Mesh) :=
  match getattr self "axis_dims" with
  | AttributeError n => AttributeError n
  | Found dims =>
      match getattr self "axis_names" with
      | AttributeError n => AttributeError n
      | Found names =>
          let backend :=
            match self !! "backend" with
            | Some VNone => Ok ""
            | Some (VStr b) => Ok b
            | Some _ => Raise (TypeError "backend must be a string")
            | None => Ok ""
            end in
          Found (axis_dims ← as_ints dims;
                 axis_names ← as_strs names;
                 backend ← backend;
                 create_mesh rt axis_dims axis_names backend)
      end
  end.

(** [JaxBaseClassModel.get_backend]:
    [self.backend if not self.backend == "" else platform]. *)
Definition get_backend (env : Env) (self : object) : Attr value :=
  match getattr self "backend" with
  | AttributeError n => AttributeError n
  | Found b =>
      match b with
      | VStr EmptyString => Found (VStr (platform env))
      | _ => Found b
      end
  end.

End BaseClass.

(** ** Checkpoint files *)

Module Checkpoint.
Import Sharding.

(** A [dtype] argument: [None], a name, or a dtype object. *)
Inductive DTypeArg : Type :=
| DNone
| DName (name : string)
| DObj (d : DType).

(** [get_float_dtype_by_name]. *)
Definition get_float_dtype_by_name (dtype : string) : result DType :=
  if String.eqb dtype "bf16" then Ok bfloat16
  else if String.eqb dtype "bfloat16" then Ok bfloat16
  else if String.eqb dtype "fp16" then Ok float16
  else if String.eqb dtype "float16" then Ok float16
  else if String.eqb dtype "fp32" then Ok float32
  else if String.eqb dtype "float32" then Ok float32
  else if String.eqb dtype "fp64" then Ok float64
  else if String.eqb dtype "float64" then Ok float64
  else Raise (KeyError dtype).

(** What the checkpoint functions need of a tensor: its element type, if it
    has one ([getattr(tensor, 'dtype', None)]), and [tensor.astype]. *)
Class Castable (T : Type) : Type := {
  dtype_of : T -> option DType;
  astype : T -> DType -> T
}.

Definition is_float (d : option DType) : bool :=
  match d with
  | Some bfloat16 | Some float16 | Some float32 | Some float64 => true
  | _ => false
  end.

Section WithTensors.
Context {T B : Type} `{Castable T}.

(** [float_tensor_to_dtype]. *)
Definition float_tensor_to_dtype (tensor : T) (dtype : DTypeArg) : result T :=
  match dtype with
  | DNone => Ok tensor
  | DName EmptyString => Ok tensor
  | DName name =>
      dtype ← get_float_dtype_by_name name;
      Ok (if is_float (dtype_of tensor) then astype tensor dtype else tensor)
  | DObj dtype =>
      Ok (if is_float (dtype_of tensor) then astype tensor dtype else tensor)
  end.

(** The serialisation of one tensor, [flax.serialization.to_bytes] and
    [from_bytes]. *)
Variable to_bytes : T -> B.
Variable from_bytes : B -> T.

(** A checkpoint file: the sequence of packed records [(key, bytes)]. *)
Definition File : Type := list (list string * B).

(** [dict[key]]. *)
Definition getitem {V} (d : gmap (list string) V) (key : list string)
  : result V :=
  match d !! key with
  | Some v => Ok v
  | None => Raise (KeyError (String.concat "/" key))
  end.

(** [save_ckpt]: [flatten_train_state] lists the items of the flattened
    state dict, [gather_fns] is the flattened dict of gather functions; the
    result is what is written to the file. *)
Fixpoint save_ckpt (flatten_train_state : list (list string * T))
    (gather_fns : option (gmap (list string) (T -> T)))
    (float_dtype : DTypeArg) : result File :=
  match flatten_train_state with
  | [] => Ok []
  | (key, value) :: rest =>
      value ← match gather_fns with
              | Some gather_fns => f ← getitem gather_fns key; Ok (f value)
              | None => Ok value
              end;
      value ← float_tensor_to_dtype value float_dtype;
      records ← save_ckpt rest gather_fns float_dtype;
      Ok ((key, to_bytes value) :: records)
  end.

(** [read_ckpt], on the records of the file. *)
Definition read_ckpt (stream : File)
    (shard_fns : option (gmap (list string) (T -> T)))
    (add_extra_past_fix : option (list string))
  : result (gmap (list string) T) :=
  foldl (fun tensors '(key, value) =>
           tensors ← tensors;
           let key := match add_extra_past_fix with
                      | Some prefix => prefix ++ key
                      | None => key
                      end in
           let tensor := from_bytes value in
           tensor ← match shard_fns with
                    | Some shard_fns => f ← getitem shard_fns key; Ok (f tensor)
                    | None => Ok tensor
                    end;
           Ok (<[key := tensor]> tensors))
        (Ok ∅) stream.

End WithTensors.

(** A concrete instance for examples: arrays tagged with their element
    type. *)
#[global] Instance tagged_castable : Castable (DType * list Z) := {|
  dtype_of t := Some t.1;
  astype t d := (d, t.2)
|}.

End Checkpoint.

(** ** The sliding-window mask *)

Module SlidingWindow.
Import Sharding.

(** [jnp.tril(m, k)] and [jnp.triu(m, k)] on a matrix of integers. *)
Definition imap2 (f : Z -> Z -> Z -> Z) (m : list (list Z)) : list (list Z) :=
  imap (fun i row => imap (fun j x => f (Z.of_nat i) (Z.of_nat j) x) row) m.

Definition tril (m : list (list Z)) (k : Z) : list (list Z) :=
  imap2 (fun i j x => if j <=? i + k then x else 0) m.

Definition triu (m : list (list Z)) (k : Z) : list (list Z) :=
  imap2 (fun i j x => if i + k <=? j then x else 0) m.

(** The two values [jnp.log] takes on a matrix of ones and zeros. *)
Inductive LogValue : Type :=
| Zero      (* log 1 *)
| MinusInf  (* log 0 *)
| NotANumber.

Definition log (x : Z) : LogValue :=
  if x =? 1 then Zero else if x =? 0 then MinusInf else NotANumber.

(** [_make_sliding_window_causal_mask]: the result has shape
    [[bsz, 1, tgt_len, tgt_len]] and element type [dtype].  With a past
    length above zero the call [jnp.zeros(tgt_len, past_key_values_length,
    dtype=dtype)] gives [dtype] twice. *)
Definition _make_sliding_window_causal_mask (input_ids_shape : nat * nat)
    (dtype : DType) (past_key_values_length : Z) (sliding_window : Z)
  : result (DType * list (list (list (list LogValue)))) :=
  let '(bsz, tgt_len) := input_ids_shape in
  let tensor := replicate tgt_len (replicate tgt_len 1) in
  let mask := tril tensor 0 in
  let mask := triu mask (- sliding_window) in
  let mask := (fun row : list Z => log <$> row) <$> mask in
  if 0 <? past_key_values_length then
    Raise (TypeError "zeros() got multiple values for argument 'dtype'")
  else
    Ok (dtype, replicate bsz [mask]).

End SlidingWindow.

(** ** Dotted paths *)

Module Paths.

(** ['.'.join(segments)], the inverse of [split('.')]. *)
Fixpoint join_dots (segments : list string) : string :=
  match segments with
  | [] => EmptyString
  | [seg] => seg
  | seg :: segs => seg +:+ String "."%char (join_dots segs)
  end.

End Paths.

(** ** The alibi bias *)

Module Alibi.
Import Pretrained.

(** Floating-point numbers are those of the Standard Library's [SpecFloat],
    in the formats the code uses: Python floats, [float32] and
    [bfloat16]. *)
Record format : Type := mkFormat { prec : Z; emax : Z }.

Definition binary64 : format := mkFormat 53 1024.
Definition binary32 : format := mkFormat 24 128.
Definition bf16 : format := mkFormat 8 128.

Definition float : Type := SpecFloat.spec_float.

(** An integer and a power of two as numbers of a format, rounded to
    nearest even. *)
Definition of_Z (f : format) (z : Z) : float :=
  SpecFloat.binary_normalize (prec f) (emax f) z 0 false.

Definition pow2 (f : format) (e : Z) : float :=
  SpecFloat.binary_normalize (prec f) (emax f) 1 e false.

(** [x.astype(f)]. *)
Definition cast (f : format) (x : float) : float :=
  match x with
  | SpecFloat.S754_finite s m e =>
      SpecFloat.binary_normalize (prec f) (emax f)
        (SpecFloat.cond_Zopp s (Z.pos m)) e s
  | _ => x
  end.

Definition mul (f : format) (x y : float) : float :=
  SpecFloat.SFmul (prec f) (emax f) x y.

Definition neg (x : float) : float := SpecFloat.SFopp x.

Definition ltb (x y : float) : bool := SpecFloat.SFltb x y.

(** The functions of the numerical libraries that are not given by the
    format alone: [2 ** x] on Python floats, [jnp.power] on [float32], and
    [jnp.arange(start, stop, step, dtype=jnp.dtype)], whose [dtype] is not
    an element type. *)
Record Library : Type := mkLibrary {
  py_pow2 : float -> float;
  jnp_power : float -> float -> float;
  jnp_arange_dtype : Z -> Z -> Z -> result (list float)
}.

(** The value of a float that is an integer. *)
Definition to_Z (x : float) : option Z :=
  match x with
  | SpecFloat.S754_zero _ => Some 0
  | SpecFloat.S754_finite s m e =>
      if 0 <=? e then Some (SpecFloat.cond_Zopp s (Z.pos m * 2 ^ e))
      else if Z.pos m mod 2 ^ (- e) =? 0
           then Some (SpecFloat.cond_Zopp s (Z.pos m / 2 ^ (- e)))
           else None
  | _ => None
  end.

(** The exponent of a float that is a power of two. *)
Definition log2_exact (x : float) : option Z :=
  match x with
  | SpecFloat.S754_finite false m e =>
      if Z.pos m =? 2 ^ Z.log2 (Z.pos m) then Some (Z.log2 (Z.pos m) + e)
      else None
  | _ => None
  end.

(** The two power functions where their result is a power of two of the
    normal range, and so is computed exactly. *)
Definition exact_pow2 (x : float) : option float :=
  e ← to_Z x;
  if (-1000 <=? e) && (e <=? 1000) then Some (pow2 binary64 e) else None.

Definition exact_power (b p : float) : option float :=
  e ← log2_exact b;
  n ← to_Z p;
  if (-120 <=? e * n) && (e * n <=? 120) then Some (pow2 binary32 (e * n))
  else None.

(** A library is exact where the result is representable. *)
Definition exact_where_representable (lib : Library) : Prop :=
  (forall x y, exact_pow2 x = Some y -> py_pow2 lib x = y)
  /\ (forall b p y, exact_power b p = Some y -> jnp_power lib b p = y).

(** The library restricted to these arguments; elsewhere its values are
    left open (not a number). *)
Definition exact_library : Library :=
  mkLibrary
    (fun x => default SpecFloat.S754_nan (exact_pow2 x))
    (fun b p => default SpecFloat.S754_nan (exact_power b p))
    (fun _ _ _ =>
       Raise (TypeError "Cannot interpret '<class 'numpy.dtype'>' as a data type")).

(** [jnp.cumsum] of an [int32] row, along the last axis. *)
Fixpoint cumsum_from (acc : Z) (row : list Z) : list Z :=
  match row with
  | [] => []
  | x :: row => let acc := int32 (acc + x) in acc :: cumsum_from acc row
  end.

Definition cumsum (row : list Z) : list Z := cumsum_from 0 row.

(** [2 ** (-(2 ** -(math.log2(n) - 3)))] as a [float32], for [n = 2 ** k]. *)
Definition base (lib : Library) (k : Z) : float :=
  cast binary32
    (py_pow2 lib (neg (py_pow2 lib (neg (of_Z binary64 (k - 3)))))).

(** The slopes [slops] of [built_bloom_alibi]; [math.log2] fails on a
    head count that is not positive. *)
Definition slopes (lib : Library) (num_attention_heads : Z)
  : result (list float) :=
  if num_attention_heads <=? 0 then Raise (ValueError "math domain error")
  else
    let k := Z.log2 num_attention_heads in
    let cp2 := 2 ^ k in
    let powers := of_Z binary32 <$> seqZ 1 cp2 in
    let slops := jnp_power lib (base lib k) <$> powers in
    if cp2 =? num_attention_heads then Ok slops
    else
      let extra_base := base lib (k + 1) in
      let num_rem_heads := Z.min cp2 (num_attention_heads - cp2) in
      extra_power ← jnp_arange_dtype lib 1 (1 + 2 * num_rem_heads) 2;
      Ok (slops ++ (jnp_power lib extra_base <$> extra_power)).

(** [built_bloom_alibi], on an [int32] mask as the pretrained model passes
    it: the product of the [bfloat16] slopes and the [int32] positions is a
    [bfloat16] product.  The result has shape
    [[batch_size, num_attention_heads, 1, sequence_length]]. *)
Definition built_bloom_alibi (lib : Library) (attention_mask : Array2)
    (num_attention_heads : Z) : result (list (list (list (list float)))) :=
  slops ← slopes lib num_attention_heads;
  let arange_tensor :=
    (fun row => zip_with (fun c m => int32 (int32 (c - 1) * m))
                         (cumsum row) row)
      <$> arr_rows attention_mask in
  let alibi :=
    (fun positions =>
       (fun slope =>
          (fun position => mul bf16 (cast bf16 slope) (of_Z bf16 position))
            <$> positions)
         <$> slops)
      <$> arange_tensor in
  if bool_decide (Z.of_nat (length slops) = num_attention_heads) then
    Ok ((fun heads => (fun row => [row]) <$> heads) <$> alibi)
  else Raise (TypeError "cannot reshape array").

(** [alibi[b, h, 0, j]]. *)
Definition entry (alibi : list (list (list (list float)))) (b h j : nat)
  : option float :=
  heads ← alibi !! b; rows ← heads !! h; row ← rows !! 0%nat; row !! j.

(** The number of valid tokens of a mask row up to and including position
    [j]. *)
Definition valid_upto (row : list Z) (j : nat) : Z :=
  Z.of_nat (length (filter (fun m => m = 1) (take (S j) row))).

(** The bias of head [h] of [2 ^ k] heads at the [c]-th valid token, and the
    check that it grows strictly over the first 257 tokens. *)
Definition bias (k h c : Z) : float :=
  mul bf16 (cast bf16 (pow2 binary32 (- 2 ^ (3 - k) * (h + 1))))
      (of_Z bf16 c).

Fixpoint all_pairs {X} (r : X -> X -> bool) (l : list X) : bool :=
  match l with
  | [] => true
  | x :: l => forallb (r x) l && all_pairs r l
  end.

Definition strictly_increasing_table (k : Z) : bool :=
  forallb (fun h => all_pairs ltb (bias k h <$> seqZ 0 257)) (seqZ 0 (2 ^ k)).

End Alibi.

(** ** Example inputs *)

Definition example_env : Sharding.Env :=
  Sharding.mkEnv ["dp"; "fsdp"; "tp"; "mp"] "gpu".

Definition example_spec : Sharding.pspec :=
  Sharding.PSeq [Sharding.PSeq [Sharding.PName "dp"; Sharding.PName "fsdp"];
                 Sharding.PNone; Sharding.PName "mp"].

Definition example_tensor : Sharding.Tensor :=
  Sharding.Arr "x" [2; 8; 64] Sharding.float32.

Definition example_attn (mesh : option Sharding.Mesh) : Attention.AttnArgs :=
  let ps := Config.default_ps in
  {| Attention.q := Sharding.Arr "q" [2; 4; 16; 8] Sharding.float16;
     Attention.k := Sharding.Arr "k" [2; 4; 32; 8] Sharding.float16;
     Attention.v := Sharding.Arr "v" [2; 4; 32; 8] Sharding.float16;
     Attention.bias := Sharding.Arr "bias" [2; 4; 16; 32] Sharding.float16;
     Attention.q_ps := ps; Attention.k_ps := ps; Attention.v_ps := ps;
     Attention.b_ps := ps; Attention.a_ps := ps;
     Attention.block_k := 16; Attention.block_q := 16; Attention.block_b := 1;
     Attention.q_seq_len := 16; Attention.kv_seq_len := 32;
     Attention.num_attention_heads := 4; Attention.head_dims := 8;
     Attention.causal := true; Attention.attn_pdrop := "0.0";
     Attention.mesh := mesh;
     Attention.dtype := Sharding.float16;
     Attention.precision := "fastest";
     Attention.dropout_rng := None;
     Attention.force_float32_tpu := false;
     Attention.deterministic := true |}.

Definition example_mesh : Sharding.Mesh :=
  Sharding.mkMesh ["dp"; "fsdp"; "tp"; "mp"] [1; 4; 1; 2].

(** The mesh of a single device. *)
Definition single_device_mesh : Sharding.Mesh :=
  Sharding.mkMesh ["dp"; "fsdp"; "tp"; "mp"] [1; 1; 1; 1].

Definition example_gpu_attn : Attention.AttnArgs :=
  example_attn (Some single_device_mesh).

(** A runtime with a pool of eight devices. *)
Definition eight_devices : MeshBuilder.Runtime :=
  MeshBuilder.mkRuntime
    (fun _ => Ok 8%nat)
    (fun sh => if MeshBuilder.prod sh =? 8 then Ok sh
               else Raise (ValueError "Number of devices must equal the product of mesh_shape")).

(** A configuration whose mesh layout was already chosen. *)
Definition sharded_config : gmap string Config.value :=
  {[ "axis_dims" := Config.VTuple [Config.VInt 2; Config.VInt 4;
                                   Config.VInt 1; Config.VInt 1] ]}.

Definition example_state_dict : list (string * Transform.tensor) :=
  [ ("transformer.wte.weight", Transform.Mat [[1; 2]; [3; 4]; [5; 6]]);
    ("transformer.h.0.attn.kernel.weight", Transform.Mat [[1; 2]; [3; 4]]);
    ("transformer.h.0.ln.kernel.weight", Transform.Vec [7; 8; 9]);
    ("transformer.h.0.mlp.weight", Transform.Mat [[1; 2]; [3; 4]]);
    ("transformer.wte.kernel.weight", Transform.Mat [[1; 2]; [3; 4]]) ].

(** A flattened train state; tensors are tagged with their element type and
    serialised as they are. *)
Definition example_train_state : list (list string * (Sharding.DType * list Z)) :=
  [ (["params"; "wte"; "embedding"], (Sharding.int32_t, [1; 2]));
    (["step"], (Sharding.int32_t, [3])) ].

Definition example_plain_state_dict : list (string * Transform.tensor) :=
  [ ("transformer.ln_f.bias", Transform.Vec [1; 2]);
    ("lm_head.weight", Transform.Mat [[1; 2]; [3; 4]]) ].

(** A Falcon model created with the default [_do_init=False]: reading
    [self.params] is a [ValueError]. *)
Definition uninitialised_params_error : PyError :=
  ValueError "`params` cannot be accessed from model when the model is created with `_do_init=False`.".

Definition uninitialised_model
  : Pretrained.Module (Params := unit) (Layer := unit) (Out := unit) :=
  Pretrained.mkModule (Raise uninitialised_params_error) []
    (fun _ => Ok tt) (fun out => Ok (out, [])) (fun out _ => out)
    (fun out _ => out).

(** * Properties *)

Lemma int32_small z : - 2 ^ 31 <= z < 2 ^ 31 -> int32 z = z.
Proof.
  intros Hz. unfold int32.
  rewrite Z.mod_small; lia.
Qed.

(** ** Dictionaries filled by a loop of assignments *)

Section DictFacts.
Context {K V : Type} `{Countable K}.

Lemma foldl_insert_notin (l : list (K * V)) (acc : gmap K V) k :
  k ∉ l.*1 ->
  foldl (fun d '(k, v) => <[k := v]> d) acc l !! k = acc !! k.
Proof.
  revert acc. induction l as [|[k0 v0] l IH]; intros acc Hnot; [done|].
  cbn [foldl]. cbn [fmap list_fmap fst] in Hnot.
  apply not_elem_of_cons in Hnot as [Hne Hnot].
  rewrite IH by done. by rewrite lookup_insert_ne.
Qed.

Lemma foldl_insert_lookup (l : list (K * V)) (acc : gmap K V) k v :
  NoDup l.*1 -> (k, v) ∈ l ->
  foldl (fun d '(k, v) => <[k := v]> d) acc l !! k = Some v.
Proof.
  revert acc. induction l as [|[k0 v0] l IH]; intros acc Hnd Hin.
  - by apply elem_of_nil in Hin.
  - cbn [foldl]. cbn [fmap list_fmap fst] in Hnd.
    apply NoDup_cons in Hnd as [Hnot Hnd].
    apply elem_of_cons in Hin as [[= -> ->]|Hin].
    + rewrite foldl_insert_notin by done. by rewrite lookup_insert_eq.
    + by apply IH.
Qed.

(** The binding that is read back is the last one written under the key. *)
Lemma foldl_insert_last (l : list (K * V)) (acc : gmap K V) i k v :
  l !! i = Some (k, v) ->
  (forall j kv, (i < j)%nat -> l !! j = Some kv -> kv.1 <> k) ->
  foldl (fun d '(k, v) => <[k := v]> d) acc l !! k = Some v.
Proof.
  revert acc i. induction l as [|[k0 v0] l IH]; intros acc i Hi Hlater.
  - by rewrite lookup_nil in Hi.
  - cbn [foldl]. destruct i as [|i]; cbn in Hi.
    + injection Hi as -> ->. rewrite foldl_insert_notin.
      * by rewrite lookup_insert_eq.
      * intros Hin. apply list_elem_of_fmap in Hin as (kv & Hk & Hin).
        apply list_elem_of_lookup in Hin as [j Hj].
        apply (Hlater (S j) kv); [lia|done|done].
    + apply (IH _ i); [done|]. intros j kv Hlt Hj.
      apply (Hlater (S j) kv); [lia|done].
Qed.

End DictFacts.

(** ** The decode cache *)

Section CacheFacts.
Import Cache.
Context {A : Type} (zero : A).

Lemma bind_Ok {X Y} (m : result X) (f : X -> result Y) x :
  m = Ok x -> (m ≫= f) = f x.
Proof. intros ->. reflexivity. Qed.

(** An update that fits at a start index inside the operand is written
    there. *)
Lemma dynamic_update_slice_inside (operand update : list A) (start : nat) :
  (start + length update <= length operand)%nat ->
  dynamic_update_slice operand update (Z.of_nat start)
  = Ok (take start operand ++ update ++ drop (start + length update) operand).
Proof.
  intros Hfit. unfold dynamic_update_slice.
  destruct (Nat.ltb_spec (length operand) (length update)) as [Hlt|_]; [lia|].
  destruct (Z.ltb_spec (Z.of_nat start) 0) as [Hneg|_]; [lia|].
  unfold clamp.
  replace (Z.to_nat _) with start by lia.
  reflexivity.
Qed.

(** An update that fits the operand but starts too far to the right is
    moved left until it ends with the operand. *)
Lemma dynamic_update_slice_clamped (operand update : list A) (start : Z) :
  (length update <= length operand)%nat ->
  Z.of_nat (length operand) < start + Z.of_nat (length update) ->
  0 <= start ->
  dynamic_update_slice operand update start
  = Ok (take (length operand - length update) operand ++ update).
Proof.
  intros Hfit Hover Hpos. unfold dynamic_update_slice.
  destruct (Nat.ltb_spec (length operand) (length update)) as [Hlt|_]; [lia|].
  destruct (Z.ltb_spec start 0) as [Hneg|_]; [lia|].
  unfold clamp.
  replace (Z.to_nat _) with (length operand - length update)%nat by lia.
  rewrite drop_ge by lia. by rewrite app_nil_r.
Qed.

Lemma dynamic_update_slice_too_long (operand update : list A) (start : Z) :
  (length operand < length update)%nat ->
  raises (dynamic_update_slice operand update start).
Proof.
  intros Hlong. unfold dynamic_update_slice.
  destruct (Nat.ltb_spec (length operand) (length update)) as [_|Hge]; [|lia].
  eexists. reflexivity.
Qed.

Lemma falcon_writes_at_cursor : writes_at_cursor (_concatenate_to_cache zero).
Proof.
  intros kb vb key value idx m Hvb Hval Hfit Hmax.
  unfold _concatenate_to_cache, active; cbn [cached_key cached_value cache_index has_variable variable].
  rewrite (bind_Ok _ _ _ (dynamic_update_slice_inside kb key idx Hfit)).
  assert (Hfit' : (idx + length value <= length vb)%nat) by lia.
  rewrite (bind_Ok _ _ _ (dynamic_update_slice_inside vb value idx Hfit')).
  cbn. rewrite int32_small by lia. rewrite Hval.
  by rewrite Nat2Z.inj_add.
Qed.

Lemma mistral_writes_at_cursor : writes_at_cursor (concatenate_to_cache_ zero).
Proof.
  intros kb vb key value idx m Hvb Hval Hfit Hmax.
  unfold concatenate_to_cache_, active; cbn [cached_key cached_value cache_index has_variable variable].
  rewrite (bind_Ok _ _ _ (dynamic_update_slice_inside kb key idx Hfit)).
  assert (Hfit' : (idx + length value <= length vb)%nat) by lia.
  rewrite (bind_Ok _ _ _ (dynamic_update_slice_inside vb value idx Hfit')).
  cbn. rewrite int32_small by lia. rewrite Hval.
  by rewrite Nat2Z.inj_add.
Qed.

Lemma falcon_allocates : allocates zero (_concatenate_to_cache zero).
Proof. intros key0 value0 m Hlen. cbv [init_cache _concatenate_to_cache]. cbn. by rewrite Hlen. Qed.

Lemma mistral_allocates : allocates zero (concatenate_to_cache_ zero).
Proof. intros key0 value0 m Hlen. reflexivity. Qed.

Lemma state_after_Some {X} (r : result (@CacheVars A * X)) c :
  state_after r = Some c -> exists x, r = Ok (c, x).
Proof.
  destruct r as [[c' x]|e]; cbn; [|discriminate].
  intros [= ->]. by exists x.
Qed.

Section Steps.
Variable upd : updater (A := A).
Hypothesis upd_writes : writes_at_cursor upd.
Variable max_length : nat.
Hypothesis max_length_int32 : Z.of_nat max_length < 2 ^ 31.

Lemma decode_filled (m : Mask) (steps : list (A * A)) :
  forall pre_k pre_v : list A,
    length pre_v = length pre_k ->
    (length pre_k + length steps <= max_length)%nat ->
    decode upd (filled zero max_length pre_k pre_v) steps m
    = Ok (filled zero max_length (pre_k ++ steps.*1) (pre_v ++ steps.*2)).
Proof.
  induction steps as [|[k v] steps IH]; intros pre_k pre_v Hlen Hroom.
  - cbn. by rewrite !app_nil_r.
  - cbn [decode length] in *.
    pose proof (upd_writes
      (pre_k ++ zeros zero (max_length - length pre_k))
      (pre_v ++ zeros zero (max_length - length pre_k))
      [k] [v] (length pre_k) m) as Hstep.
    unfold zeros in Hstep.
    rewrite !length_app, !length_replicate in Hstep.
    cbn [length] in Hstep.
    destruct (state_after_Some _ _ (Hstep ltac:(lia) eq_refl ltac:(lia) ltac:(lia)))
      as [out Hupd].
    unfold filled at 1. unfold zeros. rewrite Hupd. cbn [mbind result_bind fst].
    assert (Hk : forall pre : list A, length pre = length pre_k ->
              forall x,
              take (length pre_k) (pre ++ replicate (max_length - length pre_k) zero)
              ++ [x] ++ drop (length pre_k + 1)
                          (pre ++ replicate (max_length - length pre_k) zero)
              = (pre ++ [x]) ++ zeros zero (max_length - length (pre_k ++ [k]))).
    { intros pre Hpre x. rewrite <- Hpre, take_app_length.
      rewrite drop_app_ge by lia. rewrite drop_replicate.
      rewrite length_app. cbn [length]. unfold zeros.
      rewrite <- app_assoc. do 3 f_equal. lia. }
    rewrite (Hk pre_k eq_refl k), (Hk pre_v Hlen v).
    replace (Z.of_nat (length pre_k + 1)) with (Z.of_nat (length (pre_k ++ [k])))
      by (rewrite length_app; reflexivity).
    fold (filled zero max_length (pre_k ++ [k]) (pre_v ++ [v])).
    rewrite IH.
    + cbn [fmap list_fmap fst snd]. by rewrite <- !app_assoc.
    + rewrite !length_app. cbn [length]. lia.
    + rewrite length_app. cbn [length]. lia.
Qed.

End Steps.

Lemma updater_writes falcon : writes_at_cursor (updater_of zero falcon).
Proof. destruct falcon; [apply falcon_writes_at_cursor | apply mistral_writes_at_cursor]. Qed.

Lemma updater_allocates falcon : allocates zero (updater_of zero falcon).
Proof. destruct falcon; [apply falcon_allocates | apply mistral_allocates]. Qed.

(** C1.  In Falcon's [_concatenate_to_cache] and in Mistral's
    [concatenate_to_cache_] alike, a call on an active cache with room left
    writes the new key and value slices at the cursor and advances the cursor
    by the step length; and [N <= max_length] decode steps of length 1 on a
    freshly initialised cache of [max_length] positions leave
    [cache_index = N] and the [N] keys (values) of the steps, in order, in the
    first [N] positions of [cached_key] ([cached_value]).  The cursor is a
    [jnp.int32], so [max_length] is taken below [2^31]. *)
Theorem decode_steps_fill_cache (falcon : bool) (key0 value0 : list A)
    (steps : list (A * A)) (m0 m : Mask) :
  length value0 = length key0 ->
  (length steps <= length key0)%nat ->
  Z.of_nat (length key0) < 2 ^ 31 ->
  let upd := updater_of zero falcon in
  writes_at_cursor upd /\
  exists kb vb : list A,
    (init_cache upd key0 value0 m0 ≫= fun c0 => decode upd c0 steps m)
    = Ok (active kb vb (Z.of_nat (length steps)))
    /\ length kb = length key0 /\ length vb = length key0
    /\ take (length steps) kb = steps.*1
    /\ take (length steps) vb = steps.*2.
Proof.
  intros Hlen Hroom Hmax upd. subst upd. split; [apply updater_writes|].
  rewrite (bind_Ok _ _ _ (updater_allocates falcon key0 value0 m0 Hlen)).
  pose proof (decode_filled _ (updater_writes falcon) (length key0) Hmax m
                steps [] [] eq_refl) as Hrun.
  cbn [length app Nat.add] in Hrun.
  unfold filled at 1 in Hrun. cbn [length app] in Hrun.
  rewrite Nat.sub_0_r in Hrun. change (Z.of_nat 0) with 0 in Hrun.
  rewrite (Hrun Hroom). unfold filled. rewrite length_fmap.
  eexists _, _. split; [reflexivity|].
  unfold zeros. rewrite !length_app, !length_fmap, !length_replicate.
  repeat split; try lia.
  - rewrite <- (length_fmap fst steps) at 1. apply take_app_length.
  - rewrite <- (length_fmap snd steps) at 1. apply take_app_length.
Qed.

(** C5, as amended.  On an active cache, a step whose slices fit the buffer
    ([step_len <= max_length]) but overrun it from the cursor
    ([cursor + step_len > max_length]) does not raise: the slices are written
    at offset [max_length - step_len], the buffers keep their length, and the
    cursor still advances by [step_len] (in [jnp.int32] arithmetic). *)
Theorem overflowing_step_is_clipped (falcon : bool) (kb vb key value : list A)
    (idx : Z) (m : Mask) :
  length vb = length kb ->
  length value = length key ->
  (length key <= length kb)%nat ->
  0 <= idx ->
  Z.of_nat (length kb) < idx + Z.of_nat (length key) ->
  state_after (updater_of zero falcon (active kb vb idx) key value (length key) m)
  = Some (active (take (length kb - length key) kb ++ key)
                 (take (length kb - length key) vb ++ value)
                 (int32 (idx + Z.of_nat (length key)))).
Proof.
  intros Hvb Hval Hfit Hidx Hover.
  assert (Hk := dynamic_update_slice_clamped kb key idx Hfit Hover Hidx).
  assert (Hv := dynamic_update_slice_clamped vb value idx
                  ltac:(lia) ltac:(lia) Hidx).
  rewrite Hvb, Hval in Hv.
  destruct falcon; cbn [updater_of];
    unfold _concatenate_to_cache, concatenate_to_cache_, active;
    cbn [cached_key cached_value cache_index has_variable variable];
    rewrite Hk; cbn [mbind result_bind]; rewrite Hv; reflexivity.
Qed.

End CacheFacts.

Lemma decode_steps_fill_cache_witness :
  let upd := Cache.updater_of 0 true in
  Cache.writes_at_cursor upd /\
  exists kb vb : list Z,
    (Cache.init_cache upd [7; 7; 7] [8; 8; 8] (fun _ _ => true)
       ≫= fun c0 => Cache.decode upd c0 [(1, 10); (2, 20)] (fun _ _ => true))
    = Ok (Cache.active kb vb 2)
    /\ length kb = 3%nat /\ length vb = 3%nat
    /\ take 2 kb = [1; 2] /\ take 2 vb = [10; 20].
Proof.
  apply (decode_steps_fill_cache 0 true [7; 7; 7] [8; 8; 8]
           [(1, 10); (2, 20)] (fun _ _ => true) (fun _ _ => true));
    [reflexivity | simpl; lia | simpl; lia].
Defined.

Example decode_two_steps :
  (Cache.init_cache (Cache.updater_of 0 false) [7; 7; 7] [8; 8; 8]
     (fun _ _ => true)
     ≫= fun c0 => Cache.decode (Cache.updater_of 0 false) c0
                    [(1, 10); (2, 20)] (fun _ _ => true))
  = Ok (Cache.active [1; 2; 0] [10; 20; 0] 2).
Proof. vm_compute. reflexivity. Qed.

Lemma overflowing_step_is_clipped_witness :
  Cache.state_after
    (Cache.updater_of 0 true (Cache.active [1; 2; 3] [4; 5; 6] 3) [9] [10] 1%nat
       (fun _ _ => true))
  = Some (Cache.active [1; 2; 9] [4; 5; 10] (int32 4)).
Proof.
  apply (overflowing_step_is_clipped 0 true [1; 2; 3] [4; 5; 6] [9] [10] 3
           (fun _ _ => true));
    [reflexivity | reflexivity | simpl; lia | lia | simpl; lia].
Defined.

(** C5, as stated, fails when the step is longer than the whole buffer: a
    cache of two positions and a step of three slices at cursor [0]
    overflows, and [dynamic_update_slice] rejects the update. *)
Lemma overflowing_step_can_raise :
  0 + 3 > 2 /\
  raises (Cache._concatenate_to_cache 0 (Cache.active [0; 0] [0; 0] 0)
            [1; 2; 3] [4; 5; 6] 3%nat (fun _ _ => true)) /\
  raises (Cache.concatenate_to_cache_ 0 (Cache.active [0; 0] [0; 0] 0)
            [1; 2; 3] [4; 5; 6] 3%nat (fun _ _ => true)).
Proof. split; [lia | split; eexists; reflexivity]. Qed.

(** ** Partition specs *)

Section ShardingFacts.
Import Sharding.

(** Induction on nested specs. *)
Lemma pspec_nested_ind (P : pspec -> Prop) :
  P PNone ->
  (forall s, P (PName s)) ->
  (forall items, Forall P items -> P (PSeq items)) ->
  (forall d, Forall (fun kv => P kv.2) d -> P (PDict d)) ->
  forall p, P p.
Proof.
  intros HNone HName HSeq HDict.
  fix IH 1. intros [ | s | items | d ].
  - exact HNone.
  - exact (HName s).
  - apply HSeq. induction items as [|item items IHitems]; constructor.
    + apply IH.
    + exact IHitems.
  - apply HDict. induction d as [|[key item] d IHd]; constructor.
    + apply IH.
    + exact IHd.
Qed.

Lemma add_item_spec rec item names :
  collects rec item ->
  exists names', add_item rec item names = Ok names'
    /\ forall s, s ∈ names' <-> s ∈ names \/ referenced s item.
Proof.
  intros Hrec. destruct item as [ | s' | items | d ]; cbn [add_item].
  - exists names. split; [done|]. intros s. split; [auto|].
    intros [?|Hr]; [done|inversion Hr].
  - eexists. split; [done|]. intros s. rewrite elem_of_union, elem_of_singleton.
    split.
    + intros [->|?]; [right; constructor|by left].
    + intros [?|Hr]; [by right|inversion Hr; by left].
  - destruct (Hrec I) as (l & -> & Hl). eexists. split; [done|].
    intros s. rewrite elem_of_union, elem_of_list_to_set, Hl. tauto.
  - destruct (Hrec I) as (l & -> & Hl). eexists. split; [done|].
    intros s. rewrite elem_of_union, elem_of_list_to_set, Hl. tauto.
Qed.

Lemma loop_spec rec items :
  Forall (collects rec) items ->
  forall names, exists names', loop rec items names = Ok names'
    /\ forall s, s ∈ names' <->
                 s ∈ names \/ exists item, item ∈ items /\ referenced s item.
Proof.
  induction 1 as [|item items Hitem _ IH]; intros names; cbn [loop].
  - exists names. split; [done|]. intros s. split; [auto|].
    intros [?|(item & Hin & _)]; [done|]. by apply elem_of_nil in Hin.
  - destruct (add_item_spec rec item names Hitem) as (names1 & -> & H1).
    cbn [mbind result_bind].
    destruct (IH names1) as (names' & -> & H'). exists names'. split; [done|].
    intros s. rewrite H', H1. split.
    + intros [[?|?]|(it & Hin & Hr)]; [by left | right; exists item | right; exists it].
      * split; [apply list_elem_of_here|done].
      * split; [by apply list_elem_of_further|done].
    + intros [?|(it & Hin & Hr)]; [by left; left|].
      apply elem_of_cons in Hin as [->|Hin]; [by left; right|].
      right. by exists it.
Qed.

Lemma loop_values_spec rec d :
  Forall (fun kv => collects rec kv.2) d ->
  forall names, exists names', loop_values rec d names = Ok names'
    /\ forall s, s ∈ names' <->
                 s ∈ names \/ exists key item, (key, item) ∈ d /\ referenced s item.
Proof.
  induction 1 as [|[key item] d Hitem _ IH]; intros names; cbn [loop_values].
  - exists names. split; [done|]. intros s. split; [auto|].
    intros [?|(key & item & Hin & _)]; [done|]. by apply elem_of_nil in Hin.
  - destruct (add_item_spec rec item names Hitem) as (names1 & -> & H1).
    cbn [mbind result_bind].
    destruct (IH names1) as (names' & -> & H'). exists names'. split; [done|].
    intros s. rewrite H', H1. split.
    + intros [[?|?]|(k & it & Hin & Hr)];
        [by left | right; exists key, item | right; exists k, it].
      * split; [apply list_elem_of_here|done].
      * split; [by apply list_elem_of_further|done].
    + intros [?|(k & it & Hin & Hr)]; [by left; left|].
      apply elem_of_cons in Hin as [[= -> ->]|Hin]; [by left; right|].
      right. by exists k, it.
Qed.

(** The names the function returns for a collection are the names that occur
    in it. *)
Lemma get_names_spec p : collects get_names_from_partition_spec p.
Proof.
  induction p as [ | s | items IH | d IH ] using pspec_nested_ind;
    intros Hc; try done; cbn [get_names_from_partition_spec].
  - destruct (loop_spec _ items IH ∅) as (names & -> & Hnames).
    eexists. split; [done|]. intros s. rewrite elem_of_elements, Hnames.
    split.
    + intros [Hin|(item & Hin & Hr)]; [set_solver|]. by econstructor.
    + intros Hr. inversion Hr; subst. right. eauto.
  - destruct (loop_values_spec _ d IH ∅) as (names & -> & Hnames).
    eexists. split; [done|]. intros s. rewrite elem_of_elements, Hnames.
    split.
    + intros [Hin|(key & item & Hin & Hr)]; [set_solver|]. by econstructor.
    + intros Hr. inversion Hr; subst. right. eauto.
Qed.

Lemma names_in_mesh_declared env spec l :
  (forall s, s ∈ l <-> referenced s spec) ->
  names_in_mesh env l = true <-> declared env spec.
Proof.
  intros Hl. unfold names_in_mesh, declared.
  rewrite bool_decide_eq_true. split.
  - intros Hsub s Hr. apply Hl in Hr.
    assert (s ∈ (list_to_set l : gset string)) as Hs by by apply elem_of_list_to_set.
    apply Hsub in Hs. by apply elem_of_list_to_set in Hs.
  - intros Hd s Hs. apply elem_of_list_to_set in Hs.
    apply elem_of_list_to_set. apply Hd. by apply Hl.
Qed.

Lemma size_Wsc_neq x spec : Wsc x spec <> x.
Proof. intros Heq. apply (f_equal size) in Heq. cbn in Heq. lia. Qed.

(** C3.  For every tensor and every partition spec (a [PartitionSpec] or a
    dict, nesting tuples of names, [None] and names at any depth),
    [with_sharding_constraint] returns without error; it returns the tensor
    with the sharding annotation exactly when every axis name occurring in
    the spec is an axis of the active mesh, and the tensor unchanged exactly
    when some name is not. *)
Theorem with_sharding_constraint_iff_declared (env : Env) (x : Tensor)
    (spec : pspec) :
  is_collection spec ->
  (with_sharding_constraint env x spec = Ok (Wsc x spec) <-> declared env spec)
  /\ (with_sharding_constraint env x spec = Ok x <-> ~ declared env spec).
Proof.
  intros Hc. unfold with_sharding_constraint.
  destruct (get_names_spec spec Hc) as (l & -> & Hl). cbn [mbind result_bind].
  pose proof (names_in_mesh_declared env spec l Hl) as Hdecl.
  destruct (names_in_mesh env l).
  - split; split; intros H.
    + by apply Hdecl.
    + done.
    + injection H as H. by apply size_Wsc_neq in H.
    + exfalso. apply H. by apply Hdecl.
  - split; split; intros H.
    + injection H as H. symmetry in H. by apply size_Wsc_neq in H.
    + apply Hdecl in H. discriminate.
    + intros Hd. apply Hdecl in Hd. discriminate.
    + done.
Qed.

End ShardingFacts.

Lemma with_sharding_constraint_iff_declared_witness :
  Sharding.is_collection example_spec /\
  (Sharding.with_sharding_constraint example_env example_tensor example_spec
   = Ok (Sharding.Wsc example_tensor example_spec)
   <-> Sharding.declared example_env example_spec)
  /\ (Sharding.with_sharding_constraint example_env example_tensor example_spec
      = Ok example_tensor
      <-> ~ Sharding.declared example_env example_spec).
Proof.
  split; [exact I|].
  apply (with_sharding_constraint_iff_declared example_env example_tensor
           example_spec); exact I.
Defined.

Example with_sharding_constraint_applies :
  Sharding.with_sharding_constraint example_env example_tensor example_spec
  = Ok (Sharding.Wsc example_tensor example_spec).
Proof. vm_compute. reflexivity. Qed.

Example with_sharding_constraint_skips :
  Sharding.with_sharding_constraint (Sharding.mkEnv ["dp"; "fsdp"] "cpu")
    example_tensor example_spec
  = Ok example_tensor.
Proof. vm_compute. reflexivity. Qed.

(** ** The attention dispatcher *)

Section AttentionFacts.
Import Sharding Attention.

Lemma get_flash_attention_gpu env :
  platform env = "gpu" ->
  get_flash_attention env = Ok (ring_flash_attention_gpu, false, true).
Proof. intros Hp. unfold get_flash_attention. by rewrite Hp. Qed.

Lemma get_flash_attention_tpu env :
  platform env = "tpu" ->
  get_flash_attention env = Ok (tpu_flash_attention, true, false).
Proof. intros Hp. unfold get_flash_attention. by rewrite Hp. Qed.

Lemma get_flash_attention_other env :
  platform env <> "gpu" -> platform env <> "tpu" ->
  get_flash_attention env
  = Raise (ValueError ("Unsupported platform " +:+ platform env)).
Proof.
  intros Hg Ht. unfold get_flash_attention.
  apply String.eqb_neq in Hg, Ht. by rewrite Hg, Ht.
Qed.

(** Past its shape assertions, [smart_flash_attention] is decided by
    [get_flash_attention]. *)
Lemma smart_flash_attention_well_shaped env a :
  well_shaped a ->
  smart_flash_attention env a
  = ('(flash_attn_fn, f32_upcast, do_shard_map) ← get_flash_attention env;
     attn_output ←
       (if do_shard_map : bool then
          match mesh a with
          | None => Raise (AssertionError
                             "For Using Shard Map on GPUs you have to pass Mesh")
          | Some mesh =>
              with_sharding_constraint env
                (ShardMap flash_attn_fn "mp" f32_upcast
                   (mkBlockwise (deterministic a) (dropout_rng a) (attn_pdrop a)
                      (causal a) (block_q a) (block_k a) (dtype a)
                      "nothing_saveable" (precision a) false)
                   mesh [q_ps a; k_ps a; v_ps a; b_ps a] (a_ps a) false
                   (Transpose (q a) [0; 2; 1; 3]%nat)
                   (Transpose (k a) [0; 2; 1; 3]%nat)
                   (Transpose (v a) [0; 2; 1; 3]%nat) (bias a))
                (a_ps a)
          end
        else
          let up x := if force_float32_tpu a || f32_upcast
                      then AsType x float32 else x in
          Ok (LocalCall jax_flash_attn_tpu_flash_attention
                (up (q a)) (up (k a)) (up (v a)) (bias a) false "1.0"
                (mkBlockSizes (block_b a) (block_k a) (block_q a) (block_k a))
                false));
     Ok (AsType attn_output (dtype a))).
Proof.
  intros (b & Hq & Hk & Hv & Hb). unfold smart_flash_attention, shape0.
  rewrite Hq, Hk, Hv, Hb. cbn [mbind result_bind].
  rewrite !Z.eqb_refl. cbn [mbind result_bind].
  unfold shape_eqb. rewrite !bool_decide_eq_true_2 by reflexivity.
  reflexivity.
Qed.

(** C2.  The dispatcher selects its kernel by the platform of the backend.
    On ["gpu"] it calls the ring flash-attention kernel under a [shard_map]
    over the mesh with axis name ["mp"] (and then constrains the output), and
    fails with an assertion error when no mesh is passed; on ["tpu"] it calls
    the chunked flash-attention kernel directly, on [q], [k], [v] cast to
    float32 whatever [force_float32_tpu] is; on any other platform it fails
    with the error [Unsupported platform]. *)
Theorem smart_flash_attention_dispatch (env : Env) (a : AttnArgs) :
  well_shaped a ->
  (platform env = "gpu" ->
     get_flash_attention env = Ok (ring_flash_attention_gpu, false, true)
     /\ match mesh a with
        | None =>
            smart_flash_attention env a
            = Raise (AssertionError
                       "For Using Shard Map on GPUs you have to pass Mesh")
        | Some mesh =>
            smart_flash_attention env a
            = (out ← with_sharding_constraint env (sharded_call a mesh) (a_ps a);
               Ok (AsType out (dtype a)))
        end)
  /\ (platform env = "tpu" ->
       get_flash_attention env = Ok (tpu_flash_attention, true, false)
       /\ smart_flash_attention env a
          = Ok (AsType (local_call a) (dtype a)))
  /\ (platform env <> "gpu" -> platform env <> "tpu" ->
       get_flash_attention env
       = Raise (ValueError ("Unsupported platform " +:+ platform env))
       /\ smart_flash_attention env a
          = Raise (ValueError ("Unsupported platform " +:+ platform env))).
Proof.
  intros Hshape.
  rewrite (smart_flash_attention_well_shaped env a Hshape).
  split; [|split].
  - intros Hp. rewrite (get_flash_attention_gpu env Hp).
    split; [reflexivity|]. cbn [mbind result_bind].
    destruct (mesh a) as [mesh|]; reflexivity.
  - intros Hp. rewrite (get_flash_attention_tpu env Hp).
    split; [reflexivity|]. cbn [mbind result_bind].
    by rewrite orb_true_r.
  - intros Hg Ht. rewrite (get_flash_attention_other env Hg Ht).
    split; reflexivity.
Qed.

End AttentionFacts.

Lemma example_attn_well_shaped mesh : Attention.well_shaped (example_attn mesh).
Proof. exists 2. repeat split. Qed.

Lemma smart_flash_attention_dispatch_witness :
  Attention.smart_flash_attention (Sharding.mkEnv [] "tpu") (example_attn None)
  = Ok (Sharding.AsType (Attention.local_call (example_attn None))
          Sharding.float16).
Proof.
  apply (smart_flash_attention_dispatch (Sharding.mkEnv [] "tpu")
           (example_attn None) (example_attn_well_shaped None)).
  reflexivity.
Defined.

Example smart_flash_attention_gpu_with_mesh :
  Attention.smart_flash_attention example_env (example_attn (Some example_mesh))
  = Ok (Sharding.AsType
          (Sharding.Wsc
             (Attention.sharded_call (example_attn (Some example_mesh)) example_mesh)
             Config.default_ps)
          Sharding.float16).
Proof. vm_compute. reflexivity. Qed.

Example smart_flash_attention_gpu_without_mesh :
  Attention.smart_flash_attention example_env (example_attn None)
  = Raise (AssertionError "For Using Shard Map on GPUs you have to pass Mesh").
Proof. vm_compute. reflexivity. Qed.

Example smart_flash_attention_cpu :
  Attention.smart_flash_attention (Sharding.mkEnv [] "cpu")
    (example_attn (Some example_mesh))
  = Raise (ValueError "Unsupported platform cpu").
Proof. vm_compute. reflexivity. Qed.

(** ** The device mesh builder *)

Section MeshFacts.
Import Sharding MeshBuilder.

Lemma prod_app l1 l2 : prod (l1 ++ l2) = prod l1 * prod l2.
Proof.
  unfold prod. induction l1 as [|d l1 IH]; cbn [foldr app]; [lia|].
  rewrite IH. lia.
Qed.

(** A list of dimensions whose only [-1] is at index [i]. *)
Lemma split_at_unknown (dims : list Z) (i : nat) :
  dims !! i = Some (-1) ->
  (forall j d, j <> i -> dims !! j = Some d -> 0 <= d) ->
  dims = take i dims ++ [-1] ++ drop (S i) dims
  /\ Forall (fun d => 0 <= d) (take i dims)
  /\ Forall (fun d => 0 <= d) (drop (S i) dims).
Proof.
  intros Hi Hothers. split; [|split].
  - symmetry. by apply take_drop_middle.
  - apply Forall_lookup. intros j d Hj.
    apply lookup_take_Some in Hj as [Hj Hlt].
    apply (Hothers j d); [lia|done].
  - apply Forall_lookup. intros j d Hj.
    rewrite lookup_drop in Hj. apply (Hothers (S i + j)%nat d); [lia|done].
Qed.

Lemma filter_nonneg_unknown (l : list Z) :
  Forall (fun d => 0 <= d) l ->
  filter (fun d => d = -1) l = []
  /\ filter (fun d => d <> -1) l = l
  /\ existsb (fun d => d <? -1) l = false
  /\ forall x, map (fun d => if d =? -1 then x else d) l = l.
Proof.
  induction 1 as [|d l Hd _ (IH1 & IH2 & IH3 & IH4)]; [done|].
  rewrite filter_cons_False by lia. rewrite filter_cons_True by lia.
  cbn [existsb map]. rewrite IH1, IH2, IH3.
  destruct (Z.ltb_spec d (-1)); [lia|].
  repeat split; try done. intros x. rewrite IH4.
  destruct (Z.eqb_spec d (-1)); [lia|done].
Qed.

Lemma reshape_shape_middle (size : Z) (l1 l2 : list Z) :
  Forall (fun d => 0 <= d) l1 ->
  Forall (fun d => 0 <= d) l2 ->
  let others := prod (l1 ++ l2) in
  reshape_shape size (l1 ++ [-1] ++ l2)
  = if (others =? 0) || negb (size mod others =? 0)
    then Raise (TypeError "cannot reshape array")
    else Ok (l1 ++ [size / others] ++ l2).
Proof.
  intros Hl Hr others.
  destruct (filter_nonneg_unknown _ Hl) as (Hl1 & Hl2 & Hl3 & Hl4).
  destruct (filter_nonneg_unknown _ Hr) as (Hr1 & Hr2 & Hr3 & Hr4).
  unfold reshape_shape.
  rewrite !existsb_app, !filter_app, !map_app.
  rewrite Hl1, Hl2, Hl3, Hr1, Hr2, Hr3.
  cbn [existsb app map orb].
  replace (filter (fun d : Z => d = -1) [-1]) with [-1] by done.
  replace (filter (fun d : Z => d <> -1) [-1]) with (@nil Z) by done.
  change (-1 <? -1) with false. change (-1 =? -1) with true.
  cbn [app orb]. fold others.
  destruct (_ || _); [done|]. by rewrite Hl4, Hr4.
Qed.

Lemma reshape_shape_unknown (size : Z) (dims : list Z) (i : nat) :
  dims !! i = Some (-1) ->
  (forall j d, j <> i -> dims !! j = Some d -> 0 <= d) ->
  let others := prod (delete i dims) in
  reshape_shape size dims
  = if (others =? 0) || negb (size mod others =? 0)
    then Raise (TypeError "cannot reshape array")
    else Ok (<[i := size / others]> dims).
Proof.
  intros Hi Hothers others.
  destruct (split_at_unknown dims i Hi Hothers) as (Hsplit & Hl & Hr).
  assert (Hlen : length (take i dims) = i).
  { apply length_take_le. apply lookup_lt_Some in Hi. lia. }
  assert (Hdel : delete i dims = take i dims ++ drop (S i) dims)
    by by rewrite delete_take_drop.
  assert (Hins : forall x, <[i := x]> dims = take i dims ++ [x] ++ drop (S i) dims).
  { intros x. apply insert_take_drop. by eapply lookup_lt_Some. }
  subst others. rewrite Hdel, Hins.
  rewrite <- (reshape_shape_middle size _ _ Hl Hr). by rewrite <- Hsplit.
Qed.

Lemma prod_insert (l : list Z) (i : nat) (x : Z) :
  (i < length l)%nat -> prod (<[i := x]> l) = x * prod (delete i l).
Proof.
  intros Hi. rewrite insert_take_drop by done. rewrite delete_take_drop.
  rewrite !prod_app. unfold prod at 2. cbn [foldr]. fold (prod (drop (S i) l)).
  lia.
Qed.

(** The dict [mesh.shape] maps the [j]-th axis name to the [j]-th size. *)
Lemma mesh_shape_lookup (names : list string) (sizes : list Z) j name size :
  NoDup names -> length names = length sizes ->
  names !! j = Some name -> sizes !! j = Some size ->
  mesh_shape (mkMesh names sizes) !! name = Some size.
Proof.
  intros Hnd Hlen Hn Hs. unfold mesh_shape. cbn [axis_names devices_shape].
  apply foldl_insert_lookup.
  - by rewrite fst_zip by lia.
  - apply list_elem_of_lookup. exists j. apply lookup_zip_with_Some. eauto.
Qed.

(** C7.  With one [-1] among the axis dims (at index [i]) and sizes
    elsewhere, [create_mesh] resolves the [-1] to the device count divided
    by the product of the other dims: the mesh it returns has the given
    names, and [mesh.shape] gives that quotient for the [i]-th name and the
    given size for every other name.  It fails when the product of the
    other dims does not divide the device count.  The mesh utility is
    assumed to lay the [n] devices out on any shape of [n] entries. *)
Theorem create_mesh_resolves_unknown_axis (rt : Runtime) (axis_dims : list Z)
    (axis_names : list string) (backend : string) (n i : nat) :
  devices rt (if String.eqb backend "" then None else Some backend) = Ok n ->
  (0 < n)%nat ->
  (forall sh, prod sh = Z.of_nat n -> create_device_mesh rt sh = Ok sh) ->
  length axis_names = length axis_dims ->
  NoDup axis_names ->
  axis_dims !! i = Some (-1) ->
  (forall j d, j <> i -> axis_dims !! j = Some d -> 0 <= d) ->
  let others := prod (delete i axis_dims) in
  let resolved := <[i := Z.of_nat n / others]> axis_dims in
  ((others | Z.of_nat n) ->
     create_mesh rt axis_dims axis_names backend
     = Ok (mkMesh axis_names resolved)
     /\ forall j name size,
         axis_names !! j = Some name -> resolved !! j = Some size ->
         mesh_shape (mkMesh axis_names resolved) !! name = Some size)
  /\ (~ (others | Z.of_nat n) ->
      raises (create_mesh rt axis_dims axis_names backend)).
Proof.
  intros Hdev Hn Hlayout Hlen Hnd Hi Hothers others resolved.
  unfold create_mesh. rewrite Hdev. cbn [mbind result_bind].
  rewrite Z.mul_1_r.
  rewrite (reshape_shape_unknown _ _ _ Hi Hothers). fold others.
  assert (Hilt : (i < length axis_dims)%nat) by by eapply lookup_lt_Some.
  split.
  - intros Hdiv.
    assert (Hne : others <> 0).
    { intros H0. rewrite H0 in Hdiv. apply Z.divide_0_l in Hdiv. lia. }
    assert (Hmod : Z.of_nat n mod others = 0) by by apply Z.mod_divide.
    rewrite Hmod.
    destruct (Z.eqb_spec others 0) as [|_]; [done|].
    change (0 =? 0) with true. cbn [orb negb mbind result_bind].
    assert (Hprod : prod resolved = Z.of_nat n).
    { subst resolved. rewrite prod_insert by done. fold others.
      rewrite Z.mul_comm. symmetry. by apply Z_div_exact_full_2. }
    assert (Hlen' : length axis_names = length resolved)
      by (subst resolved; by rewrite length_insert).
    fold resolved. rewrite (Hlayout resolved Hprod). cbn [mbind result_bind].
    unfold new_Mesh. rewrite (proj2 (Nat.eqb_eq _ _) Hlen'). split; [done|].
    intros j name size Hname Hsize.
    by apply (mesh_shape_lookup _ _ j).
  - intros Hndiv.
    destruct (Z.eqb_spec others 0) as [H0|Hne]; [eexists; reflexivity|].
    cbn [orb].
    destruct (Z.eqb_spec (Z.of_nat n mod others) 0) as [Hmod|_];
      [|eexists; reflexivity].
    exfalso. apply Hndiv. by apply Z.mod_divide.
Qed.

End MeshFacts.

Lemma create_mesh_resolves_unknown_axis_witness :
  MeshBuilder.create_mesh eight_devices [1; -1; 1; 1]
    ["dp"; "fsdp"; "tp"; "mp"] ""
  = Ok (Sharding.mkMesh ["dp"; "fsdp"; "tp"; "mp"] [1; 8; 1; 1])
  /\ MeshBuilder.mesh_shape
       (Sharding.mkMesh ["dp"; "fsdp"; "tp"; "mp"] [1; 8; 1; 1]) !! "fsdp"
     = Some 8.
Proof.
  destruct (create_mesh_resolves_unknown_axis eight_devices [1; -1; 1; 1]
              ["dp"; "fsdp"; "tp"; "mp"] "" 8 1) as [Hok _].
  - reflexivity.
  - lia.
  - intros sh Hsh. cbn. rewrite Hsh. reflexivity.
  - reflexivity.
  - apply (bool_decide_unpack _). vm_compute. exact I.
  - reflexivity.
  - intros [|[|[|[|j]]]] d Hj; cbn; intros [= <-]; lia.
  - destruct Hok as [Hmesh Hshape].
    + exists 8. reflexivity.
    + split; [exact Hmesh|]. apply (Hshape 1%nat "fsdp" 8); reflexivity.
Defined.

Example create_mesh_fsdp_8 :
  MeshBuilder.mesh_shape
    <$> (match MeshBuilder.create_mesh eight_devices [1; -1; 1; 1]
                 ["dp"; "fsdp"; "tp"; "mp"] "" with
         | Ok m => Some m | Raise _ => None end)
  = Some (list_to_map [("dp", 1); ("fsdp", 8); ("tp", 1); ("mp", 1)]).
Proof. vm_compute. reflexivity. Qed.

Example create_mesh_3_does_not_divide_8 :
  MeshBuilder.create_mesh eight_devices [3; -1; 1; 1]
    ["dp"; "fsdp"; "tp"; "mp"] ""
  = Raise (TypeError "cannot reshape array").
Proof. vm_compute. reflexivity. Qed.

(** ** Configuration objects *)

Section ConfigFacts.
Import Sharding Config.

Lemma assign_sharding_assign s (self : object) :
  assign_sharding s self = assign (sharding_values s) self.
Proof. reflexivity. Qed.

Lemma mistral_add_jax_args_assign a (self : object) :
  Mistral.add_jax_args a self = assign (Mistral.assignments a) self.
Proof. reflexivity. Qed.

Lemma sharding_values_keys s :
  (sharding_values s).*1
  = ["axis_names"; "axis_dims"; "q_ps"; "k_ps"; "v_ps"; "b_ps"; "a_ps"; "backend"].
Proof. reflexivity. Qed.

Lemma sharding_values_NoDup s : NoDup (sharding_values s).*1.
Proof. rewrite sharding_values_keys. apply (bool_decide_unpack _). by vm_compute. Qed.

Lemma mistral_assignments_NoDup a : NoDup (Mistral.assignments a).*1.
Proof.
  unfold Mistral.assignments. rewrite fmap_app, sharding_values_keys.
  apply (bool_decide_unpack _). by vm_compute.
Qed.

Lemma assign_lookup_in l (self : object) name v :
  NoDup l.*1 -> (name, v) ∈ l -> assign l self !! name = Some v.
Proof. apply foldl_insert_lookup. Qed.

Lemma assign_lookup_notin l (self : object) name :
  name ∉ l.*1 -> assign l self !! name = self !! name.
Proof. apply foldl_insert_notin. Qed.

(** Assigning twice is assigning once. *)
Lemma assign_idempotent l (self : object) :
  NoDup l.*1 -> assign l (assign l self) = assign l self.
Proof.
  intros Hnd. apply map_eq. intros name.
  destruct (decide (name ∈ l.*1)) as [Hin|Hnot].
  - apply list_elem_of_fmap in Hin as ([name' v] & -> & Hin).
    by rewrite !(assign_lookup_in l _ name' v).
  - by rewrite !assign_lookup_notin.
Qed.

(** The guarded loop keeps what is there and fills the rest, except the
    names of the class, from the first binding of each key. *)
Lemma fill_missing_lookup cls basics (self : object) name :
  fill_missing cls basics self !! name
  = match self !! name with
    | Some v => Some v
    | None =>
        if decide (name ∈ cls) then None
        else (list_to_map basics : gmap string value) !! name
    end.
Proof.
  revert self. induction basics as [|[key_state value_state] basics IH];
    intros self.
  - cbn. rewrite lookup_empty. destruct (self !! name); [done|].
    by case_decide.
  - change (fill_missing cls ((key_state, value_state) :: basics) self)
      with (fill_missing cls basics
              (if hasattr cls self key_state then self
               else setattr self key_state value_state)).
    cbn [list_to_map foldr uncurry fst snd]. unfold hasattr, setattr.
    case_bool_decide as Hhas.
    + rewrite IH. destruct (self !! name) eqn:Hname; [done|].
      case_decide as Hcls; [done|].
      rewrite lookup_insert_ne; [done|]. intros ->.
      destruct Hhas as [[v Hv]|Hin]; [congruence|done].
    + assert (self !! key_state = None) as Hkey.
      { destruct (self !! key_state) eqn:Hk; [|done].
        exfalso. apply Hhas. left. eauto. }
      rewrite IH. destruct (decide (key_state = name)) as [->|Hne].
      * rewrite Hkey, !lookup_insert_eq. rewrite decide_False; [done|].
        intros Hin. apply Hhas. by right.
      * by rewrite !lookup_insert_ne.
Qed.

Lemma falcon_add_jax_args_lookup cls a (self : object) name :
  Falcon.add_jax_args cls a self !! name
  = if decide (name = "from_pt") then Some (VBool false)
    else match assign (sharding_values (Falcon.sharding a)) self !! name with
         | Some v => Some v
         | None =>
             if decide (name ∈ cls) then None
             else (list_to_map (Falcon.basics a) : gmap string value) !! name
         end.
Proof.
  unfold Falcon.add_jax_args, setattr. rewrite assign_sharding_assign.
  case_decide as Hname.
  - subst. by rewrite lookup_insert_eq.
  - rewrite lookup_insert_ne by done. apply fill_missing_lookup.
Qed.

Lemma falcon_add_jax_args_idempotent cls a (self : object) :
  Falcon.add_jax_args cls a (Falcon.add_jax_args cls a self)
  = Falcon.add_jax_args cls a self.
Proof.
  apply map_eq. intros name.
  rewrite (falcon_add_jax_args_lookup cls a (Falcon.add_jax_args cls a self)).
  rewrite (falcon_add_jax_args_lookup cls a self).
  case_decide as Hname; [done|].
  set (sv := sharding_values (Falcon.sharding a)).
  destruct (decide (name ∈ sv.*1)) as [Hin|Hnot].
  - apply list_elem_of_fmap in Hin as ([name' v] & -> & Hin).
    cbn [fst]. by rewrite !(assign_lookup_in sv _ name' v)
      by (done || apply sharding_values_NoDup).
  - rewrite !assign_lookup_notin by done.
    rewrite falcon_add_jax_args_lookup. rewrite decide_False by done.
    fold sv. rewrite assign_lookup_notin by done.
    destruct (self !! name); [done|]. case_decide; [done|].
    by destruct (list_to_map _ !! name).
Qed.

(** C6, as amended.  [add_jax_args] assigns the sharding fields
    ([axis_names], [axis_dims], [q_ps], [k_ps], [v_ps], [b_ps], [a_ps],
    [backend]) from its arguments whatever the object held; Falcon's
    version also sets [from_pt], and fills each hyperparameter of [basics]
    only when the object has no attribute of that name, so that every other
    existing attribute keeps its value; Mistral's version assigns all its
    arguments and leaves every other attribute alone.  Calling either twice
    with the same arguments gives the same object as calling it once. *)
Theorem add_jax_args_assigns_and_fills (cls : gset string) (self : object) :
  (forall a : Falcon.Args,
     Falcon.add_jax_args cls a (Falcon.add_jax_args cls a self)
     = Falcon.add_jax_args cls a self
     /\ (forall name v, (name, v) ∈ Falcon.assigned a ->
           Falcon.add_jax_args cls a self !! name = Some v)
     /\ (forall name v, name ∉ (Falcon.assigned a).*1 ->
           self !! name = Some v ->
           Falcon.add_jax_args cls a self !! name = Some v)
     /\ (forall name, name ∉ (Falcon.assigned a).*1 ->
           self !! name = None -> name ∉ cls ->
           Falcon.add_jax_args cls a self !! name
           = (list_to_map (Falcon.basics a) : gmap string value) !! name))
  /\ (forall a : Mistral.Args,
       Mistral.add_jax_args a (Mistral.add_jax_args a self)
       = Mistral.add_jax_args a self
       /\ (forall name v, (name, v) ∈ Mistral.assignments a ->
             Mistral.add_jax_args a self !! name = Some v)
       /\ (forall name, name ∉ (Mistral.assignments a).*1 ->
             Mistral.add_jax_args a self !! name = self !! name)).
Proof.
  split; intros a.
  - split; [apply falcon_add_jax_args_idempotent|].
    assert (Hkeys : forall name, name ∉ (Falcon.assigned a).*1 ->
              name <> "from_pt"
              /\ name ∉ (sharding_values (Falcon.sharding a)).*1).
    { intros name Hnot. unfold Falcon.assigned in Hnot.
      rewrite fmap_app in Hnot. apply not_elem_of_app in Hnot as [H1 H2].
      split; [|done]. intros ->. apply H2. apply list_elem_of_here. }
    split; [|split].
    + intros name v Hin. rewrite falcon_add_jax_args_lookup.
      unfold Falcon.assigned in Hin. apply elem_of_app in Hin as [Hin|Hin].
      * rewrite decide_False.
        -- by rewrite (assign_lookup_in _ _ name v) by
             (done || apply sharding_values_NoDup).
        -- intros ->. apply (list_elem_of_fmap_2 fst) in Hin.
           rewrite sharding_values_keys in Hin. cbn in Hin.
           revert Hin. apply (bool_decide_unpack _). by vm_compute.
      * apply list_elem_of_singleton in Hin as [= -> ->]. by rewrite decide_True.
    + intros name v Hnot Hself. destruct (Hkeys name Hnot) as [Hne Hsv].
      rewrite falcon_add_jax_args_lookup, decide_False by done.
      by rewrite assign_lookup_notin, Hself.
    + intros name Hnot Hself Hcls. destruct (Hkeys name Hnot) as [Hne Hsv].
      rewrite falcon_add_jax_args_lookup, decide_False by done.
      rewrite assign_lookup_notin, Hself by done. by rewrite decide_False.
  - rewrite !mistral_add_jax_args_assign. split; [|split].
    + apply assign_idempotent, mistral_assignments_NoDup.
    + intros name v Hin. apply assign_lookup_in; [apply mistral_assignments_NoDup|done].
    + intros name Hnot. by apply assign_lookup_notin.
Qed.

End ConfigFacts.

(** C6, as stated, fails: an attribute that already exists is overwritten.
    An object that holds [axis_dims = (2, 4, 1, 1)] holds the default
    [(1, -1, 1, 1)] after [add_jax_args()]. *)
Lemma add_jax_args_overwrites_axis_dims :
  sharded_config !! "axis_dims"
  = Some (Config.VTuple [Config.VInt 2; Config.VInt 4; Config.VInt 1; Config.VInt 1])
  /\ Config.Falcon.add_jax_args ∅ Config.Falcon.defaults sharded_config !! "axis_dims"
     = Some (Config.VTuple [Config.VInt 1; Config.VInt (-1); Config.VInt 1; Config.VInt 1])
  /\ Config.Mistral.add_jax_args Config.Mistral.defaults sharded_config !! "axis_dims"
     = Some (Config.VTuple [Config.VInt 1; Config.VInt (-1); Config.VInt 1; Config.VInt 1]).
Proof. repeat split; vm_compute; reflexivity. Qed.

(** ** Python strings *)

Section StringFacts.
Import Transform.

Lemma append_nil s : "" +:+ s = s.
Proof. reflexivity. Qed.

Lemma append_cons c s1 s2 : String c s1 +:+ s2 = String c (s1 +:+ s2).
Proof. reflexivity. Qed.

Lemma substring_full s : String.substring 0 (String.length s) s = s.
Proof. induction s as [|c s IH]; cbn; [done|]. by rewrite IH. Qed.

Lemma substring_split s n :
  (n <= String.length s)%nat ->
  String.substring 0 n s +:+ String.substring n (String.length s - n) s = s.
Proof.
  revert n. induction s as [|c s IH]; intros [|n] Hn; cbn in *; try lia.
  - done.
  - by rewrite append_nil, substring_full.
  - by rewrite append_cons, IH by lia.
Qed.

Lemma length_append s1 s2 :
  String.length (s1 +:+ s2) = (String.length s1 + String.length s2)%nat.
Proof.
  induction s1 as [|c s1 IH]; [done|].
  rewrite append_cons. cbn. by rewrite IH.
Qed.

Lemma substring_append_l s1 s2 :
  String.substring 0 (String.length s1) (s1 +:+ s2) = s1.
Proof.
  induction s1 as [|c s1 IH]; [rewrite append_nil; by destruct s2|].
  rewrite append_cons. cbn. by rewrite IH.
Qed.

Lemma substring_append_r s1 s2 :
  String.substring (String.length s1) (String.length s2) (s1 +:+ s2) = s2.
Proof.
  induction s1 as [|c s1 IH]; [rewrite append_nil; apply substring_full|].
  rewrite append_cons. cbn. apply IH.
Qed.

(** [s[:-n]] removes a suffix of [n] characters. *)
Lemma drop_last_append s suffix :
  drop_last (String.length suffix) (s +:+ suffix) = s.
Proof.
  unfold drop_last. rewrite length_append.
  replace (_ + _ - _)%nat with (String.length s) by lia.
  apply substring_append_l.
Qed.

(** [s.endswith(suffix)] holds exactly when [s] is some prefix followed by
    the suffix, and the prefix is then [s[:-len(suffix)]]. *)
Lemma endswith_append s suffix : endswith (s +:+ suffix) suffix = true.
Proof.
  unfold endswith. rewrite length_append.
  replace (_ + _ - _)%nat with (String.length s) by lia.
  rewrite substring_append_r, String.eqb_refl.
  rewrite andb_true_r. apply Nat.leb_le. lia.
Qed.

Lemma endswith_drop_last s suffix :
  endswith s suffix = true ->
  s = drop_last (String.length suffix) s +:+ suffix.
Proof.
  unfold endswith, drop_last. intros Hends.
  apply andb_true_iff in Hends as [Hlen Heq].
  apply Nat.leb_le in Hlen. apply String.eqb_eq in Heq.
  pose proof (substring_split s (String.length s - String.length suffix)
                ltac:(lia)) as Hsplit.
  replace (String.length s - (String.length s - String.length suffix))%nat
    with (String.length suffix) in Hsplit by lia.
  rewrite Heq in Hsplit. by symmetry.
Qed.

(** [sub in s] holds exactly when [s] is [pre + sub + post]. *)
Lemma prefix_append sub post : String.prefix sub (sub +:+ post) = true.
Proof.
  induction sub as [|c sub IH]; [rewrite append_nil; by destruct post|].
  rewrite append_cons. cbn.
  destruct (ascii_dec c c); [done|congruence].
Qed.

Lemma prefix_inv sub s :
  String.prefix sub s = true -> exists post, s = sub +:+ post.
Proof.
  revert s. induction sub as [|c sub IH]; intros s Hp; [by exists s|].
  destruct s as [|c' s]; cbn in Hp; [done|].
  destruct (ascii_dec c c') as [->|]; [|done].
  destruct (IH s Hp) as [post ->]. by exists post.
Qed.

Lemma contains_spec sub s :
  contains sub s = true <-> exists pre post, s = pre +:+ sub +:+ post.
Proof.
  split.
  - induction s as [|c s IH]; cbn [contains]; intros Hc;
      apply orb_true_iff in Hc as [Hp|Hc]; try done.
    + destruct (prefix_inv _ _ Hp) as [post ->]. by exists "", post.
    + destruct (prefix_inv _ _ Hp) as [post ->]. by exists "", post.
    + destruct (IH Hc) as (pre & post & ->). by exists (String c pre), post.
  - intros (pre & post & ->). induction pre as [|c pre IH].
    + rewrite append_nil.
      destruct (sub +:+ post) eqn:Heq; cbn [contains];
        rewrite <- Heq, prefix_append; done.
    + rewrite append_cons. cbn [contains]. rewrite IH. apply orb_true_r.
Qed.

(** [s.split('.')]. *)
Lemma split_dots_nonempty s : split_dots s <> [].
Proof.
  destruct s as [|c s]; cbn; [done|].
  destruct (Ascii.eqb c "."); [done|]. by destruct (split_dots s).
Qed.

Lemma split_dots_append_segment s w :
  split_dots w = [w] ->
  split_dots (s +:+ String "." w) = split_dots s ++ [w].
Proof.
  intros Hw. induction s as [|c s IH].
  - rewrite append_nil. cbn [split_dots]. by rewrite Hw.
  - rewrite append_cons. cbn [split_dots].
    rewrite IH. destruct (Ascii.eqb c "."); [done|].
    destruct (split_dots s) eqn:Hs; [by apply split_dots_nonempty in Hs|done].
Qed.

End StringFacts.

(** ** The checkpoint transform *)

Section OrderedDictFacts.
Import Transform.
Context {K V : Type} `{EqDecision K}.
Implicit Types (d : list (K * V)).

Lemma dict_get_set_eq d k v : dict_get (dict_set d k v) k = Some v.
Proof.
  induction d as [|[k' v'] d IH]; cbn.
  - by rewrite decide_True.
  - destruct (decide (k' = k)) as [->|Hne]; cbn.
    + by rewrite decide_True.
    + by rewrite decide_False.
Qed.

Lemma dict_get_set_ne d k k' v :
  k' <> k -> dict_get (dict_set d k v) k' = dict_get d k'.
Proof.
  intros Hne. induction d as [|[k0 v0] d IH]; cbn.
  - by rewrite decide_False.
  - destruct (decide (k0 = k)) as [->|Hk]; cbn.
    + by rewrite !decide_False by done.
    + by rewrite IH.
Qed.

Lemma elem_of_dict_set_keys d k v k' :
  k' ∈ (dict_set d k v).*1 <-> k' = k \/ k' ∈ d.*1.
Proof.
  induction d as [|[k0 v0] d IH]; cbn.
  - rewrite list_elem_of_singleton, elem_of_nil. tauto.
  - destruct (decide (k0 = k)) as [->|Hk]; cbn; rewrite !elem_of_cons.
    + tauto.
    + rewrite IH. tauto.
Qed.

Lemma dict_set_NoDup d k v : NoDup d.*1 -> NoDup (dict_set d k v).*1.
Proof.
  induction d as [|[k0 v0] d IH]; cbn; intros Hnd.
  - apply NoDup_singleton.
  - apply NoDup_cons in Hnd as [Hnot Hnd].
    destruct (decide (k0 = k)) as [->|Hk]; cbn; apply NoDup_cons.
    + done.
    + split; [|by apply IH]. rewrite elem_of_dict_set_keys.
      intros [->|Hin]; done.
Qed.

Lemma dict_get_elem_of d k v :
  NoDup d.*1 -> dict_get d k = Some v <-> (k, v) ∈ d.
Proof.
  induction d as [|[k0 v0] d IH]; cbn; intros Hnd.
  - rewrite elem_of_nil. split; [done|tauto].
  - apply NoDup_cons in Hnd as [Hnot Hnd]. rewrite elem_of_cons.
    destruct (decide (k0 = k)) as [->|Hk].
    + split.
      * intros [= ->]. by left.
      * intros [[= ->]|Hin]; [done|]. exfalso. apply Hnot.
        apply list_elem_of_fmap. by exists (k, v).
    + rewrite IH by done. split; [by right|].
      intros [[= -> _]|Hin]; done.
Qed.

Lemma dict_get_foldl_notin (l : list (K * V)) d k :
  k ∉ l.*1 ->
  dict_get (foldl (fun d '(k, v) => dict_set d k v) d l) k = dict_get d k.
Proof.
  revert d. induction l as [|[k0 v0] l IH]; intros d Hnot; [done|].
  cbn [foldl]. cbn [fmap list_fmap fst] in Hnot.
  apply not_elem_of_cons in Hnot as [Hne Hnot].
  rewrite IH by done. by apply dict_get_set_ne.
Qed.

(** The value read back is the last one assigned under the key. *)
Lemma dict_get_foldl_last (l : list (K * V)) d i k v :
  l !! i = Some (k, v) ->
  (forall j kv, (i < j)%nat -> l !! j = Some kv -> kv.1 <> k) ->
  dict_get (foldl (fun d '(k, v) => dict_set d k v) d l) k = Some v.
Proof.
  revert d i. induction l as [|[k0 v0] l IH]; intros d i Hi Hlater.
  - by rewrite lookup_nil in Hi.
  - cbn [foldl]. destruct i as [|i]; cbn in Hi.
    + injection Hi as -> ->. rewrite dict_get_foldl_notin.
      * apply dict_get_set_eq.
      * intros Hin. apply list_elem_of_fmap in Hin as (kv & Hk & Hin).
        apply list_elem_of_lookup in Hin as [j Hj].
        apply (Hlater (S j) kv); [lia|done|done].
    + apply (IH _ i); [done|]. intros j kv Hlt Hj.
      apply (Hlater (S j) kv); [lia|done].
Qed.

Lemma dict_get_foldl_inv (l : list (K * V)) d k v :
  dict_get (foldl (fun d '(k, v) => dict_set d k v) d l) k = Some v ->
  dict_get d k = Some v \/ (k, v) ∈ l.
Proof.
  revert d. induction l as [|[k0 v0] l IH]; intros d Hl; [by left|].
  cbn [foldl] in Hl. apply IH in Hl as [Hd|Hin]; [|right; by right].
  destruct (decide (k = k0)) as [->|Hne].
  - rewrite dict_get_set_eq in Hd. injection Hd as ->. right. by left.
  - rewrite dict_get_set_ne in Hd by done. by left.
Qed.

Lemma foldl_dict_set_NoDup (l : list (K * V)) d :
  NoDup d.*1 -> NoDup (foldl (fun d '(k, v) => dict_set d k v) d l).*1.
Proof.
  revert d. induction l as [|[k0 v0] l IH]; intros d Hnd; [done|].
  cbn [foldl]. apply IH. by apply dict_set_NoDup.
Qed.

End OrderedDictFacts.

Section UnflattenFacts.
Import Transform.
Context {N : Type}.
Implicit Types (d : list (string * tree N)) (p q : list string).

Lemma prefix_free_spec (paths : list (list string)) :
  prefix_free paths
  <-> forall p q, p ∈ paths -> q ∈ paths -> p `prefix_of` q -> p = q.
Proof.
  unfold prefix_free. rewrite Forall_forall. split.
  - intros Hpf p q Hp Hq. specialize (Hpf p Hp).
    rewrite Forall_forall in Hpf. by apply Hpf.
  - intros Hpf p Hp. apply Forall_forall. intros q Hq. by apply Hpf.
Qed.

Lemma lookup_path_nil p : lookup_path ([] : list (string * tree N)) p = None.
Proof. by destruct p as [|k [|k' r]]. Qed.

Lemma set_path_cons_cons d k k' r (v : N) :
  set_path d (k :: k' :: r) v
  = match dict_get d k with
    | None =>
        sub ← set_path [] (k' :: r) v; Ok (dict_set d k (Dict sub))
    | Some (Dict sub) =>
        sub ← set_path sub (k' :: r) v; Ok (dict_set d k (Dict sub))
    | Some (Leaf _) =>
        Raise (IndexError "only integers, slices, ellipsis, numpy.newaxis and integer or boolean arrays are valid indices")
    end.
Proof. reflexivity. Qed.

Lemma lookup_path_cons_cons d k k' r :
  lookup_path d (k :: k' :: r)
  = match dict_get d k with
    | Some (Dict sub) => lookup_path sub (k' :: r)
    | _ => None
    end.
Proof. reflexivity. Qed.

Lemma lookup_path_singleton d k : lookup_path d [k] = dict_get d k.
Proof. reflexivity. Qed.

Lemma lookup_path_set_ne d k x k0 qr :
  k0 <> k -> lookup_path (dict_set d k x) (k0 :: qr) = lookup_path d (k0 :: qr).
Proof.
  intros Hne. destruct qr as [|q0 qr].
  - by rewrite !lookup_path_singleton, dict_get_set_ne.
  - by rewrite !lookup_path_cons_cons, dict_get_set_ne.
Qed.

(** A round of the loop succeeds unless it has to walk into an array. *)
Lemma set_path_Ok p : forall d v,
  p <> [] ->
  (forall q a, lookup_path d q = Some (Leaf a) -> q `prefix_of` p -> q = p) ->
  exists d', set_path d p v = Ok d'.
Proof.
  induction p as [|k rest IH]; intros d v Hne Hleaf; [done|].
  destruct rest as [|k' r]; [by eexists|].
  rewrite set_path_cons_cons.
  destruct (dict_get d k) as [[a|sub]|] eqn:Hk.
  - exfalso. assert (Heq : [k] = k :: k' :: r); [|done].
    apply (Hleaf [k] a); [done|]. by exists (k' :: r).
  - destruct (IH sub v) as [sub' ->]; [done| |by eexists].
    intros q a Hq Hpre.
    assert (Heq : k :: q = k :: k' :: r); [|by injection Heq].
    apply (Hleaf (k :: q) a); [|by apply prefix_cons].
    destruct q as [|q0 qr]; [done|]. by rewrite lookup_path_cons_cons, Hk.
  - destruct (IH [] v) as [sub' ->]; [done| |by eexists].
    intros q a Hq. by rewrite lookup_path_nil in Hq.
Qed.

Lemma lookup_set_path_eq p : forall d d' v,
  set_path d p v = Ok d' -> lookup_path d' p = Some (Leaf v).
Proof.
  induction p as [|k rest IH]; intros d d' v Hset; [done|].
  destruct rest as [|k' r].
  - injection Hset as <-. cbn. apply dict_get_set_eq.
  - rewrite set_path_cons_cons in Hset.
    destruct (dict_get d k) as [[a|sub]|]; [done| |].
    + destruct (set_path sub (k' :: r) v) as [sub'|] eqn:Hsub; [|done].
      injection Hset as <-. rewrite lookup_path_cons_cons, dict_get_set_eq.
      by apply (IH sub).
    + destruct (set_path [] (k' :: r) v) as [sub'|] eqn:Hsub; [|done].
      injection Hset as <-. rewrite lookup_path_cons_cons, dict_get_set_eq.
      by apply (IH []).
Qed.

(** A round of the loop leaves the paths alone that do not lie on the
    path it writes. *)
Lemma lookup_set_path_ne p : forall d d' v q,
  set_path d p v = Ok d' ->
  ~ p `prefix_of` q -> ~ q `prefix_of` p ->
  lookup_path d' q = lookup_path d q.
Proof.
  induction p as [|k rest IH]; intros d d' v q Hset Hpq Hqp; [done|].
  destruct q as [|k0 qr]; [exfalso; apply Hqp, prefix_nil|].
  destruct (decide (k0 = k)) as [->|Hne].
  - destruct rest as [|k' r].
    { exfalso. apply Hpq. by exists qr. }
    destruct qr as [|q0 qr].
    { exfalso. apply Hqp. by exists (k' :: r). }
    assert (Hpq' : ~ (k' :: r) `prefix_of` (q0 :: qr))
      by (intros Hp; by apply Hpq, prefix_cons).
    assert (Hqp' : ~ (q0 :: qr) `prefix_of` (k' :: r))
      by (intros Hp; by apply Hqp, prefix_cons).
    rewrite set_path_cons_cons in Hset. rewrite !lookup_path_cons_cons.
    destruct (dict_get d k) as [[a|sub]|] eqn:Hk; [done| |].
    + destruct (set_path sub (k' :: r) v) as [sub'|] eqn:Hsub; [|done].
      injection Hset as <-. rewrite dict_get_set_eq.
      by apply (IH sub sub' v).
    + destruct (set_path [] (k' :: r) v) as [sub'|] eqn:Hsub; [|done].
      injection Hset as <-. rewrite dict_get_set_eq.
      rewrite (IH [] sub' v (q0 :: qr) Hsub Hpq' Hqp').
      apply lookup_path_nil.
  - assert (exists x, d' = dict_set d k x) as [x ->].
    { destruct rest as [|k' r]; [injection Hset as <-; by eexists|].
      rewrite set_path_cons_cons in Hset.
      destruct (dict_get d k) as [[a|sub]|]; [done| |].
      - destruct (set_path sub _ v); [|done]. injection Hset as <-. by eexists.
      - destruct (set_path [] _ v); [|done]. injection Hset as <-. by eexists. }
    by apply lookup_path_set_ne.
Qed.

(** The arrays of the dict after a round are the one just written and
    arrays that were there before. *)
Lemma lookup_set_path_leaf p : forall d d' v q a,
  set_path d p v = Ok d' ->
  lookup_path d' q = Some (Leaf a) ->
  (q = p /\ a = v) \/ lookup_path d q = Some (Leaf a).
Proof.
  induction p as [|k rest IH]; intros d d' v q a Hset Hq; [done|].
  destruct q as [|k0 qr]; [done|].
  destruct (decide (k0 = k)) as [->|Hne].
  - destruct rest as [|k' r].
    + injection Hset as <-. destruct qr as [|q0 qr].
      * rewrite lookup_path_singleton, dict_get_set_eq in Hq.
        injection Hq as <-. by left.
      * by rewrite lookup_path_cons_cons, dict_get_set_eq in Hq.
    + rewrite set_path_cons_cons in Hset.
      destruct (dict_get d k) as [[a'|sub]|] eqn:Hk; [done| |].
      * destruct (set_path sub (k' :: r) v) as [sub'|] eqn:Hsub; [|done].
        injection Hset as <-.
        destruct qr as [|q0 qr];
          [by rewrite lookup_path_singleton, dict_get_set_eq in Hq|].
        rewrite lookup_path_cons_cons, dict_get_set_eq in Hq.
        destruct (IH sub sub' v _ a Hsub Hq) as [[-> ->]|Hold]; [by left|].
        right. by rewrite lookup_path_cons_cons, Hk.
      * destruct (set_path [] (k' :: r) v) as [sub'|] eqn:Hsub; [|done].
        injection Hset as <-.
        destruct qr as [|q0 qr];
          [by rewrite lookup_path_singleton, dict_get_set_eq in Hq|].
        rewrite lookup_path_cons_cons, dict_get_set_eq in Hq.
        destruct (IH [] sub' v _ a Hsub Hq) as [[-> ->]|Hold]; [by left|].
        by rewrite lookup_path_nil in Hold.
  - right. rewrite <- Hq.
    assert (exists x, d' = dict_set d k x) as [x ->].
    { destruct rest as [|k' r]; [injection Hset as <-; by eexists|].
      rewrite set_path_cons_cons in Hset.
      destruct (dict_get d k) as [[a'|sub]|]; [done| |].
      - destruct (set_path sub _ v); [|done]. injection Hset as <-. by eexists.
      - destruct (set_path [] _ v); [|done]. injection Hset as <-. by eexists. }
    symmetry. by apply lookup_path_set_ne.
Qed.

Lemma unflatten_foldl_Raise (xs : list (list string * N)) e :
  foldl (fun result '(path, value) =>
           result ← result; set_path result path value)
        (Raise e) xs
  = Raise e.
Proof. induction xs as [|[p v] xs IH]; [done|]. apply IH. Qed.

(** Every array of the nested dict was an entry of the flat one. *)
Lemma unflatten_foldl_leaves (xs : list (list string * N)) : forall d flax,
  foldl (fun result '(path, value) =>
           result ← result; set_path result path value)
        (Ok d) xs
  = Ok flax ->
  forall q a, lookup_path flax q = Some (Leaf a) ->
    (q, a) ∈ xs \/ lookup_path d q = Some (Leaf a).
Proof.
  induction xs as [|[p v] xs IH]; intros d flax Hfold q a Hq.
  - injection Hfold as <-. by right.
  - cbn [foldl mbind result_bind] in Hfold.
    destruct (set_path d p v) as [d'|e] eqn:Hset;
      [|by rewrite unflatten_foldl_Raise in Hfold].
    destruct (IH d' flax Hfold q a Hq) as [Hin|Hold]; [left; by right|].
    destruct (lookup_set_path_leaf p d d' v q a Hset Hold) as [[-> ->]|Hd];
      [left; by left|by right].
Qed.

(** On paths none of which is a proper prefix of another, the loop of
    [unflatten_dict] succeeds and every entry is found under its path. *)
Lemma unflatten_foldl_prefix_free (xs : list (list string * N)) :
  forall d (done_ : list (list string)),
    (forall q a, lookup_path d q = Some (Leaf a) -> q ∈ done_) ->
    NoDup (done_ ++ xs.*1) ->
    prefix_free (done_ ++ xs.*1) ->
    Forall (fun p => p <> []) xs.*1 ->
    exists flax,
      foldl (fun result '(path, value) =>
               result ← result; set_path result path value)
            (Ok d) xs
      = Ok flax
      /\ (forall p v, (p, v) ∈ xs -> lookup_path flax p = Some (Leaf v))
      /\ (forall q, q ∈ done_ -> lookup_path flax q = lookup_path d q).
Proof.
  induction xs as [|[p v] xs IH]; intros d done_ Hleaf Hnd Hpf Hne.
  - exists d. split; [done|]. split; [|done].
    intros p v Hin. by apply elem_of_nil in Hin.
  - cbn [fmap list_fmap fst] in *.
    apply Forall_cons in Hne as [Hp Hne].
    pose proof (proj1 (prefix_free_spec _) Hpf) as Hfree.
    assert (Hpin : p ∈ done_ ++ p :: xs.*1)
      by (apply elem_of_app; right; by left).
    assert (Hpnot : p ∉ done_).
    { apply NoDup_app in Hnd as (_ & Hdisj & _). intros Hin.
      apply (Hdisj p Hin). by left. }
    destruct (set_path_Ok p d v Hp) as [d' Hset].
    { intros q a Hq Hpre. apply Hfree; [|done|done].
      apply elem_of_app. left. by eapply Hleaf. }
    cbn [foldl mbind result_bind]. rewrite Hset.
    destruct (IH d' (done_ ++ [p])) as (flax & Hfold & Hxs & Hdone).
    + intros q a Hq. apply elem_of_app.
      destruct (lookup_set_path_leaf p d d' v q a Hset Hq) as [[-> _]|Hd];
        [right; by left|left; by eapply Hleaf].
    + by rewrite <- app_assoc.
    + by rewrite <- app_assoc.
    + done.
    + exists flax. split; [done|]. split.
      * intros p' v' Hin. apply elem_of_cons in Hin as [[= -> ->]|Hin];
          [|by apply Hxs].
        rewrite Hdone by (apply elem_of_app; right; by left).
        by eapply lookup_set_path_eq.
      * intros q Hq. rewrite Hdone by (apply elem_of_app; by left).
        assert (Hqin : q ∈ done_ ++ p :: xs.*1)
          by (apply elem_of_app; by left).
        apply (lookup_set_path_ne p d d' v); [done| |].
        -- intros Hpre. apply Hpnot.
           by rewrite (Hfree p q Hpin Hqin Hpre).
        -- intros Hpre. apply Hpnot.
           by rewrite <- (Hfree q p Hqin Hpin Hpre).
Qed.

Lemma unflatten_dict_prefix_free (xs : list (list string * N)) :
  NoDup xs.*1 -> prefix_free xs.*1 -> Forall (fun p => p <> []) xs.*1 ->
  exists flax,
    unflatten_dict xs = Ok flax
    /\ forall p v, (p, v) ∈ xs -> lookup_path flax p = Some (Leaf v).
Proof.
  intros Hnd Hpf Hne.
  destruct (unflatten_foldl_prefix_free xs [] []) as (flax & Hfold & Hxs & _);
    try done.
  - intros q a Hq. by rewrite lookup_path_nil in Hq.
  - by exists flax.
Qed.

Lemma unflatten_dict_leaves (xs : list (list string * N)) flax q a :
  unflatten_dict xs = Ok flax ->
  lookup_path flax q = Some (Leaf a) -> (q, a) ∈ xs.
Proof.
  intros Hfold Hq.
  destruct (unflatten_foldl_leaves xs [] flax Hfold q a Hq) as [Hin|Hnil];
    [done|]. by rewrite lookup_path_nil in Hnil.
Qed.

Lemma prefix_free_subseteq (l l' : list (list string)) :
  prefix_free l -> (forall p, p ∈ l' -> p ∈ l) -> prefix_free l'.
Proof.
  rewrite !prefix_free_spec. intros Hpf Hsub p q Hp Hq.
  apply Hpf; by apply Hsub.
Qed.

End UnflattenFacts.

Section TransformFacts.
Import Sharding Transform.
Context {T N : Type} `{TensorOps T N}.

(** The flat dictionary is filled with the converted items, in order. *)
Lemma flax_dict_foldl (state_dict : list (string * T)) emb dtype :
  flax_dict state_dict emb dtype
  = foldl (fun d '(k, v) => dict_set d k v) []
          (convert_item emb dtype <$> state_dict).
Proof.
  unfold flax_dict. generalize (@nil (list string * N)).
  induction state_dict as [|item sd IH]; intros acc; [done|].
  cbn [foldl fmap list_fmap]. rewrite IH.
  by destruct (convert_item emb dtype item).
Qed.

Lemma flax_dict_NoDup (state_dict : list (string * T)) emb dtype :
  NoDup (flax_dict state_dict emb dtype).*1.
Proof. rewrite flax_dict_foldl. apply foldl_dict_set_NoDup. constructor. Qed.

Lemma flax_dict_elem_of (state_dict : list (string * T)) emb dtype p v :
  (p, v) ∈ flax_dict state_dict emb dtype ->
  (p, v) ∈ convert_item emb dtype <$> state_dict.
Proof.
  intros Hin. apply dict_get_elem_of in Hin; [|apply flax_dict_NoDup].
  rewrite flax_dict_foldl in Hin.
  by apply dict_get_foldl_inv in Hin as [Hnil|Hin].
Qed.

(** An item is in the flat dictionary under its path when no later item is
    stored under the same path. *)
Lemma flax_dict_last (state_dict : list (string * T)) emb dtype i item :
  state_dict !! i = Some item ->
  (forall j item', (i < j)%nat -> state_dict !! j = Some item' ->
     (convert_item emb dtype item').1 <> (convert_item emb dtype item).1) ->
  convert_item emb dtype item ∈ flax_dict state_dict emb dtype.
Proof.
  intros Hi Hlater.
  destruct (convert_item emb dtype item) as [p v] eqn:Hconv.
  apply dict_get_elem_of; [apply flax_dict_NoDup|].
  rewrite flax_dict_foldl. apply (dict_get_foldl_last _ _ i).
  - by rewrite list_lookup_fmap, Hi, <- Hconv.
  - intros j kv Hlt Hj. rewrite list_lookup_fmap in Hj.
    destruct (state_dict !! j) as [item'|] eqn:Hj'; [|done].
    injection Hj as <-. by apply (Hlater j).
Qed.

Lemma convert_item_path_nonempty emb dtype (item : string * T) :
  (convert_item emb dtype item).1 <> [].
Proof.
  destruct item as [key t]. unfold convert_item.
  destruct (if contains _ key then _ else _) as [key' t'].
  apply split_dots_nonempty.
Qed.

(** When no converted path is a proper prefix of another, the nested
    dictionary is built and holds every entry of the flat one. *)
Lemma huggingface_to_easydel_Ok (state_dict : list (string * T)) emb dtype :
  prefix_free ((fun item => (convert_item emb dtype item).1) <$> state_dict) ->
  exists flax,
    huggingface_to_easydel state_dict emb dtype = Ok flax
    /\ forall p v, (p, v) ∈ flax_dict state_dict emb dtype ->
         lookup_path flax p = Some (Leaf v).
Proof.
  intros Hpf. unfold huggingface_to_easydel.
  assert (Hsub : forall p, p ∈ (flax_dict state_dict emb dtype).*1 ->
            p ∈ (fun item => (convert_item emb dtype item).1) <$> state_dict).
  { intros p Hp. apply list_elem_of_fmap in Hp as ([p' v] & -> & Hin).
    apply flax_dict_elem_of, list_elem_of_fmap in Hin as (item & Heq & Hin).
    apply list_elem_of_fmap. exists item. split; [|done]. by rewrite <- Heq. }
  apply unflatten_dict_prefix_free.
  - apply flax_dict_NoDup.
  - by eapply prefix_free_subseteq.
  - apply Forall_forall. intros p Hp.
    apply Hsub, list_elem_of_fmap in Hp as (item & -> & _).
    apply convert_item_path_nonempty.
Qed.

Lemma huggingface_to_easydel_lookup (state_dict : list (string * T)) emb dtype
    i item :
  state_dict !! i = Some item ->
  (forall j item', (i < j)%nat -> state_dict !! j = Some item' ->
     (convert_item emb dtype item').1 <> (convert_item emb dtype item).1) ->
  prefix_free ((fun item => (convert_item emb dtype item).1) <$> state_dict) ->
  exists flax,
    huggingface_to_easydel state_dict emb dtype = Ok flax
    /\ lookup_path flax (convert_item emb dtype item).1
       = Some (Leaf (convert_item emb dtype item).2).
Proof.
  intros Hi Hlater Hpf.
  destruct (huggingface_to_easydel_Ok state_dict emb dtype Hpf)
    as (flax & Hflax & Hall).
  exists flax. split; [done|]. apply Hall.
  pose proof (flax_dict_last state_dict emb dtype i item Hi Hlater) as Hin.
  by destruct (convert_item emb dtype item).
Qed.

(** Every array of the returned dictionary is the conversion of an item. *)
Lemma huggingface_to_easydel_leaf (state_dict : list (string * T)) emb dtype
    flax p a :
  huggingface_to_easydel state_dict emb dtype = Ok flax ->
  lookup_path flax p = Some (Leaf a) ->
  (p, a) ∈ convert_item emb dtype <$> state_dict.
Proof.
  intros Hflax Hp. apply flax_dict_elem_of.
  by eapply unflatten_dict_leaves.
Qed.

(** What the loop body stores for an item follows the conversion rules,
    provided an embedding path ends in [.weight]. *)
Lemma convert_item_converts emb dtype key (t : T) :
  (contains emb key = true -> endswith key ".weight" = true) ->
  exists key' t',
    converts emb (key, t) (key', t')
    /\ convert_item emb dtype (key, t) = (split_dots key', to_numpy dtype t').
Proof.
  intros Hemb. unfold convert_item. fold (kernel_rule key).
  destruct (contains emb key) eqn:Hc.
  - pose proof (endswith_drop_last _ _ (Hemb eq_refl)) as Hkey.
    change (String.length ".weight") with _l in Hkey.
    exists (drop_last _l key +:+ ".embedding"), t. split; [|done].
    rewrite Hkey at 1. constructor. by rewrite <- Hkey.
  - destruct (kernel_rule key) eqn:Hk.
    + fold (transpose_if_2d t).
      destruct (endswith key ".weight") eqn:He.
      * pose proof (endswith_drop_last _ _ He) as Hkey.
        change (String.length ".weight") with _l in Hkey.
        exists (drop_last _l key +:+ ".kernel"), (transpose_if_2d t).
        split; [|done]. rewrite Hkey at 1.
        apply conv_kernel_weight; by rewrite <- Hkey.
      * exists key, (transpose_if_2d t). split; [|done].
        by apply conv_kernel_other.
    + exists key, t. split; [|done]. by apply conv_other.
Qed.


(** C10.  The embedding rule comes first.  For every item whose key
    contains the embedding layer name, whatever the shape of its tensor and
    whether or not the key also satisfies the kernel rule, the tensor that is
    stored is the conversion of the tensor itself, not of its transpose, and
    the path it is stored under ends in the segment [embedding], not
    [kernel]; this is what the returned nested dictionary holds under that
    path, when no later item is stored under the same path and no converted
    path is a proper prefix of another one. *)
Theorem embedding_rule_precedes_kernel_rule (state_dict : list (string * T))
    (embedding_layer_name : string) (dtype : DType) (i : nat) (key : string)
    (t : T) :
  state_dict !! i = Some (key, t) ->
  contains embedding_layer_name key = true ->
  let path := split_dots (drop_last _l key) ++ ["embedding"] in
  convert_item embedding_layer_name dtype (key, t) = (path, to_numpy dtype t)
  /\ last path = Some "embedding"
  /\ last path <> Some "kernel"
  /\ ((forall j item', (i < j)%nat -> state_dict !! j = Some item' ->
         (convert_item embedding_layer_name dtype item').1 <> path) ->
      prefix_free ((fun item =>
                      (convert_item embedding_layer_name dtype item).1)
                     <$> state_dict) ->
      exists flax,
        huggingface_to_easydel state_dict embedding_layer_name dtype = Ok flax
        /\ lookup_path flax path = Some (Leaf (to_numpy dtype t))).
Proof.
  intros Hi Hc path.
  assert (Hconv : convert_item embedding_layer_name dtype (key, t)
                  = (path, to_numpy dtype t)).
  { unfold convert_item. rewrite Hc. subst path.
    by rewrite (split_dots_append_segment _ "embedding"). }
  split; [done|]. subst path. rewrite last_snoc.
  split; [done|]. split; [done|].
  intros Hlater Hpf.
  pose proof (huggingface_to_easydel_lookup state_dict embedding_layer_name
                dtype i (key, t) Hi) as Hlook.
  rewrite Hconv in Hlook. by apply Hlook.
Qed.

End TransformFacts.

Lemma example_state_dict_prefix_free :
  Transform.prefix_free
    ((fun item => (Transform.convert_item "wte" Sharding.float16 item).1)
       <$> example_state_dict).
Proof. apply (bool_decide_unpack _). vm_compute. exact I. Qed.


Lemma embedding_rule_precedes_kernel_rule_witness :
  Transform.convert_item "wte" Sharding.float16
    ("transformer.wte.kernel.weight", Transform.Mat [[1; 2]; [3; 4]])
  = (["transformer"; "wte"; "kernel"; "embedding"],
     (Sharding.float16, Transform.Mat [[1; 2]; [3; 4]])).
Proof.
  destruct (embedding_rule_precedes_kernel_rule example_state_dict "wte"
              Sharding.float16 4%nat "transformer.wte.kernel.weight"
              (Transform.Mat [[1; 2]; [3; 4]])) as [Hconv _];
    [reflexivity | reflexivity | exact Hconv].
Defined.

Example huggingface_to_easydel_example :
  Transform.huggingface_to_easydel example_state_dict "wte" Sharding.float16
  = Ok [("transformer",
         Transform.Dict
           [("wte",
             Transform.Dict
               [("embedding",
                 Transform.Leaf
                   (Sharding.float16, Transform.Mat [[1; 2]; [3; 4]; [5; 6]]));
                ("kernel",
                 Transform.Dict
                   [("embedding",
                     Transform.Leaf
                       (Sharding.float16, Transform.Mat [[1; 2]; [3; 4]]))])]);
            ("h",
             Transform.Dict
               [("0",
                 Transform.Dict
                   [("attn",
                     Transform.Dict
                       [("kernel",
                         Transform.Dict
                           [("kernel",
                             Transform.Leaf
                               (Sharding.float16,
                                Transform.Mat [[1; 3]; [2; 4]]))])]);
                    ("ln",
                     Transform.Dict
                       [("kernel",
                         Transform.Dict
                           [("kernel",
                             Transform.Leaf
                               (Sharding.float16, Transform.Vec [7; 8; 9]))])]);
                    ("mlp",
                     Transform.Dict
                       [("weight",
                         Transform.Leaf
                           (Sharding.float16,
                            Transform.Mat [[1; 2]; [3; 4]]))])])])])].
Proof. vm_compute. reflexivity. Qed.

(** When a converted path is a proper prefix of another one,
    [unflatten_dict] drops the longer entry, if the shorter comes later, or
    fails on indexing an array, if the shorter comes first. *)
Example huggingface_to_easydel_prefix_later :
  Transform.huggingface_to_easydel
    [("a.b", Transform.Vec [1]); ("a", Transform.Vec [2])] "wte"
    Sharding.float16
  = Ok [("a", Transform.Leaf (Sharding.float16, Transform.Vec [2]))].
Proof. vm_compute. reflexivity. Qed.

Example huggingface_to_easydel_prefix_first :
  exists msg,
    Transform.huggingface_to_easydel
      [("a", Transform.Vec [2]); ("a.b", Transform.Vec [1])] "wte"
      Sharding.float16
    = Raise (IndexError msg).
Proof. eexists. vm_compute. reflexivity. Qed.


(** ** The alibi bias *)

Section AlibiFacts.
Import Pretrained Alibi.

Lemma all_pairs_lookup {X} (r : X -> X -> bool) (l : list X) :
  forall i j x y,
    all_pairs r l = true -> (i < j)%nat ->
    l !! i = Some x -> l !! j = Some y -> r x y = true.
Proof.
  induction l as [|z l IH]; intros i j x y Hall Hij Hi Hj.
  - by rewrite lookup_nil in Hi.
  - cbn [all_pairs] in Hall. apply andb_true_iff in Hall as [Hz Hl].
    destruct i as [|i], j as [|j]; try lia.
    + cbn in Hi, Hj. injection Hi as ->. rewrite forallb_forall in Hz.
      apply Hz, list_elem_of_In. by eapply list_elem_of_lookup_2.
    + cbn in Hi, Hj. apply (IH i j); [done|lia|done|done].
Qed.

Lemma strictly_increasing_table_true (k : Z) :
  0 <= k <= 3 -> strictly_increasing_table k = true.
Proof.
  intros Hk.
  assert (k = 0 \/ k = 1 \/ k = 2 \/ k = 3) as [->|[->|[->| ->]]] by lia;
    by vm_compute.
Qed.

(** Over the first 257 valid tokens the bias of a head grows strictly. *)
Lemma bias_strict (k h c c' : Z) :
  0 <= k <= 3 -> 0 <= h < 2 ^ k -> 0 <= c < c' -> c' <= 256 ->
  ltb (bias k h c) (bias k h c') = true.
Proof.
  intros Hk Hh Hc Hc'.
  pose proof (strictly_increasing_table_true k Hk) as Htable.
  unfold strictly_increasing_table in Htable.
  rewrite forallb_forall in Htable.
  assert (Hin : In h (seqZ 0 (2 ^ k))).
  { apply list_elem_of_In, elem_of_seqZ. lia. }
  apply (all_pairs_lookup _ _ (Z.to_nat c) (Z.to_nat c') _ _ (Htable h Hin));
    [lia| |].
  - rewrite list_lookup_fmap, lookup_seqZ_lt by lia. cbn. do 2 f_equal. lia.
  - rewrite list_lookup_fmap, lookup_seqZ_lt by lia. cbn. do 2 f_equal. lia.
Qed.

Lemma base_exact (lib : Library) (k : Z) :
  exact_where_representable lib -> 0 <= k <= 3 ->
  base lib k = pow2 binary32 (- 2 ^ (3 - k)).
Proof.
  intros [Hpow2 _] Hk. unfold base.
  assert (k = 0 \/ k = 1 \/ k = 2 \/ k = 3) as [->|[->|[->| ->]]] by lia.
  - rewrite (Hpow2 (neg (of_Z binary64 (0 - 3))) (pow2 binary64 3))
      by (vm_compute; reflexivity).
    rewrite (Hpow2 (neg (pow2 binary64 3)) (pow2 binary64 (-8)))
      by (vm_compute; reflexivity).
    vm_compute. reflexivity.
  - rewrite (Hpow2 (neg (of_Z binary64 (1 - 3))) (pow2 binary64 2))
      by (vm_compute; reflexivity).
    rewrite (Hpow2 (neg (pow2 binary64 2)) (pow2 binary64 (-4)))
      by (vm_compute; reflexivity).
    vm_compute. reflexivity.
  - rewrite (Hpow2 (neg (of_Z binary64 (2 - 3))) (pow2 binary64 1))
      by (vm_compute; reflexivity).
    rewrite (Hpow2 (neg (pow2 binary64 1)) (pow2 binary64 (-2)))
      by (vm_compute; reflexivity).
    vm_compute. reflexivity.
  - rewrite (Hpow2 (neg (of_Z binary64 (3 - 3))) (pow2 binary64 0))
      by (vm_compute; reflexivity).
    rewrite (Hpow2 (neg (pow2 binary64 0)) (pow2 binary64 (-1)))
      by (vm_compute; reflexivity).
    vm_compute. reflexivity.
Qed.

Lemma power_exact (lib : Library) (k : Z) (i : nat) :
  exact_where_representable lib -> 0 <= k <= 3 -> Z.of_nat i < 2 ^ k ->
  jnp_power lib (pow2 binary32 (- 2 ^ (3 - k)))
    (of_Z binary32 (1 + Z.of_nat i))
  = pow2 binary32 (- 2 ^ (3 - k) * (Z.of_nat i + 1)).
Proof.
  intros [_ Hpower] Hk Hi. apply Hpower.
  assert (k = 0 \/ k = 1 \/ k = 2 \/ k = 3) as [->|[->|[->| ->]]] by lia;
    do 8 (destruct i as [|i]; [vm_compute; reflexivity|]);
    lia.
Qed.

(** On a power of two of at most eight heads the slopes are the powers
    [2 ^ (-(8 / n) * (h + 1))], exactly. *)
Lemma slopes_power_of_two (lib : Library) (k : Z) :
  exact_where_representable lib -> 0 <= k <= 3 ->
  slopes lib (2 ^ k)
  = Ok ((fun h => pow2 binary32 (- 2 ^ (3 - k) * (h + 1))) <$> seqZ 0 (2 ^ k)).
Proof.
  intros Hlib Hk. unfold slopes.
  assert (Hpos : 0 < 2 ^ k) by (apply Z.pow_pos_nonneg; lia).
  destruct (Z.leb_spec (2 ^ k) 0) as [|_]; [lia|].
  rewrite Z.log2_pow2 by lia. cbv zeta. rewrite Z.eqb_refl.
  rewrite (base_exact lib k Hlib Hk). f_equal.
  apply list_eq. intros i. rewrite !list_lookup_fmap.
  destruct (decide (Z.of_nat i < 2 ^ k)) as [Hi|Hi].
  - rewrite !lookup_seqZ_lt by lia. cbn [fmap option_fmap option_map].
    f_equal. rewrite (power_exact lib k i Hlib Hk Hi).
    by rewrite Z.add_0_l.
  - by rewrite !lookup_seqZ_ge by lia.
Qed.

Lemma valid_upto_0 (x : Z) (row : list Z) :
  valid_upto (x :: row) 0 = if decide (x = 1) then 1 else 0.
Proof.
  unfold valid_upto. cbn [take]. rewrite take_0.
  destruct (decide (x = 1)) as [->|Hx].
  - by rewrite filter_cons_True.
  - by rewrite filter_cons_False.
Qed.

Lemma valid_upto_S (x : Z) (row : list Z) (j : nat) :
  valid_upto (x :: row) (S j)
  = (if decide (x = 1) then 1 else 0) + valid_upto row j.
Proof.
  unfold valid_upto. cbn [take].
  destruct (decide (x = 1)) as [->|Hx].
  - rewrite filter_cons_True by done. cbn [length]. lia.
  - rewrite filter_cons_False by done. lia.
Qed.

Lemma valid_upto_nonneg (row : list Z) (j : nat) : 0 <= valid_upto row j.
Proof. unfold valid_upto. lia. Qed.

Lemma valid_upto_valid (row : list Z) : forall j,
  row !! j = Some 1 -> 1 <= valid_upto row j.
Proof.
  induction row as [|x row IH]; intros [|j] Hj; try done.
  - injection Hj as ->. rewrite valid_upto_0. by rewrite decide_True.
  - rewrite valid_upto_S. specialize (IH j Hj).
    destruct (decide (x = 1)); lia.
Qed.

Lemma valid_upto_lt (row : list Z) : forall j j',
  (j < j')%nat -> row !! j' = Some 1 -> valid_upto row j < valid_upto row j'.
Proof.
  induction row as [|x row IH]; intros j j' Hlt Hj'; [done|].
  destruct j' as [|j']; [lia|]. cbn in Hj'. rewrite valid_upto_S.
  destruct j as [|j].
  - rewrite valid_upto_0. pose proof (valid_upto_valid row j' Hj'). lia.
  - rewrite valid_upto_S. specialize (IH j j' ltac:(lia) Hj'). lia.
Qed.

Lemma valid_upto_le_length (row : list Z) (j : nat) :
  valid_upto row j <= Z.of_nat (length row).
Proof.
  unfold valid_upto.
  pose proof (length_filter (fun m => m = 1) (take (S j) row)) as Hf.
  rewrite length_take in Hf. lia.
Qed.

(** On a mask of zeros and ones the cumulative sum counts the valid
    tokens. *)
Lemma cumsum_from_valid (row : list Z) : forall acc j,
  Forall (fun m => m = 0 \/ m = 1) row ->
  0 <= acc -> acc + Z.of_nat (length row) < 2 ^ 31 ->
  (j < length row)%nat ->
  cumsum_from acc row !! j = Some (acc + valid_upto row j).
Proof.
  induction row as [|x row IH]; intros acc j Hrow Hacc Hmax Hj;
    [cbn in Hj; lia|].
  apply Forall_cons in Hrow as [Hx Hrow]. cbn [length] in Hmax, Hj.
  cbn [cumsum_from]. rewrite int32_small by lia.
  destruct j as [|j].
  - rewrite valid_upto_0. cbn [lookup list_lookup]. f_equal.
    destruct (decide (x = 1)); lia.
  - cbn [lookup list_lookup]. rewrite IH by (done || lia).
    rewrite valid_upto_S. f_equal. destruct (decide (x = 1)); lia.
Qed.

(** The entry of the bias at a valid position. *)
Lemma alibi_entry (lib : Library) (attention_mask : Array2) (k : Z)
    (b h j : nat) (row : list Z) :
  exact_where_representable lib -> 0 <= k <= 3 ->
  arr_rows attention_mask !! b = Some row ->
  Z.of_nat h < 2 ^ k ->
  Forall (fun m => m = 0 \/ m = 1) row ->
  Z.of_nat (length row) < 2 ^ 31 ->
  row !! j = Some 1 ->
  exists alibi,
    built_bloom_alibi lib attention_mask (2 ^ k) = Ok alibi
    /\ entry alibi b h j = Some (bias k (Z.of_nat h) (valid_upto row j - 1)).
Proof.
  intros Hlib Hk Hb Hh Hrow Hmax Hj. unfold built_bloom_alibi.
  rewrite (slopes_power_of_two lib k Hlib Hk). cbn [mbind result_bind].
  rewrite length_fmap, length_seqZ.
  rewrite bool_decide_eq_true_2 by lia.
  eexists. split; [reflexivity|]. unfold entry.
  rewrite !list_lookup_fmap, Hb. cbn [fmap option_fmap option_map mbind option_bind].
  rewrite !list_lookup_fmap. rewrite (lookup_seqZ_lt 0 (2 ^ k) h Hh).
  cbn [fmap option_fmap option_map mbind option_bind lookup list_lookup].
  rewrite list_lookup_fmap, lookup_zip_with. unfold cumsum.
  rewrite (cumsum_from_valid row 0 j) by
    (done || lia || by eapply lookup_lt_Some).
  rewrite Hj. cbn [fmap option_fmap option_map mbind option_bind].
  pose proof (valid_upto_valid row j Hj).
  pose proof (valid_upto_le_length row j).
  rewrite !Z.add_0_l.
  rewrite (int32_small (valid_upto row j - 1)) by lia.
  rewrite Z.mul_1_r.
  rewrite (int32_small (valid_upto row j - 1)) by lia.
  reflexivity.
Qed.


Lemma exact_library_exact : exact_where_representable exact_library.
Proof.
  split.
  - intros x y Hx. cbn. by rewrite Hx.
  - intros b p y Hy. cbn. by rewrite Hy.
Qed.

End AlibiFacts.



(** ** The entry of a pretrained model *)

Section PretrainedFacts.
Import Pretrained.
Context {Params Layer Out : Type}.
Implicit Types (m : Module (Params := Params) (Layer := Layer) (Out := Out)).

Lemma bind_Ok_r {X} (r : result X) : (r ≫= fun x => Ok x) = r.
Proof. destruct r; reflexivity. Qed.

Lemma broadcast_arange_rows (batch n : nat) :
  arange_rows (broadcast_arange batch n) batch n.
Proof.
  unfold arange_rows, broadcast_arange. cbn [arr_shape arr_rows].
  split; [done|]. split; [apply length_replicate|].
  intros b row Hrow. apply lookup_replicate in Hrow as [-> _].
  unfold arange. split; [by rewrite length_fmap, length_seq|].
  intros j Hj. by rewrite list_lookup_fmap, lookup_seq_lt.
Qed.


End PretrainedFacts.


(** ** Inputs of a generation session *)

Section GenerationFacts.
Import Pretrained Generation.
Context {PKV : Type}.

Lemma last_column_plus_one_single (b : nat) (x : Z) :
  - 2 ^ 31 <= x + 1 < 2 ^ 31 ->
  last_column_plus_one (mkArray2 (b, 1%nat) (replicate b [x]))
  = mkArray2 (b, 1%nat) (replicate b [x + 1]).
Proof.
  intros Hx. unfold last_column_plus_one. cbn [arr_shape arr_rows fst snd].
  rewrite fmap_replicate. cbn. by rewrite int32_small.
Qed.

Lemma last_column_plus_one_arange (b n : nat) :
  (1 <= n)%nat -> Z.of_nat n < 2 ^ 31 ->
  last_column_plus_one (broadcast_arange b n)
  = mkArray2 (b, 1%nat) (replicate b [Z.of_nat n]).
Proof.
  intros Hn Hmax. unfold last_column_plus_one, broadcast_arange.
  cbn [arr_shape arr_rows fst snd]. rewrite fmap_replicate.
  rewrite Nat.min_l by done. do 3 f_equal.
  unfold arange. rewrite length_fmap, length_seq.
  rewrite <- fmap_drop, drop_seq.
  replace (n - (n - 1))%nat with 1%nat by lia. cbn.
  rewrite int32_small by lia. do 2 f_equal. lia.
Qed.

Lemma update_inputs_iterated (b : nat) (pkvs : list PKV) :
  forall (kw : Kwargs (PKV := PKV)) (x : Z),
    position_ids kw = mkArray2 (b, 1%nat) (replicate b [x]) ->
    - 2 ^ 31 <= x -> x + Z.of_nat (length pkvs) < 2 ^ 31 ->
    foldl (fun kw pkv => update_inputs_for_generation pkv kw) kw pkvs
    = mkKwargs (default (past_key_values kw) (last pkvs))
               (attention_mask kw)
               (mkArray2 (b, 1%nat) (replicate b [x + Z.of_nat (length pkvs)])).
Proof.
  induction pkvs as [|pkv pkvs IH]; intros kw x Hpos Hlo Hhi.
  - cbn. rewrite Z.add_0_r, <- Hpos. by destruct kw.
  - cbn [foldl length] in *.
    rewrite (IH _ (x + 1)).
    + cbn [past_key_values attention_mask update_inputs_for_generation].
      f_equal; [|do 3 f_equal; lia].
      rewrite last_cons. by destruct (last pkvs).
    + cbn. rewrite Hpos. apply last_column_plus_one_single. lia.
    + lia.
    + lia.
Qed.

(** X5.  [update_inputs_for_generation] makes the position ids continue the
    prompt: starting from the arguments prepared for a prompt of
    [n >= 1] tokens without a mask, after [k >= 1] updates every row of
    [position_ids] is the single position [n + k - 1], the cache is the
    one returned by the last step, and the attention mask is untouched. *)
Theorem update_inputs_positions_continue (b n : nat) (kw : Kwargs (PKV := PKV))
    (pkv : PKV) (pkvs : list PKV) :
  position_ids kw = broadcast_arange b n ->
  (1 <= n)%nat ->
  Z.of_nat n + Z.of_nat (length pkvs) < 2 ^ 31 ->
  foldl (fun kw pkv => update_inputs_for_generation pkv kw) kw (pkv :: pkvs)
  = mkKwargs (default pkv (last pkvs))
             (attention_mask kw)
             (mkArray2 (b, 1%nat)
                (replicate b [Z.of_nat n + Z.of_nat (length pkvs)])).
Proof.
  intros Hpos Hn Hmax. cbn [foldl].
  rewrite (update_inputs_iterated b pkvs _ (Z.of_nat n)).
  - done.
  - cbn. rewrite Hpos. apply last_column_plus_one_arange; lia.
  - lia.
  - lia.
Qed.

End GenerationFacts.

(** ** Key/value heads and rotary helpers *)

Section HeadsFacts.
Import Heads.
Context {H : Type}.

Lemma length_bind_replicate (l : list H) (n : nat) :
  length (l ≫= replicate n) = (length l * n)%nat.
Proof.
  induction l as [|x l IH]; [done|].
  rewrite bind_cons, length_app, length_replicate, IH. cbn. lia.
Qed.

Lemma lookup_bind_replicate (l : list H) (n h : nat) :
  (0 < n)%nat -> (l ≫= replicate n) !! h = l !! (h / n)%nat.
Proof.
  intros Hn. revert h. induction l as [|x l IH]; intros h.
  - by rewrite !lookup_nil.
  - rewrite bind_cons. destruct (decide (h < n)%nat) as [Hlt|Hge].
    + rewrite lookup_app_l by by rewrite length_replicate.
      rewrite Nat.div_small by done. cbn. by apply lookup_replicate_2.
    + rewrite lookup_app_r by (rewrite length_replicate; lia).
      rewrite length_replicate, IH.
      replace (h / n)%nat with (S ((h - n) / n)); [done|].
      replace h with ((h - n) + 1 * n)%nat at 2 by lia.
      rewrite Nat.div_add by lia. lia.
Qed.

(** X6.  [repeat_kv_bnsh] replicates key/value heads in blocks: for a
    non-negative [n_rep] it returns, for every batch entry, [n_rep] times as
    many heads, and head [h] of the output is head [h / n_rep] of the
    input. *)
Theorem repeat_kv_bnsh_block_replicates (x : list (list H)) (n_rep : Z) :
  0 <= n_rep ->
  exists out,
    repeat_kv_bnsh x n_rep = Ok out
    /\ length out = length x
    /\ forall b heads, x !! b = Some heads ->
         exists heads',
           out !! b = Some heads'
           /\ length heads' = (length heads * Z.to_nat n_rep)%nat
           /\ forall h, (h < length heads')%nat ->
                heads' !! h = heads !! (h / Z.to_nat n_rep)%nat.
Proof.
  intros Hn. unfold repeat_kv_bnsh.
  destruct (Z.eqb_spec n_rep 1) as [->|Hne].
  - exists x. split; [done|]. split; [done|]. intros b heads Hb.
    exists heads. split; [done|]. split; [cbn; lia|].
    intros h _. change (Z.to_nat 1) with 1%nat. by rewrite Nat.div_1_r.
  - destruct (Z.ltb_spec n_rep 0) as [Hneg|_]; [lia|].
    eexists. split; [done|]. split; [by rewrite length_fmap|].
    intros b heads Hb. rewrite list_lookup_fmap, Hb. cbn.
    eexists. split; [done|]. split; [apply length_bind_replicate|].
    intros h Hh. rewrite length_bind_replicate in Hh.
    apply lookup_bind_replicate. destruct (Z.to_nat n_rep); lia.
Qed.

End HeadsFacts.

Section RotaryFacts.
Import Rotary.
Context {A : Type} (neg : A -> A).

(** X7.  On a vector of even length, [rotate_half] applied twice negates
    every element; it keeps the length, and Falcon's [_rotate_half] is the
    same function. *)
Theorem rotate_half_twice_negates (x : list A) :
  Nat.Even (length x) ->
  rotate_half neg (rotate_half neg x) = neg <$> x
  /\ length (rotate_half neg x) = length x
  /\ _rotate_half neg x = rotate_half neg x.
Proof.
  intros [m Hm].
  assert (Hhalf : (length x / 2 = m)%nat).
  { rewrite Hm, Nat.mul_comm. apply Nat.div_mul. lia. }
  assert (Hlen : length (rotate_half neg x) = length x).
  { unfold rotate_half. cbn zeta.
    rewrite length_app, length_fmap, length_drop, length_take. lia. }
  split; [|split; [done|reflexivity]].
  unfold rotate_half at 1. cbn zeta. rewrite Hlen, Hhalf.
  unfold rotate_half. cbn zeta. rewrite Hhalf.
  assert (Hd : length (neg <$> drop m x) = m)
    by (rewrite length_fmap, length_drop; lia).
  rewrite drop_app_length' by done.
  rewrite take_app_length' by done.
  rewrite <- fmap_app. by rewrite take_drop.
Qed.

End RotaryFacts.

(** ** Process ranks *)

Section RanksFacts.
Import Sharding MeshBuilder Ranks.

(** X8.  On a mesh with axes [tp] and [mp], [get_ranks_and_size] splits the
    process index into a data-parallel and a model-parallel rank:
    [process_index = dp_node_rank * mp_node_size + mp_node_rank] with
    [0 <= mp_node_rank < mp_node_size] and [mp_node_size >= 1]; the
    data-parallel rank is below [dp_node_size] when [mp_node_size] divides
    the process count. *)
Theorem get_ranks_and_size_decomposes (mesh : Mesh)
    (local_device_count process_count : positive) (process_index : N)
    (tp mp : Z) :
  mesh_shape mesh !! "tp" = Some tp ->
  mesh_shape mesh !! "mp" = Some mp ->
  exists r,
    get_ranks_and_size mesh local_device_count process_count process_index
    = Ok (mesh, r)
    /\ 1 <= mp_node_size r
    /\ Z.of_N process_index = dp_node_rank r * mp_node_size r + mp_node_rank r
    /\ 0 <= mp_node_rank r < mp_node_size r
    /\ 0 <= dp_node_rank r
    /\ ((mp_node_size r | Z.pos process_count) ->
        Z.of_N process_index < Z.pos process_count ->
        dp_node_rank r < dp_node_size r).
Proof.
  intros Htp Hmp. unfold get_ranks_and_size, shape_of. rewrite Htp, Hmp.
  cbn [mbind result_bind]. eexists. split; [reflexivity|].
  cbn [mp_node_size dp_node_size dp_node_rank mp_node_rank].
  set (m := Z.max 1 (tp * mp / Z.pos local_device_count)).
  assert (Hm : 1 <= m) by (subst m; lia).
  split; [done|]. split.
  { rewrite Z.mul_comm. apply Z.div_mod. lia. }
  split; [apply Z.mod_pos_bound; lia|].
  split; [apply Z.div_pos; lia|].
  intros [q Hq] Hidx. rewrite Hq, Z.div_mul by lia.
  apply Z.div_lt_upper_bound; lia.
Qed.

Lemma foldl_insert_is_Some {V} (l : list (string * V)) (acc : gmap string V) k :
  k ∈ l.*1 ->
  is_Some (foldl (fun d '(k, v) => <[k := v]> d) acc l !! k).
Proof.
  revert acc. induction l as [|[k0 v0] l IH]; intros acc Hin.
  - by apply elem_of_nil in Hin.
  - cbn [foldl]. destruct (decide (k ∈ l.*1)) as [Htail|Htail]; [by apply IH|].
    cbn [fmap list_fmap fst] in Hin.
    apply elem_of_cons in Hin as [->|Hin]; [|done].
    rewrite foldl_insert_notin by done. rewrite lookup_insert_eq. eauto.
Qed.

Lemma mesh_shape_is_Some (mesh : Mesh) (name : string) :
  length (axis_names mesh) = length (devices_shape mesh) ->
  is_Some (mesh_shape mesh !! name) <-> name ∈ axis_names mesh.
Proof.
  intros Hlen. unfold mesh_shape. split.
  - intros [size Hsize].
    destruct (decide (name ∈ axis_names mesh)) as [|Hnot]; [done|].
    rewrite foldl_insert_notin in Hsize; [by rewrite lookup_empty in Hsize|].
    by rewrite fst_zip by lia.
  - intros Hin. apply foldl_insert_is_Some. by rewrite fst_zip by lia.
Qed.

(** X9.  [get_ranks_and_size] returns exactly on the meshes that have both
    an axis named [tp] and an axis named [mp] (on any other mesh the lookup
    in [mesh.shape] raises [KeyError]). *)
Theorem get_ranks_and_size_needs_tp_and_mp (mesh : Mesh)
    (local_device_count process_count : positive) (process_index : N) :
  length (axis_names mesh) = length (devices_shape mesh) ->
  (exists r,
     get_ranks_and_size mesh local_device_count process_count process_index
     = Ok (mesh, r))
  <-> "tp" ∈ axis_names mesh /\ "mp" ∈ axis_names mesh.
Proof.
  intros Hlen. rewrite <- !(mesh_shape_is_Some mesh) by done.
  unfold get_ranks_and_size, shape_of. split.
  - intros [r Hr].
    destruct (mesh_shape mesh !! "tp") as [tp|]; [|done].
    destruct (mesh_shape mesh !! "mp") as [mp|]; [|done]. eauto.
  - intros [[tp ->] [mp ->]]. eexists. reflexivity.
Qed.

End RanksFacts.

(** ** The base class of the configurations *)

Section BaseClassFacts.
Import Sharding MeshBuilder Config BaseClass.

Lemma as_ints_tuple (l : list Z) : as_ints (VTuple (VInt <$> l)) = Ok l.
Proof.
  unfold as_ints.
  replace (mapM _ (VInt <$> l)) with (Some l); [done|].
  symmetry. apply mapM_Some. induction l; constructor; by cbn.
Qed.

Lemma as_strs_tuple (l : list string) : as_strs (VTuple (VStr <$> l)) = Ok l.
Proof.
  unfold as_strs.
  replace (mapM _ (VStr <$> l)) with (Some l); [done|].
  symmetry. apply mapM_Some. induction l; constructor; by cbn.
Qed.

(** An object carries the sharding arguments [s] when its three mesh
    attributes are those of [s]. *)
Lemma jax_mesh_of_attributes rt (self : object) (s : ShardingArgs) b :
  self !! "axis_dims" = Some (VTuple (VInt <$> axis_dims s)) ->
  self !! "axis_names" = Some (VTuple (VStr <$> axis_names s)) ->
  self !! "backend" = Some b ->
  (b = optional_str (backend s) \/ b = VStr (default "" (backend s))) ->
  jax_mesh rt self
  = Found (create_mesh rt (axis_dims s) (axis_names s)
             (default "" (backend s))).
Proof.
  intros Hd Hn Hb Hbv. unfold jax_mesh, getattr. rewrite Hd, Hn, Hb.
  rewrite as_ints_tuple, as_strs_tuple. cbn [mbind result_bind].
  destruct Hbv as [-> | ->]; [|done]. by destruct (backend s).
Qed.

Lemma sharding_values_lookup (s : ShardingArgs) :
  ("axis_dims", VTuple (VInt <$> axis_dims s)) ∈ sharding_values s
  /\ ("axis_names", VTuple (VStr <$> axis_names s)) ∈ sharding_values s
  /\ ("backend", optional_str (backend s)) ∈ sharding_values s.
Proof. unfold sharding_values. set_solver. Qed.

Lemma falcon_lookup_sharding cls a (self : object) name v :
  (name, v) ∈ sharding_values (Falcon.sharding a) ->
  Falcon.add_jax_args cls a self !! name = Some v.
Proof.
  intros Hin. rewrite falcon_add_jax_args_lookup.
  rewrite decide_False.
  - by rewrite (assign_lookup_in _ _ name v)
      by (done || apply sharding_values_NoDup).
  - intros ->. apply (list_elem_of_fmap_2 fst) in Hin.
    rewrite sharding_values_keys in Hin. cbn in Hin.
    revert Hin. apply (bool_decide_unpack _). by vm_compute.
Qed.

Lemma mistral_lookup_sharding a (self : object) name v :
  (name, v) ∈ sharding_values (Mistral.sharding a) ->
  Mistral.add_jax_args a self !! name = Some v.
Proof.
  intros Hin. rewrite mistral_add_jax_args_assign.
  apply assign_lookup_in; [apply mistral_assignments_NoDup|].
  unfold Mistral.assignments. apply elem_of_app. by right.
Qed.

(** X10.  [jax_mesh] after [add_jax_args] builds the mesh of the arguments
    just given: for Falcon's and Mistral's [add_jax_args], for [add_pss] and
    for [__init__] alike, and whatever the object held before, it is
    [create_mesh] on the [axis_dims] and [axis_names] of the call, on the
    given backend, or on the default backend when [backend] is [None]. *)
Theorem jax_mesh_after_add_jax_args (rt : Runtime) (cls : gset string)
    (self : object) :
  (forall a, jax_mesh rt (Falcon.add_jax_args cls a self)
             = Found (create_mesh rt (axis_dims (Falcon.sharding a))
                        (axis_names (Falcon.sharding a))
                        (default "" (backend (Falcon.sharding a)))))
  /\ (forall a, jax_mesh rt (Mistral.add_jax_args a self)
               = Found (create_mesh rt (axis_dims (Mistral.sharding a))
                          (axis_names (Mistral.sharding a))
                          (default "" (backend (Mistral.sharding a)))))
  /\ (forall s, jax_mesh rt (add_pss s self)
               = Found (create_mesh rt (axis_dims s) (axis_names s)
                          (default "" (backend s))))
  /\ (forall s, jax_mesh rt (__init__ s self)
               = Found (create_mesh rt (axis_dims s) (axis_names s)
                          (default "" (backend s)))).
Proof.
  split; [|split; [|split]].
  - intros a.
    destruct (sharding_values_lookup (Falcon.sharding a)) as (Hd & Hn & Hb).
    eapply jax_mesh_of_attributes; [by apply falcon_lookup_sharding ..|by left].
  - intros a.
    destruct (sharding_values_lookup (Mistral.sharding a)) as (Hd & Hn & Hb).
    eapply jax_mesh_of_attributes; [by apply mistral_lookup_sharding ..|by left].
  - intros s. eapply jax_mesh_of_attributes; [| | |by left];
      unfold add_pss, setattr; by simplify_map_eq.
  - intros s. eapply jax_mesh_of_attributes; [| | |right];
      unfold __init__, setattr; try by simplify_map_eq.
    by destruct (backend s).
Qed.

(** X11.  [get_backend] falls back to the platform only for the empty
    string.  After [__init__] the attribute is never [None], so a missing or
    empty backend gives the platform; after [add_pss] or [add_jax_args] with
    [backend=None] it returns [None], not the platform. *)
Theorem get_backend_after_assignment (env : Env) (cls : gset string)
    (self : object) :
  (forall s, get_backend env (__init__ s self)
             = Found (VStr (match backend s with
                            | None | Some EmptyString => platform env
                            | Some b => b
                            end)))
  /\ (forall s, get_backend env (add_pss s self)
                = Found (match backend s with
                         | None => VNone
                         | Some EmptyString => VStr (platform env)
                         | Some b => VStr b
                         end))
  /\ (forall a, get_backend env (Falcon.add_jax_args cls a self)
                = Found (match backend (Falcon.sharding a) with
                         | None => VNone
                         | Some EmptyString => VStr (platform env)
                         | Some b => VStr b
                         end))
  /\ (forall a, get_backend env (Mistral.add_jax_args a self)
                = Found (match backend (Mistral.sharding a) with
                         | None => VNone
                         | Some EmptyString => VStr (platform env)
                         | Some b => VStr b
                         end)).
Proof.
  split; [|split; [|split]].
  - intros s. unfold get_backend, getattr, __init__, setattr.
    simplify_map_eq. by destruct (backend s) as [[|]|].
  - intros s. unfold get_backend, getattr, add_pss, setattr.
    simplify_map_eq. by destruct (backend s) as [[|]|].
  - intros a. unfold get_backend, getattr.
    destruct (sharding_values_lookup (Falcon.sharding a)) as (_ & _ & Hin).
    rewrite (falcon_lookup_sharding cls a self _ _ Hin).
    by destruct (backend _) as [[|]|].
  - intros a. unfold get_backend, getattr.
    destruct (sharding_values_lookup (Mistral.sharding a)) as (_ & _ & Hin).
    rewrite (mistral_lookup_sharding a self _ _ Hin).
    by destruct (backend _) as [[|]|].
Qed.

End BaseClassFacts.

(** ** Checkpoint files *)

Section CheckpointFacts.
Import Sharding Checkpoint.
Context {T B : Type} `{Castable T}.
Variable to_bytes : T -> B.
Variable from_bytes : B -> T.

(** A loop of dict assignments with distinct keys builds the dict of the
    list. *)
Lemma foldl_insert_list_to_map {K V} `{Countable K} (l : list (K * V)) :
  NoDup l.*1 ->
  foldl (fun d '(k, v) => <[k := v]> d) (∅ : gmap K V) l = list_to_map l.
Proof.
  intros Hnd. apply map_eq. intros k.
  destruct (decide (k ∈ l.*1)) as [Hin|Hnot].
  - apply list_elem_of_fmap in Hin as ([k' v] & -> & Hin). cbn [fst].
    rewrite (foldl_insert_lookup l ∅ k' v) by done.
    symmetry. by apply elem_of_list_to_map_1.
  - rewrite foldl_insert_notin by done. rewrite lookup_empty.
    symmetry. by apply not_elem_of_list_to_map_1.
Qed.

(** Without shard functions, [read_ckpt] is the loop of assignments of the
    decoded records under their prefixed keys. *)
Lemma read_ckpt_no_shard (stream : File (B := B)) prefix :
  read_ckpt from_bytes stream None prefix
  = Ok (foldl (fun d '(k, v) => <[k := v]> d) ∅
          ((fun '(key, value) =>
              (match prefix with Some p => p ++ key | None => key end,
               from_bytes value)) <$> stream)).
Proof.
  unfold read_ckpt. generalize (∅ : gmap (list string) T).
  induction stream as [|[key value] stream IH]; intros acc; [done|].
  cbn [foldl fmap list_fmap mbind result_bind]. apply IH.
Qed.

(** A tensor that is not of a float type goes through
    [float_tensor_to_dtype] as it is, for every dtype that is accepted. *)
Lemma float_tensor_to_dtype_not_float (t : T) (dtype : DTypeArg) t' :
  is_float (dtype_of t) = false ->
  float_tensor_to_dtype t dtype = Ok t' -> t' = t.
Proof.
  intros Hf. unfold float_tensor_to_dtype. rewrite Hf.
  destruct dtype as [|[|c name]|d]; try (by intros [= <-]).
  destruct (get_float_dtype_by_name _); [|done]. by intros [= <-].
Qed.

Lemma save_ckpt_unchanged (state : list (list string * T)) dtype :
  (dtype = DNone \/ dtype = DName ""
   \/ ((exists t, float_tensor_to_dtype t dtype = Ok t)
       /\ Forall (fun kv => is_float (dtype_of kv.2) = false) state)) ->
  save_ckpt to_bytes state None dtype
  = Ok ((fun '(key, value) => (key, to_bytes value)) <$> state).
Proof.
  intros Hdtype. induction state as [|[key value] state IH]; [done|].
  cbn [save_ckpt fmap list_fmap mbind result_bind].
  assert (float_tensor_to_dtype value dtype = Ok value) as ->.
  { destruct Hdtype as [->| [->|[[t0 Hok] Hall]]]; [done|done|].
    apply Forall_cons in Hall as [Hv _]. cbn in Hv.
    revert Hok. unfold float_tensor_to_dtype. rewrite Hv.
    destruct dtype as [|[|c name]|d]; try done.
    destruct (get_float_dtype_by_name _); [|done]. done. }
  cbn [mbind result_bind]. rewrite IH; [done|].
  destruct Hdtype as [?|[?|[? Hall]]]; auto.
  right; right. split; [done|]. by apply Forall_cons in Hall as [_ ?].
Qed.

(** X12.  Saving a flattened state and reading the file back gives the
    state again, as a dict: when [from_bytes] inverts [to_bytes], the keys
    are distinct, no gather or shard functions and no key prefix are given,
    and either no [float_dtype] is given ([None] or the empty name) or an
    accepted [float_dtype] is given and no tensor of the state has a float
    type. *)
Theorem read_ckpt_save_ckpt (state : list (list string * T))
    (float_dtype : DTypeArg) :
  (forall t, from_bytes (to_bytes t) = t) ->
  NoDup state.*1 ->
  (float_dtype = DNone \/ float_dtype = DName ""
   \/ ((exists t, float_tensor_to_dtype t float_dtype = Ok t)
       /\ Forall (fun kv => is_float (dtype_of kv.2) = false) state)) ->
  exists file,
    save_ckpt to_bytes state None float_dtype = Ok file
    /\ read_ckpt from_bytes file None None = Ok (list_to_map state).
Proof.
  intros Hcodec Hnd Hdtype. eexists. split; [by apply save_ckpt_unchanged|].
  rewrite read_ckpt_no_shard. f_equal.
  rewrite <- list_fmap_compose.
  match goal with |- foldl _ _ (?f <$> _) = _ =>
    assert (Heq : f <$> state = state) end.
  { rewrite <- (list_fmap_id state) at 2. apply list_fmap_ext.
    intros i [key value] _. cbn. by rewrite Hcodec. }
  rewrite Heq. by apply foldl_insert_list_to_map.
Qed.

Lemma read_ckpt_shard_ok (stream : File (B := B))
    (shard_fns : gmap (list string) (T -> T)) prefix :
  forall acc : gmap (list string) T,
  (exists tensors,
     foldl (fun tensors '(key, value) =>
              tensors ← tensors;
              let key := match prefix with
                         | Some p => p ++ key
                         | None => key
                         end in
              tensor ← (f ← getitem shard_fns key; Ok (f (from_bytes value)));
              Ok (<[key := tensor]> tensors))
           (Ok acc) stream = Ok tensors)
  <-> Forall (fun key =>
               is_Some (shard_fns
                          !! match prefix with Some p => p ++ key | None => key end))
             stream.*1.
Proof.
  match goal with |- forall acc, (exists t, foldl ?f _ _ = _) <-> _ =>
    set (F := f) end.
  assert (Hraise : forall e l, foldl F (Raise e) l = Raise e).
  { intros e l. induction l as [|[k v] l IHl]; [done|]. apply IHl. }
  induction stream as [|[key value] stream IH]; intros acc.
  - cbn. split; [constructor|eauto].
  - cbn [foldl fmap list_fmap fst]. rewrite Forall_cons.
    assert (HF : F (Ok acc) (key, value)
                 = let k := match prefix with Some p => p ++ key | None => key end in
                   match shard_fns !! k with
                   | Some f => Ok (<[k := f (from_bytes value)]> acc)
                   | None => Raise (KeyError (String.concat "/" k))
                   end).
    { unfold F, getitem. cbn. by destruct (shard_fns !! _). }
    rewrite HF. cbv zeta.
    destruct (shard_fns !! _) as [f|] eqn:Hf.
    + rewrite IH. split; [by split; eauto|by intros [_ ?]].
    + rewrite Hraise. split; [by intros [? [=]]|by intros [[? [=]] _]].
Qed.

(** X13.  With shard functions, [read_ckpt] returns exactly when the dict of
    shard functions has an entry for every key of the file, looked up after
    the prefix [add_extra_past_fix] has been put in front of the key (on a
    missing entry it raises [KeyError]). *)
Theorem read_ckpt_needs_every_shard_fn (stream : File (B := B))
    (shard_fns : gmap (list string) (T -> T)) (prefix : option (list string)) :
  (exists tensors,
     read_ckpt from_bytes stream (Some shard_fns) prefix = Ok tensors)
  <-> forall key, key ∈ stream.*1 ->
        is_Some (shard_fns
                   !! match prefix with Some p => p ++ key | None => key end).
Proof.
  rewrite <- Forall_forall. unfold read_ckpt.
  apply (read_ckpt_shard_ok stream shard_fns prefix ∅).
Qed.

End CheckpointFacts.

(** ** The sliding-window mask *)

Section SlidingWindowFacts.
Import Sharding SlidingWindow.

Lemma imap2_lookup f (m : list (list Z)) (i j : nat) :
  imap2 f m !! i ≫= (.!! j)
  = f (Z.of_nat i) (Z.of_nat j) <$> (m !! i ≫= (.!! j)).
Proof.
  unfold imap2. rewrite list_lookup_imap.
  destruct (m !! i) as [row|]; [|done]. cbn.
  by rewrite list_lookup_imap.
Qed.

(** X14.  Without past keys, [_make_sliding_window_causal_mask] returns, for
    each of the [bsz] batch entries, the same [tgt_len * tgt_len] matrix in
    which query [i] may attend key [j] (value [0]) exactly when
    [i - sliding_window <= j <= i], and minus infinity stands everywhere
    else. *)
Theorem sliding_window_mask_band (bsz tgt_len : nat) (dtype : DType)
    (past_key_values_length sliding_window : Z) :
  past_key_values_length <= 0 ->
  exists mask,
    _make_sliding_window_causal_mask (bsz, tgt_len) dtype
      past_key_values_length sliding_window
    = Ok (dtype, replicate bsz [mask])
    /\ length mask = tgt_len
    /\ forall i j, (i < tgt_len)%nat -> (j < tgt_len)%nat ->
         mask !! i ≫= (.!! j)
         = Some (if (Z.of_nat i - sliding_window <=? Z.of_nat j)
                    && (Z.of_nat j <=? Z.of_nat i)
                 then Zero else MinusInf).
Proof.
  unfold _make_sliding_window_causal_mask.
  intros Hpast. destruct (Z.ltb_spec 0 past_key_values_length); [lia|].
  eexists. split; [reflexivity|]. split.
  { unfold triu, tril, imap2.
    by rewrite length_fmap, !length_imap, length_replicate. }
  intros i j Hi Hj.
  rewrite list_lookup_fmap.
  destruct (triu _ _ !! i) as [row|] eqn:Hrow; cbn.
  - rewrite list_lookup_fmap.
    pose proof (imap2_lookup
      (fun i j x => if i + - sliding_window <=? j then x else 0)
      (tril (replicate tgt_len (replicate tgt_len 1)) 0) i j) as Hl.
    fold (triu (tril (replicate tgt_len (replicate tgt_len 1)) 0)
               (- sliding_window)) in Hl.
    rewrite Hrow in Hl. cbn in Hl. rewrite Hl.
    unfold tril. rewrite imap2_lookup.
    rewrite lookup_replicate_2 by done. cbn.
    rewrite lookup_replicate_2 by done. cbn.
    rewrite Z.add_0_r.
    replace (Z.of_nat i + - sliding_window) with (Z.of_nat i - sliding_window)
      by lia.
    by destruct (_ <=? Z.of_nat j), (Z.of_nat j <=? _).
  - exfalso. apply lookup_ge_None in Hrow.
    unfold triu, tril, imap2 in Hrow.
    rewrite !length_imap, length_replicate in Hrow. lia.
Qed.

End SlidingWindowFacts.

(** ** What a cache step hands to the attention *)

Section CacheOutputs.
Import Cache.
Context {A : Type} (zero : A).

(** X16.  In Falcon and Mistral alike, a step on an active cache with room
    returns the whole key and value buffers, with the new slices written at
    the cursor, and a mask that lets a query attend exactly those positions
    below the new cursor that the given mask allows: positions of the buffer
    not yet written are masked out. *)
Theorem cache_step_masks_unwritten_positions (falcon : bool)
    (kb vb key value : list A) (idx : nat) (m : Mask) :
  length vb = length kb ->
  length value = length key ->
  (idx + length key <= length kb)%nat ->
  Z.of_nat (length kb) < 2 ^ 31 ->
  exists c' mask',
    updater_of zero falcon (active kb vb (Z.of_nat idx)) key value
      (length key) m
    = Ok (c', (take idx kb ++ key ++ drop (idx + length key) kb,
               take idx vb ++ value ++ drop (idx + length key) vb,
               mask'))
    /\ forall q j,
         mask' q j = bool_decide (j < idx + length key)%nat && m q j.
Proof.
  intros Hvb Hval Hfit Hmax.
  assert (Hfit' : (idx + length value <= length vb)%nat) by lia.
  assert (Hmask : forall (q j : nat),
            bool_decide (j < length kb)%nat
            && (Z.of_nat j <? int32 (Z.of_nat idx + Z.of_nat (length key)))
            && m q j
            = bool_decide (j < idx + length key)%nat && m q j).
  { intros q j. rewrite int32_small by lia. f_equal.
    destruct (Z.ltb_spec (Z.of_nat j) (Z.of_nat idx + Z.of_nat (length key))).
    - rewrite !bool_decide_eq_true_2 by lia. done.
    - rewrite andb_false_r. symmetry. apply bool_decide_eq_false_2. lia. }
  destruct falcon; cbn [updater_of];
    unfold _concatenate_to_cache, concatenate_to_cache_, active;
    cbn [cached_key cached_value cache_index has_variable variable];
    rewrite (bind_Ok _ _ _ (dynamic_update_slice_inside kb key idx Hfit));
    rewrite (bind_Ok _ _ _ (dynamic_update_slice_inside vb value idx Hfit'));
    rewrite Hval; eexists _, _; (split; [reflexivity|]);
    intros q j; apply Hmask.
Qed.

End CacheOutputs.

(** ** The names of a partition spec *)

Section NamesFacts.
Import Sharding.

Lemma get_names_NoDup p l :
  get_names_from_partition_spec p = Ok l -> NoDup l.
Proof.
  destruct p as [|s|items|d]; cbn [get_names_from_partition_spec].
  - done.
  - intros [= <-]. apply NoDup_elements.
  - destruct (loop _ _ _); cbn; [|done]. intros [= <-]. apply NoDup_elements.
  - destruct (loop_values _ _ _); cbn; [|done].
    intros [= <-]. apply NoDup_elements.
Qed.

(** X17.  On a partition spec (a [PartitionSpec] or a dict, nested to any
    depth) [get_names_from_partition_spec] returns without error, and the
    list it returns holds each axis name that occurs in the spec exactly
    once and nothing else. *)
Theorem get_names_returns_each_name_once (spec : pspec) :
  is_collection spec ->
  exists l,
    get_names_from_partition_spec spec = Ok l
    /\ NoDup l
    /\ forall s, s ∈ l <-> referenced s spec.
Proof.
  intros Hc. destruct (get_names_spec spec Hc) as (l & Hl & Hnames).
  exists l. split; [done|]. split; [by eapply get_names_NoDup|done].
Qed.

End NamesFacts.

(** ** The attention dispatcher, continued *)

Section AttentionReturns.
Import Sharding Attention.

Lemma assert_Ok cond msg u : assert cond msg = Ok u -> cond = true.
Proof. by destruct cond. Qed.

(** The assertions of [smart_flash_attention] pass only on shapes of the
    documented form. *)
Lemma smart_flash_attention_Ok_well_shaped env a out :
  smart_flash_attention env a = Ok out -> well_shaped a.
Proof.
  unfold smart_flash_attention, shape0, well_shaped, shape_eqb.
  destruct (shape (q a)) as [|b sq] eqn:Hq; [done|].
  destruct (shape (k a)) as [|b' sk] eqn:Hk; [done|].
  cbn [mbind result_bind].
  destruct (Z.eqb_spec b b') as [<-|]; [|done].
  destruct (shape (v a)) as [|b'' sv] eqn:Hv; [done|].
  cbn [mbind result_bind].
  destruct (Z.eqb_spec b b'') as [<-|]; [|done].
  cbn [assert mbind result_bind].
  repeat match goal with
  | |- context [assert (bool_decide ?P) _] =>
      destruct (bool_decide_reflect P); [|done];
      cbn [assert mbind result_bind]
  end.
  intros _. by exists b.
Qed.

(** X18.  [smart_flash_attention] returns only on arguments that pass its
    shape checks and only on the platforms ["gpu"] and ["tpu"]; on ["gpu"] a
    mesh was passed.  What it returns is always cast to [dtype]: the
    sharded call on ["gpu"], with or without the sharding constraint, and
    the local call on ["tpu"]. *)
Theorem smart_flash_attention_returns_only_if (env : Env) (a : AttnArgs)
    (out : Tensor) :
  smart_flash_attention env a = Ok out ->
  well_shaped a
  /\ ((platform env = "gpu"
       /\ exists mesh,
            Attention.mesh a = Some mesh
            /\ (out = AsType (Wsc (sharded_call a mesh) (a_ps a)) (dtype a)
                \/ out = AsType (sharded_call a mesh) (dtype a)))
      \/ (platform env = "tpu"
          /\ out = AsType (local_call a) (dtype a))).
Proof.
  intros Hout.
  pose proof (smart_flash_attention_Ok_well_shaped env a out Hout) as Hws.
  split; [done|].
  rewrite (smart_flash_attention_well_shaped env a Hws) in Hout.
  destruct (decide (platform env = "gpu")) as [Hg|Hg].
  - left. split; [done|].
    rewrite (get_flash_attention_gpu env Hg) in Hout.
    cbn [mbind result_bind] in Hout.
    destruct (Attention.mesh a) as [mesh|]; [|done].
    exists mesh. split; [done|]. fold (sharded_call a mesh) in Hout.
    unfold with_sharding_constraint in Hout.
    destruct (get_names_from_partition_spec (a_ps a)) as [l|]; [|done].
    cbn [mbind result_bind] in Hout.
    destruct (names_in_mesh env l); injection Hout as <-; auto.
  - destruct (decide (platform env = "tpu")) as [Ht|Ht].
    + right. split; [done|].
      rewrite (get_flash_attention_tpu env Ht) in Hout.
      cbn [mbind result_bind] in Hout. rewrite orb_true_r in Hout.
      by injection Hout as <-.
    + by rewrite (get_flash_attention_other env Hg Ht) in Hout.
Qed.

(** X19.  On ["gpu"], with a mesh and a partition spec for the output:
    whenever [smart_flash_attention] returns, what it returns carries the
    sharding constraint [a_ps] exactly when every axis name of [a_ps] is an
    axis of the active mesh; otherwise it is the output of the sharded call
    without the constraint. *)
Theorem smart_flash_attention_constrains_output (env : Env) (a : AttnArgs)
    (mesh : Mesh) (out : Tensor) :
  smart_flash_attention env a = Ok out ->
  platform env = "gpu" ->
  Attention.mesh a = Some mesh ->
  is_collection (a_ps a) ->
  (declared env (a_ps a) ->
   out = AsType (Wsc (sharded_call a mesh) (a_ps a)) (dtype a))
  /\ (~ declared env (a_ps a) ->
      out = AsType (sharded_call a mesh) (dtype a)).
Proof.
  intros Hout Hg Hmesh Hc.
  pose proof (smart_flash_attention_Ok_well_shaped env a out Hout) as Hws.
  rewrite (smart_flash_attention_well_shaped env a Hws) in Hout.
  rewrite (get_flash_attention_gpu env Hg) in Hout.
  cbn [mbind result_bind] in Hout.
  rewrite Hmesh in Hout. fold (sharded_call a mesh) in Hout.
  unfold with_sharding_constraint in Hout.
  destruct (get_names_spec (a_ps a) Hc) as (l & Hl & Hnames).
  rewrite Hl in Hout. cbn [mbind result_bind] in Hout.
  pose proof (names_in_mesh_declared env (a_ps a) l Hnames) as Hdecl.
  destruct (names_in_mesh env l); injection Hout as <-;
    split; intros Hd; try done.
  - exfalso. apply Hd. by apply Hdecl.
  - apply Hdecl in Hd. discriminate.
Qed.

End AttentionReturns.

(** ** The device mesh builder, continued *)

Section MeshInvariants.
Import Sharding MeshBuilder.

Lemma prod_nonneg (l : list Z) : Forall (fun d => 0 <= d) l -> 0 <= prod l.
Proof.
  unfold prod. induction 1 as [|d l Hd _ IH]; cbn [foldr]; [lia|].
  by apply Z.mul_nonneg_nonneg.
Qed.

Lemma existsb_below_unknown (l : list Z) :
  existsb (fun d => d <? -1) l = false -> Forall (fun d => -1 <= d) l.
Proof.
  induction l as [|d l IH]; cbn [existsb]; [constructor|].
  intros Hex. apply orb_false_iff in Hex as [Hd Hl].
  constructor; [|by apply IH]. by destruct (Z.ltb_spec d (-1)).
Qed.

Lemma filter_unknown_nil (l : list Z) :
  Forall (fun d => -1 <= d) l ->
  filter (fun d => d = -1) l = [] -> Forall (fun d => 0 <= d) l.
Proof.
  induction 1 as [|d l Hd _ IH]; [constructor|].
  destruct (decide (d = -1)) as [->|Hne].
  - by rewrite filter_cons_True by done.
  - rewrite filter_cons_False by done. intros Hnil.
    constructor; [lia|by apply IH].
Qed.

Lemma filter_known_nonneg (l : list Z) :
  Forall (fun d => -1 <= d) l ->
  Forall (fun d => 0 <= d) (filter (fun d => d <> -1) l).
Proof.
  induction 1 as [|d l Hd _ IH]; [constructor|].
  destruct (decide (d = -1)) as [->|Hne].
  - by rewrite filter_cons_False by (intros ?; done).
  - rewrite filter_cons_True by done. constructor; [lia|done].
Qed.

(** The product of a shape whose unknown entries are replaced by [x]. *)
Lemma prod_resolved (l : list Z) (x : Z) :
  prod (map (fun d => if d =? -1 then x else d) l)
  = x ^ Z.of_nat (length (filter (fun d => d = -1) l))
    * prod (filter (fun d => d <> -1) l).
Proof.
  induction l as [|d l IH]; [done|].
  cbn [map]. unfold prod in *. cbn [foldr]. rewrite IH.
  destruct (Z.eqb_spec d (-1)) as [->|Hne].
  - rewrite filter_cons_True by done.
    rewrite filter_cons_False by (intros ?; done).
    cbn [length]. rewrite Nat2Z.inj_succ, Z.pow_succ_r by lia. lia.
  - rewrite filter_cons_False by done. rewrite filter_cons_True by done.
    cbn [foldr]. lia.
Qed.

Lemma lookup_map {X Y} (f : X -> Y) (l : list X) (j : nat) :
  map f l !! j = f <$> l !! j.
Proof. revert j. induction l as [|x l IH]; intros [|j]; cbn; auto. Qed.

(** What [jnp.reshape] returns, when it returns. *)
Lemma reshape_shape_Ok (size : Z) (newshape sh : list Z) :
  0 <= size ->
  reshape_shape size newshape = Ok sh ->
  prod sh = size
  /\ length sh = length newshape
  /\ Forall (fun d => 0 <= d) sh
  /\ forall j d, newshape !! j = Some d -> d <> -1 -> sh !! j = Some d.
Proof.
  intros Hsize. unfold reshape_shape.
  destruct (existsb _ newshape) eqn:Hex; [done|].
  apply existsb_below_unknown in Hex.
  destruct (filter (fun d => d = -1) newshape) as [|u [|u' us]] eqn:Hf.
  - destruct (Z.eqb_spec (prod newshape) size) as [Hp|]; [|done].
    intros [= <-]. split; [done|]. split; [done|].
    split; [by apply filter_unknown_nil|done].
  - set (known := prod (filter (fun d => d <> -1) newshape)).
    pose proof (prod_nonneg _ (filter_known_nonneg _ Hex)) as Hknown.
    fold known in Hknown.
    destruct (Z.eqb_spec known 0) as [|Hne]; [done|].
    destruct (Z.eqb_spec (size mod known) 0) as [Hmod|]; [|done].
    cbn [orb negb]. intros [= <-].
    split; [|split; [|split]].
    + rewrite prod_resolved, Hf. fold known. cbn [length].
      change (Z.of_nat 1) with 1. rewrite Z.pow_1_r.
      rewrite Z.mul_comm. symmetry. apply Z_div_exact_full_2; [lia|done].
    + by rewrite length_map.
    + apply Forall_forall. intros d Hd.
      apply list_elem_of_In, in_map_iff in Hd as (d0 & <- & Hd0).
      apply list_elem_of_In in Hd0.
      rewrite Forall_forall in Hex. specialize (Hex d0 Hd0).
      destruct (Z.eqb_spec d0 (-1)); [|lia].
      apply Z.div_pos; lia.
    + intros j d Hj Hd. rewrite lookup_map, Hj. cbn.
      by destruct (Z.eqb_spec d (-1)).
  - done.
Qed.

(** X20.  A mesh that [create_mesh] returns uses every device of the backend
    exactly once: it has the given axis names, one size per name, sizes that
    are not negative and whose product is the device count, and every axis
    dim given explicitly is the size of its axis.  The mesh utility returns
    a device array of the shape it is asked for. *)
Theorem create_mesh_uses_all_devices (rt : Runtime) (axis_dims : list Z)
    (axis_names : list string) (backend : string) (n : nat) (mesh : Mesh) :
  devices rt (if String.eqb backend "" then None else Some backend) = Ok n ->
  (forall sh sh', create_device_mesh rt sh = Ok sh' -> sh' = sh) ->
  create_mesh rt axis_dims axis_names backend = Ok mesh ->
  Sharding.axis_names mesh = axis_names
  /\ length (devices_shape mesh) = length axis_names
  /\ length axis_dims = length axis_names
  /\ prod (devices_shape mesh) = Z.of_nat n
  /\ Forall (fun d => 0 <= d) (devices_shape mesh)
  /\ forall j d, axis_dims !! j = Some d -> d <> -1 ->
       devices_shape mesh !! j = Some d.
Proof.
  intros Hdev Hlayout. unfold create_mesh. rewrite Hdev.
  cbn [mbind result_bind]. rewrite Z.mul_1_r.
  destruct (reshape_shape _ axis_dims) as [resh|] eqn:Hresh; [|done].
  cbn [mbind result_bind].
  destruct (create_device_mesh rt resh) as [devs|] eqn:Hdevs; [|done].
  cbn [mbind result_bind]. apply Hlayout in Hdevs as ->.
  unfold new_Mesh. destruct (Nat.eqb_spec (length axis_names) (length resh))
    as [Hlen|]; [|done].
  intros [= <-]. cbn [Sharding.axis_names devices_shape].
  destruct (reshape_shape_Ok _ _ _ (Nat2Z.is_nonneg n) Hresh)
    as (Hp & Hl & Hpos & Hkeep).
  repeat (split; [done || lia|]). done.
Qed.

(** X21.  With every axis dim given explicitly, [create_mesh] returns the
    mesh of exactly these sizes when their product is the device count, and
    fails otherwise.  The mesh utility is assumed to lay the [n] devices out
    on any shape of [n] entries. *)
Theorem create_mesh_explicit_dims (rt : Runtime) (axis_dims : list Z)
    (axis_names : list string) (backend : string) (n : nat) :
  devices rt (if String.eqb backend "" then None else Some backend) = Ok n ->
  (forall sh, prod sh = Z.of_nat n -> create_device_mesh rt sh = Ok sh) ->
  Forall (fun d => 0 <= d) axis_dims ->
  length axis_names = length axis_dims ->
  (prod axis_dims = Z.of_nat n ->
   create_mesh rt axis_dims axis_names backend
   = Ok (mkMesh axis_names axis_dims))
  /\ (prod axis_dims <> Z.of_nat n ->
      raises (create_mesh rt axis_dims axis_names backend)).
Proof.
  intros Hdev Hlayout Hpos Hlen. unfold create_mesh. rewrite Hdev.
  cbn [mbind result_bind]. rewrite Z.mul_1_r. unfold reshape_shape.
  destruct (filter_nonneg_unknown _ Hpos) as (Hf & _ & Hex & _).
  rewrite Hex, Hf. split; intros Hprod.
  - rewrite (proj2 (Z.eqb_eq _ _) Hprod). cbn [mbind result_bind].
    rewrite (Hlayout _ Hprod). cbn [mbind result_bind].
    unfold new_Mesh. by rewrite (proj2 (Nat.eqb_eq _ _) Hlen).
  - rewrite (proj2 (Z.eqb_neq _ _) Hprod). by eexists.
Qed.

Lemma filter_unknown_two (l : list Z) (i j : nat) :
  (i < j)%nat -> l !! i = Some (-1) -> l !! j = Some (-1) ->
  (2 <= length (filter (fun d : Z => d = (-1)%Z) l))%nat.
Proof.
  intros Hij Hi Hj.
  rewrite <- (take_drop_middle _ _ _ Hi).
  rewrite filter_app, filter_cons_True by done.
  rewrite length_app. cbn [length].
  assert (Hj' : drop (S i) l !! (j - S i)%nat = Some (-1)).
  { rewrite lookup_drop. rewrite <- Hj. f_equal. lia. }
  rewrite <- (take_drop_middle _ _ _ Hj').
  rewrite filter_app, filter_cons_True by done.
  rewrite length_app. cbn [length]. lia.
Qed.

(** X22.  At most one axis dim may be left to [create_mesh]: with [-1] at
    two places of [axis_dims] it fails, whatever the device count and the
    backend. *)
Theorem create_mesh_two_unknown_axes (rt : Runtime) (axis_dims : list Z)
    (axis_names : list string) (backend : string) (i j : nat) :
  (i < j)%nat ->
  axis_dims !! i = Some (-1) ->
  axis_dims !! j = Some (-1) ->
  raises (create_mesh rt axis_dims axis_names backend).
Proof.
  intros Hij Hi Hj. unfold create_mesh.
  destruct (devices rt _) as [n|e]; [|by eexists].
  cbn [mbind result_bind]. unfold reshape_shape.
  destruct (existsb _ axis_dims); [by eexists|].
  pose proof (filter_unknown_two _ _ _ Hij Hi Hj) as Hlen.
  destruct (filter (fun d => d = -1) axis_dims) as [|u [|u' us]];
    cbn [length] in Hlen; try lia.
  by eexists.
Qed.

End MeshInvariants.

(** ** The checkpoint transform, continued *)

Section PathFacts.
Import Transform Paths.

(** ['.'.join(s.split('.'))] is [s]; so [split('.')] loses nothing. *)
Lemma join_dots_split_dots s : join_dots (split_dots s) = s.
Proof.
  induction s as [|c s IH]; [done|]. cbn [split_dots].
  destruct (Ascii.eqb_spec c ".") as [->|_].
  - cbn [join_dots].
    destruct (split_dots s) as [|seg segs] eqn:Hs;
      [by apply split_dots_nonempty in Hs|].
    by rewrite IH.
  - destruct (split_dots s) as [|seg segs] eqn:Hs;
      [by apply split_dots_nonempty in Hs|].
    cbn [join_dots] in *. destruct segs as [|seg' segs]; [by rewrite IH|].
    by rewrite append_cons, IH.
Qed.

Lemma split_dots_inj : Inj (=) (=) split_dots.
Proof.
  intros s1 s2 Heq. apply (f_equal join_dots) in Heq.
  by rewrite !join_dots_split_dots in Heq.
Qed.

End PathFacts.

Section TransformInvariants.
Import Sharding Transform.
Context {T N : Type} `{TensorOps T N}.

Lemma forallb_elem_of {X} (f : X -> bool) (l : list X) :
  forallb f l = true <-> forall x, x ∈ l -> f x = true.
Proof.
  rewrite forallb_forall. split; intros Hf x Hx; apply Hf;
    by apply list_elem_of_In.
Qed.

(** X23.  [match_keywords] holds exactly when every string of [ts] occurs
    in the text as a substring and no string of [ns] does. *)
Theorem match_keywords_substrings (string_ : string) (ts ns : list string) :
  match_keywords string_ ts ns = true
  <-> (forall t, t ∈ ts -> exists pre post, string_ = pre +:+ t +:+ post)
      /\ (forall n, n ∈ ns ->
            ~ exists pre post, string_ = pre +:+ n +:+ post).
Proof.
  unfold match_keywords. rewrite andb_true_iff, !forallb_elem_of.
  split; intros [Hts Hns]; split.
  - intros t Ht. apply contains_spec. by apply Hts.
  - intros n Hn Hsub. apply contains_spec in Hsub.
    specialize (Hns n Hn). by rewrite Hsub in Hns.
  - intros t Ht. apply contains_spec. by apply Hts.
  - intros n Hn. apply negb_true_iff.
    destruct (contains n string_) eqn:Hc; [|done].
    exfalso. apply (Hns n Hn). by apply contains_spec.
Qed.

(** X24.  Nothing is made up by [huggingface_to_easydel]: every array of
    the nested dictionary it returns, at any depth, is the conversion of an
    item of the source mapping.  Its path is not empty, and the array is the
    item's tensor converted to [dtype], transposed first only for a
    two-dimensional tensor under the kernel rule whose key does not contain
    the embedding layer name. *)
Theorem huggingface_to_easydel_provenance (state_dict : list (string * T))
    (embedding_layer_name : string) (dtype : DType)
    (flax : list (string * tree N)) (path : list string) (array : N) :
  huggingface_to_easydel state_dict embedding_layer_name dtype = Ok flax ->
  lookup_path flax path = Some (Leaf array) ->
  path <> []
  /\ exists key t,
       (key, t) ∈ state_dict
       /\ convert_item embedding_layer_name dtype (key, t) = (path, array)
       /\ (array = to_numpy dtype t
           \/ (contains embedding_layer_name key = false
               /\ kernel_rule key = true
               /\ ndim t = 2%nat
               /\ array = to_numpy dtype (transpose01 t))).
Proof.
  intros Hflax Hl.
  pose proof (huggingface_to_easydel_leaf _ _ _ _ _ _ Hflax Hl) as Hin.
  apply list_elem_of_fmap in Hin as ([key t] & Hconv & Hin).
  assert (Hpath : path <> []).
  { pose proof (convert_item_path_nonempty embedding_layer_name dtype (key, t))
      as Hne. by rewrite <- Hconv in Hne. }
  split; [done|]. exists key, t. split; [done|]. split; [done|].
  revert Hconv. unfold convert_item. fold (kernel_rule key).
  destruct (contains embedding_layer_name key); [intros [= _ ->]; by left|].
  destruct (kernel_rule key); [|intros [= _ ->]; by left].
  destruct (Nat.eqb_spec (ndim t) 2) as [Hd|_]; intros [= _ ->]; auto.
Qed.

(** X25.  Keys that neither contain the embedding layer name nor fall under
    the kernel rule are only split at their dots: on a mapping of such keys,
    distinct and with no key's path a proper prefix of another's, the
    function returns a nested dictionary that holds, under the path of the
    segments of each key, the item's tensor converted to [dtype], and no
    other array. *)
Theorem huggingface_to_easydel_plain_keys (state_dict : list (string * T))
    (embedding_layer_name : string) (dtype : DType) :
  NoDup state_dict.*1 ->
  Forall (fun key => contains embedding_layer_name key = false
                     /\ kernel_rule key = false) state_dict.*1 ->
  prefix_free (split_dots <$> state_dict.*1) ->
  exists flax,
    huggingface_to_easydel state_dict embedding_layer_name dtype = Ok flax
    /\ (forall key t, (key, t) ∈ state_dict ->
          lookup_path flax (split_dots key) = Some (Leaf (to_numpy dtype t)))
    /\ (forall path array, lookup_path flax path = Some (Leaf array) ->
          exists key t,
            (key, t) ∈ state_dict
            /\ path = split_dots key /\ array = to_numpy dtype t).
Proof.
  intros Hnd Hplain Hpf.
  assert (Hconv : forall key t, (key, t) ∈ state_dict ->
            convert_item embedding_layer_name dtype (key, t)
            = (split_dots key, to_numpy dtype t)).
  { intros key t Hin. rewrite Forall_forall in Hplain.
    destruct (Hplain key) as [He Hk].
    { apply list_elem_of_fmap. by exists (key, t). }
    unfold convert_item. fold (kernel_rule key). by rewrite He, Hk. }
  assert (Hpaths : (fun item =>
                      (convert_item embedding_layer_name dtype item).1)
                     <$> state_dict
                   = split_dots <$> state_dict.*1).
  { rewrite <- list_fmap_compose. apply list_eq. intros i.
    rewrite !list_lookup_fmap.
    destruct (state_dict !! i) as [[key t]|] eqn:Hi; [|done].
    change (Some (convert_item embedding_layer_name dtype (key, t)).1
            = Some (split_dots key)).
    by rewrite (Hconv key t) by by eapply list_elem_of_lookup_2. }
  rewrite <- Hpaths in Hpf.
  destruct (huggingface_to_easydel_Ok state_dict embedding_layer_name dtype Hpf)
    as (flax & Hflax & Hall).
  exists flax. split; [done|]. split.
  - intros key t Hin. apply Hall.
    apply list_elem_of_lookup in Hin as [i Hi].
    rewrite <- (Hconv key t) by by eapply list_elem_of_lookup_2.
    apply (flax_dict_last _ _ _ i); [done|].
    intros j [key' t'] Hlt Hj.
    rewrite (Hconv key t), (Hconv key' t')
      by by eapply list_elem_of_lookup_2.
    cbn [fst]. intros Heq. apply split_dots_inj in Heq as ->.
    assert (i = j); [|lia].
    apply (NoDup_lookup state_dict.*1 i j key Hnd);
      by rewrite list_lookup_fmap, ?Hi, ?Hj.
  - intros path array Hl.
    pose proof (huggingface_to_easydel_leaf _ _ _ _ _ _ Hflax Hl) as Hin.
    apply list_elem_of_fmap in Hin as ([key t] & Heq & Hin).
    rewrite (Hconv key t Hin) in Heq. injection Heq as -> ->.
    by exists key, t.
Qed.

End TransformInvariants.

(** ** Paths that run through an array *)

Section PrefixConflict.
Import Sharding Transform.
Context {T N : Type} `{TensorOps T N}.

Lemma set_path_IndexError (p : list string) : forall (d : list (string * tree N)) v e,
  set_path d p v = Raise e -> exists msg, e = IndexError msg.
Proof.
  induction p as [|k rest IH]; intros d v e Hset.
  - injection Hset as <-. by eexists.
  - destruct rest as [|k' r]; [done|].
    rewrite set_path_cons_cons in Hset.
    destruct (dict_get d k) as [[a|sub]|].
    + injection Hset as <-. by eexists.
    + destruct (set_path sub (k' :: r) v) as [sub'|e'] eqn:Hsub; [done|].
      injection Hset as <-. by eapply IH.
    + destruct (set_path [] (k' :: r) v) as [sub'|e'] eqn:Hsub; [done|].
      injection Hset as <-. by eapply IH.
Qed.

(** A path that runs through an array cannot be written. *)
Lemma set_path_into_leaf (q : list string) :
  forall (d : list (string * tree N)) p v a,
    lookup_path d q = Some (Leaf a) -> q `prefix_of` p -> q <> p ->
    exists msg, set_path d p v = Raise (IndexError msg).
Proof.
  induction q as [|k qr IH]; intros d p v a Hq [r ->] Hne; [done|].
  destruct qr as [|q0 qr].
  - rewrite lookup_path_singleton in Hq.
    destruct r as [|r0 r]; [by rewrite app_nil_r in Hne|].
    cbn [app]. rewrite set_path_cons_cons, Hq. by eexists.
  - rewrite lookup_path_cons_cons in Hq.
    destruct (dict_get d k) as [[a'|sub]|] eqn:Hk; try done.
    destruct (IH sub ((q0 :: qr) ++ r) v a Hq) as [msg Hmsg].
    + by exists r.
    + intros Heq. apply Hne. exact (f_equal (cons k) Heq).
    + cbn [app] in *. rewrite set_path_cons_cons, Hk, Hmsg. by eexists.
Qed.

(** An array stays on the way to its path: after a round that succeeds,
    the path of an array, or a prefix of it, still holds an array. *)
Lemma set_path_keeps_leaf (p : list string) (d d' : list (string * tree N))
    v q a :
  set_path d p v = Ok d' ->
  lookup_path d q = Some (Leaf a) ->
  exists q' a', q' `prefix_of` q /\ lookup_path d' q' = Some (Leaf a').
Proof.
  intros Hset Hq.
  destruct (decide (p `prefix_of` q)) as [Hpq|Hpq].
  - exists p, v. split; [done|]. by eapply lookup_set_path_eq.
  - destruct (decide (q `prefix_of` p)) as [Hqp|Hqp].
    + destruct (set_path_into_leaf q d p v a Hq Hqp) as [msg Hmsg].
      * intros ->. by apply Hpq.
      * by rewrite Hmsg in Hset.
    + exists q, a. split; [done|].
      by rewrite (lookup_set_path_ne p d d' v q Hset Hpq Hqp).
Qed.

Lemma unflatten_foldl_keeps_leaf (xs : list (list string * N)) :
  forall d flax q a,
    foldl (fun result '(path, value) =>
             result ← result; set_path result path value)
          (Ok d) xs
    = Ok flax ->
    lookup_path d q = Some (Leaf a) ->
    exists q' a', q' `prefix_of` q /\ lookup_path flax q' = Some (Leaf a').
Proof.
  induction xs as [|[p v] xs IH]; intros d flax q a Hfold Hq.
  - injection Hfold as <-. by exists q, a.
  - cbn [foldl mbind result_bind] in Hfold.
    destruct (set_path d p v) as [d'|e] eqn:Hset;
      [|by rewrite unflatten_foldl_Raise in Hfold].
    destruct (set_path_keeps_leaf p d d' v q a Hset Hq)
      as (q1 & a1 & Hpre1 & Hq1).
    destruct (IH d' flax q1 a1 Hfold Hq1) as (q2 & a2 & Hpre2 & Hq2).
    exists q2, a2. split; [by etrans|done].
Qed.

Lemma unflatten_foldl_IndexError (xs : list (list string * N)) : forall d e,
  foldl (fun result '(path, value) =>
           result ← result; set_path result path value)
        (Ok d) xs
  = Raise e ->
  exists msg, e = IndexError msg.
Proof.
  induction xs as [|[p v] xs IH]; intros d e Hfold; [done|].
  cbn [foldl mbind result_bind] in Hfold.
  destruct (set_path d p v) as [d'|e'] eqn:Hset; [by eapply IH|].
  rewrite unflatten_foldl_Raise in Hfold. injection Hfold as <-.
  by eapply set_path_IndexError.
Qed.

(** [unflatten_dict] fails on a flat dictionary in which the path of an
    entry is a proper prefix of the path of a later entry. *)
Lemma unflatten_dict_prefix_conflict (xs1 xs2 xs3 : list (list string * N))
    p v p' v' :
  p `prefix_of` p' -> p <> p' ->
  exists msg,
    unflatten_dict (xs1 ++ (p, v) :: xs2 ++ (p', v') :: xs3)
    = Raise (IndexError msg).
Proof.
  intros Hpre Hne. unfold unflatten_dict.
  assert (Hraise : forall r : result (list (string * tree N)),
            (forall e, r = Raise e -> exists msg, e = IndexError msg) ->
            (forall flax, r <> Ok flax) ->
            exists msg, r = Raise (IndexError msg)).
  { intros [flax|e] He Hok; [by destruct (Hok flax)|].
    destruct (He e eq_refl) as [msg ->]. by exists msg. }
  apply Hraise; [intros e; apply unflatten_foldl_IndexError|].
  intros flax. rewrite foldl_app. cbn [foldl].
  destruct (foldl _ (Ok []) xs1) as [d1|e1]; cbn [mbind result_bind];
    [|by rewrite unflatten_foldl_Raise].
  destruct (set_path d1 p v) as [d2|e2] eqn:Hset;
    [|by rewrite unflatten_foldl_Raise].
  rewrite foldl_app. cbn [foldl].
  destruct (foldl _ (Ok d2) xs2) as [d3|e3] eqn:Hfold;
    cbn [mbind result_bind]; [|by rewrite unflatten_foldl_Raise].
  pose proof (lookup_set_path_eq p d1 d2 v Hset) as Hleaf.
  destruct (unflatten_foldl_keeps_leaf xs2 d2 d3 p v Hfold Hleaf)
    as (q & a & Hq & Hqleaf).
  destruct (set_path_into_leaf q d3 p' v' a Hqleaf) as [msg Hmsg].
  - by etrans.
  - intros ->. apply Hne. by apply (anti_symm prefix).
  - rewrite Hmsg. by rewrite unflatten_foldl_Raise.
Qed.

Lemma foldl_dict_set_fresh {K V} `{EqDecision K} (l : list (K * V)) :
  forall d, NoDup (d.*1 ++ l.*1) ->
  foldl (fun d '(k, v) => dict_set d k v) d l = d ++ l.
Proof.
  assert (Hset : forall (d : list (K * V)) k v,
            k ∉ d.*1 -> dict_set d k v = d ++ [(k, v)]).
  { induction d as [|[k0 v0] d IH]; intros k v Hk; [done|].
    cbn [fmap list_fmap fst] in Hk.
    apply not_elem_of_cons in Hk as [Hne Hk].
    cbn [dict_set app]. rewrite decide_False by done. by rewrite IH. }
  induction l as [|[k v] l IH]; intros d Hnd; [by rewrite app_nil_r|].
  cbn [foldl fmap list_fmap fst] in *.
  rewrite Hset.
  - rewrite IH; [by rewrite <- app_assoc|].
    by rewrite fmap_app, <- app_assoc.
  - apply NoDup_app in Hnd as (_ & Hdisj & _). intros Hin.
    apply (Hdisj k Hin). by left.
Qed.

(** X28.  The order of the items decides what a prefix conflict does.  On a
    mapping whose converted paths are distinct, if the converted path of an
    item is a proper prefix of the converted path of a later item,
    [huggingface_to_easydel] raises an [IndexError]: [unflatten_dict] walks
    into the array stored under the shorter path. *)
Theorem huggingface_to_easydel_prefix_conflict (state_dict : list (string * T))
    (embedding_layer_name : string) (dtype : DType) (i j : nat)
    (item item' : string * T) :
  NoDup ((fun item => (convert_item embedding_layer_name dtype item).1)
           <$> state_dict) ->
  state_dict !! i = Some item ->
  state_dict !! j = Some item' ->
  (i < j)%nat ->
  (convert_item embedding_layer_name dtype item).1
    `prefix_of` (convert_item embedding_layer_name dtype item').1 ->
  exists msg,
    huggingface_to_easydel state_dict embedding_layer_name dtype
    = Raise (IndexError msg).
Proof.
  intros Hnd Hi Hj Hlt Hpre. unfold huggingface_to_easydel.
  rewrite flax_dict_foldl, foldl_dict_set_fresh;
    [|by rewrite <- list_fmap_compose].
  cbn [app].
  assert (Hne : (convert_item embedding_layer_name dtype item).1
                <> (convert_item embedding_layer_name dtype item').1).
  { intros Heq. assert (i = j); [|lia].
    eapply (NoDup_lookup _ i j); [exact Hnd| |]; rewrite list_lookup_fmap.
    - by rewrite Hi.
    - rewrite Hj. cbn. by rewrite Heq. }
  rewrite <- (take_drop_middle state_dict i item Hi).
  assert (Hj' : drop (S i) state_dict !! (j - S i)%nat = Some item').
  { rewrite lookup_drop, <- Hj. f_equal. lia. }
  rewrite <- (take_drop_middle _ _ _ Hj').
  rewrite fmap_app, fmap_cons, fmap_app, fmap_cons.
  destruct (convert_item embedding_layer_name dtype item) as [p v].
  destruct (convert_item embedding_layer_name dtype item') as [p' v'].
  by apply unflatten_dict_prefix_conflict.
Qed.

End PrefixConflict.

Lemma huggingface_to_easydel_prefix_conflict_witness :
  exists msg,
    Transform.huggingface_to_easydel
      [("lm_head", Transform.Vec [2]); ("lm_head.bias", Transform.Vec [1])]
      "wte" Sharding.float16
    = Raise (IndexError msg).
Proof.
  apply (huggingface_to_easydel_prefix_conflict
           [("lm_head", Transform.Vec [2]); ("lm_head.bias", Transform.Vec [1])]
           "wte" Sharding.float16 0 1
           ("lm_head", Transform.Vec [2])
           ("lm_head.bias", Transform.Vec [1])).
  - apply (bool_decide_unpack _). vm_compute. exact I.
  - reflexivity.
  - reflexivity.
  - lia.
  - exists ["bias"]. reflexivity.
Defined.

(** ** Checkpoint files, continued *)

Section CheckpointRecords.
Import Sharding Checkpoint.
Context {T B : Type} `{Castable T}.
Variable to_bytes : T -> B.
Variable from_bytes : B -> T.

(** X26.  [save_ckpt] writes one record per entry of the state, in order and
    under the entry's key: the bytes of the value after its gather function,
    if gather functions are given, and then the cast to [float_dtype] have
    been applied.  Nothing is written twice or left out. *)
Theorem save_ckpt_records (state : list (list string * T))
    (gather_fns : option (gmap (list string) (T -> T)))
    (float_dtype : DTypeArg) (file : File (B := B)) :
  save_ckpt to_bytes state gather_fns float_dtype = Ok file ->
  file.*1 = state.*1
  /\ forall i key value, state !! i = Some (key, value) ->
       exists gathered written,
         match gather_fns with
         | Some fns => exists f, fns !! key = Some f /\ gathered = f value
         | None => gathered = value
         end
         /\ float_tensor_to_dtype gathered float_dtype = Ok written
         /\ file !! i = Some (key, to_bytes written).
Proof.
  revert file. induction state as [|[key0 value0] state IH]; intros file.
  - intros [= <-]. split; [done|]. intros i key value Hi.
    by rewrite lookup_nil in Hi.
  - cbn [save_ckpt].
    destruct (match gather_fns with Some _ => _ | None => _ end)
      as [gathered|] eqn:Hg; [|done].
    cbn [mbind result_bind].
    destruct (float_tensor_to_dtype gathered float_dtype) as [written|] eqn:Hw;
      [|done].
    cbn [mbind result_bind].
    destruct (save_ckpt to_bytes state gather_fns float_dtype) as [records|];
      [|done].
    cbn [mbind result_bind]. intros [= <-].
    destruct (IH records eq_refl) as [IHk IHr].
    split; [cbn; by rewrite IHk|].
    intros [|i] key value Hi; cbn in Hi.
    + injection Hi as -> ->. exists gathered, written.
      split; [|by split].
      destruct gather_fns as [fns|]; [|by injection Hg as <-].
      unfold getitem in Hg. destruct (fns !! key) as [f|]; [|done].
      cbn in Hg. injection Hg as <-. by exists f.
    + by apply IHr.
Qed.

(** X27.  [read_ckpt] stores each record under its key with the prefix
    [add_extra_past_fix] in front; of several records with the same key, the
    last one of the file is the one that is read back. *)
Theorem read_ckpt_last_record_wins (stream : File (B := B))
    (prefix : option (list string)) (i : nat) (key : list string)
    (value : B) :
  stream !! i = Some (key, value) ->
  (forall j kv, (i < j)%nat -> stream !! j = Some kv -> kv.1 <> key) ->
  exists tensors,
    read_ckpt from_bytes stream None prefix = Ok tensors
    /\ tensors !! match prefix with Some p => p ++ key | None => key end
       = Some (from_bytes value).
Proof.
  unfold File in *.
  intros Hi Hlater. rewrite read_ckpt_no_shard. eexists. split; [done|].
  apply (foldl_insert_last _ _ i).
  - by rewrite list_lookup_fmap, Hi.
  - intros j kv Hlt Hj. rewrite list_lookup_fmap in Hj.
    destruct (stream !! j) as [[key' value']|] eqn:Hj'; [|done].
    injection Hj as <-. cbn [fst]. intros Heq.
    apply (Hlater j (key', value') Hlt Hj'). cbn [fst].
    destruct prefix as [p|]; [by apply app_inv_head in Heq|done].
Qed.

End CheckpointRecords.

(** ** The properties on the example inputs *)

Lemma update_inputs_positions_continue_witness :
  foldl (fun kw pkv => Generation.update_inputs_for_generation pkv kw)
    (Generation.mkKwargs (2%nat, 5%nat) (Pretrained.ones 2 5)
       (Pretrained.broadcast_arange 2 3))
    [(2%nat, 6%nat); (2%nat, 7%nat); (2%nat, 8%nat)]
  = Generation.mkKwargs (2%nat, 8%nat) (Pretrained.ones 2 5)
      (Pretrained.mkArray2 (2%nat, 1%nat) [[5]; [5]]).
Proof.
  apply (update_inputs_positions_continue 2 3
           (Generation.mkKwargs (2%nat, 5%nat) (Pretrained.ones 2 5)
              (Pretrained.broadcast_arange 2 3))
           (2%nat, 6%nat) [(2%nat, 7%nat); (2%nat, 8%nat)]).
  - reflexivity.
  - lia.
  - simpl. lia.
Defined.

Lemma repeat_kv_bnsh_block_replicates_witness :
  exists out,
    Heads.repeat_kv_bnsh [[10; 20]; [30; 40]] 2 = Ok out
    /\ length out = 2%nat.
Proof.
  destruct (repeat_kv_bnsh_block_replicates [[10; 20]; [30; 40]] 2)
    as (out & Hout & Hlen & _); [lia|].
  exists out. split; [exact Hout | exact Hlen].
Defined.

Lemma rotate_half_twice_negates_witness :
  Rotary.rotate_half Z.opp (Rotary.rotate_half Z.opp [1; 2; 3; 4])
  = [-1; -2; -3; -4].
Proof.
  destruct (rotate_half_twice_negates Z.opp [1; 2; 3; 4]) as [Htwice _];
    [exists 2%nat; reflexivity | exact Htwice].
Defined.

Lemma get_ranks_and_size_decomposes_witness :
  exists r,
    Ranks.get_ranks_and_size example_mesh 1 4 3 = Ok (example_mesh, r)
    /\ 3 = Ranks.dp_node_rank r * Ranks.mp_node_size r + Ranks.mp_node_rank r.
Proof.
  destruct (get_ranks_and_size_decomposes example_mesh 1 4 3 1 2)
    as (r & Hr & _ & Hsplit & _); [reflexivity | reflexivity |].
  exists r. split; [exact Hr | exact Hsplit].
Defined.

Lemma get_ranks_and_size_needs_tp_and_mp_witness :
  (exists r, Ranks.get_ranks_and_size example_mesh 1 4 3 = Ok (example_mesh, r))
  <-> "tp" ∈ Sharding.axis_names example_mesh
      /\ "mp" ∈ Sharding.axis_names example_mesh.
Proof.
  apply (get_ranks_and_size_needs_tp_and_mp example_mesh 1 4 3).
  reflexivity.
Defined.

Lemma read_ckpt_save_ckpt_witness :
  exists file,
    Checkpoint.save_ckpt id example_train_state None Checkpoint.DNone = Ok file
    /\ Checkpoint.read_ckpt id file None None
       = Ok (list_to_map example_train_state).
Proof.
  apply (read_ckpt_save_ckpt id id example_train_state Checkpoint.DNone).
  - intros t. reflexivity.
  - apply (bool_decide_unpack _). vm_compute. exact I.
  - left. reflexivity.
Defined.

Lemma sliding_window_mask_band_witness :
  exists mask,
    SlidingWindow._make_sliding_window_causal_mask (2%nat, 3%nat)
      Sharding.float32 0 1
    = Ok (Sharding.float32, [[mask]; [mask]])
    /\ length mask = 3%nat.
Proof.
  destruct (sliding_window_mask_band 2 3 Sharding.float32 0 1)
    as (mask & Hmask & Hlen & _); [lia|].
  exists mask. split; [exact Hmask | exact Hlen].
Defined.

Lemma cache_step_masks_unwritten_positions_witness :
  exists c' mask',
    Cache.updater_of 0 true (Cache.active [1; 2; 0; 0] [5; 6; 0; 0] 2)
      [3] [7] 1%nat (fun _ _ => true)
    = Ok (c', ([1; 2; 3; 0], [5; 6; 7; 0], mask'))
    /\ forall q j, mask' q j = bool_decide (j < 3)%nat && true.
Proof.
  apply (cache_step_masks_unwritten_positions 0 true [1; 2; 0; 0] [5; 6; 0; 0]
           [3] [7] 2 (fun _ _ => true)).
  - reflexivity.
  - reflexivity.
  - simpl. lia.
  - simpl. lia.
Defined.

Lemma get_names_returns_each_name_once_witness :
  exists l,
    Sharding.get_names_from_partition_spec example_spec = Ok l
    /\ NoDup l
    /\ forall s, s ∈ l <-> Sharding.referenced s example_spec.
Proof.
  apply (get_names_returns_each_name_once example_spec). exact I.
Defined.

Lemma smart_flash_attention_returns_only_if_witness :
  Attention.well_shaped (example_attn None).
Proof.
  destruct (smart_flash_attention_returns_only_if
              (Sharding.mkEnv ["dp"; "fsdp"; "tp"; "mp"] "tpu")
              (example_attn None)
              (Sharding.AsType (Attention.local_call (example_attn None))
                 Sharding.float16)) as [Hws _];
    [reflexivity | exact Hws].
Defined.

Lemma smart_flash_attention_constrains_output_witness :
  (Sharding.declared example_env (Attention.a_ps example_gpu_attn) ->
   Sharding.AsType
     (Sharding.Wsc (Attention.sharded_call example_gpu_attn single_device_mesh)
        (Attention.a_ps example_gpu_attn))
     Sharding.float16
   = Sharding.AsType
       (Sharding.Wsc
          (Attention.sharded_call example_gpu_attn single_device_mesh)
          (Attention.a_ps example_gpu_attn))
       Sharding.float16)
  /\ (~ Sharding.declared example_env (Attention.a_ps example_gpu_attn) ->
      Sharding.AsType
        (Sharding.Wsc
           (Attention.sharded_call example_gpu_attn single_device_mesh)
           (Attention.a_ps example_gpu_attn))
        Sharding.float16
      = Sharding.AsType
          (Attention.sharded_call example_gpu_attn single_device_mesh)
          Sharding.float16).
Proof.
  apply (smart_flash_attention_constrains_output example_env
           example_gpu_attn single_device_mesh).
  - vm_compute. reflexivity.
  - reflexivity.
  - reflexivity.
  - exact I.
Defined.

Lemma create_mesh_uses_all_devices_witness :
  MeshBuilder.prod [1; 8; 1; 1] = 8.
Proof.
  destruct (create_mesh_uses_all_devices eight_devices [1; -1; 1; 1]
              ["dp"; "fsdp"; "tp"; "mp"] "" 8
              (Sharding.mkMesh ["dp"; "fsdp"; "tp"; "mp"] [1; 8; 1; 1]))
    as (_ & _ & _ & Hprod & _).
  - reflexivity.
  - intros sh sh'. cbn. destruct (MeshBuilder.prod sh =? 8).
    + intros Heq. injection Heq as <-. reflexivity.
    + intros Heq. discriminate Heq.
  - vm_compute. reflexivity.
  - exact Hprod.
Defined.

Lemma create_mesh_explicit_dims_witness :
  MeshBuilder.create_mesh eight_devices [2; 4; 1; 1]
    ["dp"; "fsdp"; "tp"; "mp"] ""
  = Ok (Sharding.mkMesh ["dp"; "fsdp"; "tp"; "mp"] [2; 4; 1; 1]).
Proof.
  destruct (create_mesh_explicit_dims eight_devices [2; 4; 1; 1]
              ["dp"; "fsdp"; "tp"; "mp"] "" 8) as [Hok _].
  - reflexivity.
  - intros sh Hsh. cbn. rewrite Hsh. reflexivity.
  - repeat constructor; lia.
  - reflexivity.
  - apply Hok. reflexivity.
Defined.

Lemma create_mesh_two_unknown_axes_witness :
  raises (MeshBuilder.create_mesh eight_devices [-1; -1; 1; 1]
            ["dp"; "fsdp"; "tp"; "mp"] "").
Proof.
  apply (create_mesh_two_unknown_axes eight_devices [-1; -1; 1; 1]
           ["dp"; "fsdp"; "tp"; "mp"] "" 0 1).
  - lia.
  - reflexivity.
  - reflexivity.
Defined.

Lemma huggingface_to_easydel_provenance_witness :
  exists key t,
    (key, t) ∈ example_plain_state_dict
    /\ Transform.convert_item "wte" Sharding.float16 (key, t)
       = (["lm_head"; "weight"],
          (Sharding.float16, Transform.Mat [[1; 2]; [3; 4]])).
Proof.
  destruct (huggingface_to_easydel_provenance example_plain_state_dict "wte"
              Sharding.float16
              [("transformer",
                Transform.Dict
                  [("ln_f",
                    Transform.Dict
                      [("bias",
                        Transform.Leaf
                          (Sharding.float16, Transform.Vec [1; 2]))])]);
               ("lm_head",
                Transform.Dict
                  [("weight",
                    Transform.Leaf
                      (Sharding.float16, Transform.Mat [[1; 2]; [3; 4]]))])]
              ["lm_head"; "weight"]
              (Sharding.float16, Transform.Mat [[1; 2]; [3; 4]]))
    as (_ & key & t & Hin & Hconv & _);
    [vm_compute; reflexivity | vm_compute; reflexivity |].
  exists key, t. split; [exact Hin | exact Hconv].
Defined.

Lemma huggingface_to_easydel_plain_keys_witness :
  exists flax,
    Transform.huggingface_to_easydel example_plain_state_dict "wte"
      Sharding.float16 = Ok flax
    /\ Transform.lookup_path flax ["lm_head"; "weight"]
       = Some (Transform.Leaf
                 (Sharding.float16, Transform.Mat [[1; 2]; [3; 4]])).
Proof.
  destruct (huggingface_to_easydel_plain_keys example_plain_state_dict "wte"
              Sharding.float16) as (flax & Hflax & Hall & _).
  - apply (bool_decide_unpack _). vm_compute. exact I.
  - repeat constructor; vm_compute; reflexivity.
  - apply (bool_decide_unpack _). vm_compute. exact I.
  - exists flax. split; [exact Hflax|].
    apply (Hall "lm_head.weight" (Transform.Mat [[1; 2]; [3; 4]])).
    apply elem_of_cons. right. apply elem_of_cons. left. reflexivity.
Defined.

Lemma save_ckpt_records_witness :
  exists gathered written,
    gathered = (Sharding.int32_t, [3])
    /\ Checkpoint.float_tensor_to_dtype gathered Checkpoint.DNone = Ok written
    /\ example_train_state !! 1%nat = Some (["step"], id written).
Proof.
  destruct (save_ckpt_records id example_train_state None Checkpoint.DNone
              example_train_state) as [_ Hrecords]; [reflexivity|].
  apply (Hrecords 1%nat ["step"] (Sharding.int32_t, [3])). reflexivity.
Defined.

Lemma read_ckpt_last_record_wins_witness :
  exists tensors,
    Checkpoint.read_ckpt id
      [ (["wte"], (Sharding.float32, [1])); (["wte"], (Sharding.float32, [2])) ]
      None (Some ["params"])
    = Ok tensors
    /\ tensors !! ["params"; "wte"] = Some (Sharding.float32, [2]).
Proof.
  apply (read_ckpt_last_record_wins id
           [ (["wte"], (Sharding.float32, [1]));
             (["wte"], (Sharding.float32, [2])) ]
           (Some ["params"]) 1 ["wte"] (Sharding.float32, [2])).
  - reflexivity.
  - intros [|[|j]] kv Hlt Hj; [lia | lia | discriminate Hj].
Defined.
